(** * The Multinomial distribution of tensorflow/contrib/distributions

    A shallow embedding of [multinomial.py] and of the part of the tensor
    engine it calls, and of the argument conversions of
    [python/eager/execute.py].

    - The value of a tensor ([ndarray]) is a shape together with its
      elements in row-major order.
    - The element type of a float tensor is a parameter: the code of
      [Multinomial] is written once over the classes [Arith], [Checks] and
      [Special] and then read at three element types: binary64 floats
      ([PrimFloat], arithmetic only), the rationals ([Q], exact and
      executable) and the reals extended with the IEEE special values
      ([xreal], exact arithmetic with infinities and NaN).
    - A Python exception raised while the graph is built is a [Raise] in
      [py]; an error of an op met while the graph is evaluated is a [Fail]
      in [ev].  A symbolic tensor is the outcome of its evaluation; the
      symbolic [total_count] ([Tensor]) also carries its statically known
      rank, the only static information the code inspects.  Sizes are
      known at evaluation only: a mismatch of shapes that the engine
      reports while the graph is built, when the sizes are known by then,
      is a [Fail] of the evaluation here. *)

From Stdlib Require Import String ZArith Lia Bool QArith Qabs.
From Stdlib Require Import PrimFloat.
From Stdlib Require Import Reals Lra List.
Import ListNotations.

Close Scope Q_scope.
Close Scope R_scope.
Open Scope nat_scope.

Set Implicit Arguments.
Set Warnings "-inexact-float".

(** ** Errors *)

Inductive exn : Type :=
| ConfigurationError
| NotImplementedError (message : string).

Inductive py (A : Type) : Type :=
| Return (a : A)
| Raise (e : exn).
Arguments Return {A} a.
Arguments Raise {A} e.

Inductive op_error : Type :=
| InvalidArgumentError (message : string).

Inductive ev (A : Type) : Type :=
| Val (a : A)
| Fail (e : op_error).
Arguments Val {A} a.
Arguments Fail {A} e.

Definition ev_bind {A B} (m : ev A) (f : A -> ev B) : ev B :=
  match m with
  | Val a => f a
  | Fail e => Fail e
  end.

Definition ev_map {A B} (f : A -> B) (m : ev A) : ev B :=
  ev_bind m (fun a => Val (f a)).

Definition py_bind {A B} (m : py A) (f : A -> py B) : py B :=
  match m with
  | Return a => f a
  | Raise e => Raise e
  end.

Declare Scope ev_scope.
Delimit Scope ev_scope with ev.
Notation "x <- m ;; k" := (ev_bind m (fun x => k))
  (at level 61, m at next level, right associativity) : ev_scope.
Open Scope ev_scope.

(** ** Element types *)

(** Elementwise arithmetic of a float dtype: [+ - * /] and unary minus. *)
Class Arith (F : Type) : Type := {
  zero : F;
  one : F;
  add : F -> F -> F;
  sub : F -> F -> F;
  mul : F -> F -> F;
  div : F -> F -> F;
  neg : F -> F
}.

(** Comparisons and conversions of a float dtype: [0 <= x], [x == y],
    closeness within the tolerance of [assert_close], the conversion to an
    integer (truncation toward zero) and the conversion from an integer. *)
Class Checks (F : Type) : Type := {
  nonneg : F -> bool;
  equal : F -> F -> bool;
  close : F -> F -> bool;
  trunc : F -> Z;
  of_int : Z -> F
}.

(** The transcendental functions of a float dtype. *)
Class Special (F : Type) : Type := {
  log : F -> F;
  exp : F -> F;
  lgamma : F -> F
}.

(** ** Tensors *)

Record ndarray (A : Type) : Type := mk_ndarray {
  shape : list nat;
  values : list A
}.

Definition numel (s : list nat) : nat := fold_right Nat.mul 1 s.

Definition well_formed {A} (t : ndarray A) : Prop :=
  length (values t) = numel (shape t).

Definition scalar {A} (x : A) : ndarray A := mk_ndarray [] [x].

Definition vector {A} (l : list A) : ndarray A := mk_ndarray [length l] l.

Definition tmap {A B} (f : A -> B) (t : ndarray A) : ndarray B :=
  mk_ndarray (shape t) (map f (values t)).

(** [count] consecutive pieces of [size] elements each. *)
Fixpoint chunks {A} (size count : nat) (l : list A) : list (list A) :=
  match count with
  | O => []
  | S c => firstn size l :: chunks size c (skipn size l)
  end.

Definition map2 {A B C} (f : A -> B -> C) (l : list A) (l' : list B) : list C :=
  map (fun ab => f (fst ab) (snd ab)) (combine l l').

(** Shapes are compared from the last axis backwards. *)
Fixpoint broadcast_rev (a b : list nat) : option (list nat) :=
  match a, b with
  | [], _ => Some b
  | _, [] => Some a
  | x :: a', y :: b' =>
      match broadcast_rev a' b' with
      | None => None
      | Some r =>
          if x =? y then Some (x :: r)
          else if x =? 1 then Some (y :: r)
          else if y =? 1 then Some (x :: r)
          else None
      end
  end.

Definition broadcast_shapes (a b : list nat) : option (list nat) :=
  option_map (@rev nat) (broadcast_rev (rev a) (rev b)).

Definition pad_shape (rank : nat) (s : list nat) : list nat :=
  repeat 1 (rank - length s) ++ s.

(** The values of a tensor of shape [src] once broadcast to [tgt]; both
    shapes have the same rank, and an axis of [src] either agrees with the
    one of [tgt] or has size 1 and is repeated. *)
Fixpoint broadcast_values {A} (src tgt : list nat) (v : list A) : list A :=
  match src, tgt with
  | s :: src', t :: tgt' =>
      let parts :=
        concat (map (broadcast_values src' tgt') (chunks (numel src') s v)) in
      if s =? t then parts else concat (repeat parts t)
  | _, _ => v
  end.

Definition broadcast_to {A} (tgt : list nat) (t : ndarray A) : list A :=
  broadcast_values (pad_shape (length tgt) (shape t)) tgt (values t).

(** An elementwise binary op with broadcasting. *)
Definition broadcast_op {A B C} (f : A -> B -> C)
    (a : ndarray A) (b : ndarray B) : ev (ndarray C) :=
  match broadcast_shapes (shape a) (shape b) with
  | Some s => Val (mk_ndarray s (map2 f (broadcast_to s a) (broadcast_to s b)))
  | None => Fail (InvalidArgumentError "Incompatible shapes")
  end.


(** A symbolic tensor with what is known of its rank before evaluation
    ([get_shape().ndims], [None] when unknown). *)
Record Tensor (A : Type) : Type := mk_Tensor {
  static_ndims : option nat;
  eval : ev (ndarray A)
}.

(** Arithmetic on int32 wraps around. *)
Definition int32_wrap (z : Z) : Z :=
  ((z + 2 ^ 31) mod 2 ^ 32 - 2 ^ 31)%Z.

(** The conversion of an integer-valued float to int32: the integer when it
    fits, and the smallest int32 when it does not. *)
Definition int32_cast (z : Z) : Z :=
  if ((- 2 ^ 31 <=? z) && (z <? 2 ^ 31))%Z then z else (- 2 ^ 31)%Z.

Definition removelast_dim (s : list nat) : list nat := removelast s.

Definition last_dim (s : list nat) : list nat :=
  match rev s with
  | [] => []
  | k :: _ => [k]
  end.

(** ** The tensor engine

    Modelled from the spec: the external TensorEngine of section 6
    (elementwise ops, reductions, broadcasting, one-hot, matrix ops, shape
    ops, categorical sampling), whose code is not part of the sources. *)

Module array_ops.
Section array_ops.
Context {A : Type}.

(** Modelled from the spec: [array_ops.shape]. *)
Definition shape_ (t : ndarray A) : list nat := shape t.

(** Modelled from the spec: [x[..., newaxis]]. *)
Definition newaxis (t : ndarray A) : ndarray A :=
  mk_ndarray (shape t ++ [1]) (values t).

(** Modelled from the spec: [x[..., newaxis, :]]. *)
Definition newaxis_before_last (t : ndarray A) : ndarray A :=
  mk_ndarray (removelast (shape t) ++ 1 :: last_dim (shape t)) (values t).

(** Modelled from the spec: [array_ops.identity]. *)
Definition identity (t : ndarray A) : ndarray A := t.

Definition known_product (s : list Z) : Z :=
  fold_right (fun d acc => if (d =? -1)%Z then acc else (d * acc)%Z) 1%Z s.

(** The product of the requested sizes that are neither [-1] nor [0]. *)
Definition nonzero_product (s : list Z) : Z :=
  fold_right (fun d acc => if ((d =? -1) || (d =? 0))%Z then acc
                           else (d * acc)%Z) 1%Z s.

(** The number of elements of the input that the inference of a [-1]
    counts: an axis of size 0 is left out when the requested shape has a
    size 0 too. *)
Definition counted_elements (sizes_has_zero_dim : bool) (dims : list nat) : nat :=
  fold_right (fun d acc => if sizes_has_zero_dim && (d =? 0) then acc
                           else d * acc) 1 dims.

(** Modelled from the spec: [array_ops.reshape].  At most one entry of the
    requested shape is [-1]; it is inferred from the number of elements of
    the input.  Sizes of 0 are left out of the inference, so that an empty
    tensor can be reshaped too, and the shape arrived at must hold as many
    elements as the input. *)
Definition reshape (t : ndarray A) (s : list Z) : ev (ndarray A) :=
  let n := Z.of_nat (length (values t)) in
  if existsb (fun d => (d <? -1)%Z) s then
    Fail (InvalidArgumentError "Size must be non-negative")
  else
    match count_occ Z.eq_dec s (-1)%Z with
    | 0 =>
        if (n =? known_product s)%Z
        then Val (mk_ndarray (map Z.to_nat s) (values t))
        else Fail (InvalidArgumentError "Input to reshape has a different number of values")
    | 1 =>
        let sizes_has_zero_dim := existsb (fun d => (d =? 0)%Z) s in
        let product := nonzero_product s in
        let input_has_zero_dim :=
          sizes_has_zero_dim && existsb (fun d => d =? 0) (shape t) in
        let input_num_elements :=
          Z.of_nat (counted_elements sizes_has_zero_dim (shape t)) in
        let missing := (input_num_elements / product)%Z in
        if negb input_has_zero_dim
           && negb (product * missing =? input_num_elements)%Z
        then Fail (InvalidArgumentError "Input to reshape requires a multiple of the requested shape")
        else
          let s' := map (fun d => Z.to_nat (if (d =? -1)%Z then missing else d)) s in
          if numel s' =? length (values t)
          then Val (mk_ndarray s' (values t))
          else Fail (InvalidArgumentError "Input to reshape has a different number of values")
    | _ => Fail (InvalidArgumentError "Only one input size may be -1")
    end.

(** The sizes of a requested shape given as scalar tensors. *)
Fixpoint pack (l : list (ndarray Z)) : ev (list Z) :=
  match l with
  | [] => Val []
  | x :: l' =>
      match shape x, values x with
      | [], [z] => r <- pack l' ;; Val (z :: r)
      | _, _ => Fail (InvalidArgumentError "Shapes of all inputs must match")
      end
  end.

Definition transpose_lists (width : nat) (rows : list (list (list A)))
  : list (list (list A)) :=
  map (fun j => map (fun row => nth j row []) rows) (seq 0 width).

(** Modelled from the spec: [array_ops.transpose(x, perm=[1, 0, 2])], the
    only permutation the code asks for: a tensor [a, b, k] becomes
    [b, a, k]. *)
Definition transpose_102 (t : ndarray A) : ev (ndarray A) :=
  match shape t with
  | [a; b; k] =>
      let blocks := chunks k (a * b) (values t) in
      Val (mk_ndarray [b; a; k]
             (concat (concat (transpose_lists b (chunks b a blocks)))))
  | _ => Fail (InvalidArgumentError "transpose expects a tensor of rank 3")
  end.

Definition set_diag_row (i : nat) (row : list A) (d : list A) : list A :=
  map (fun jx => if fst jx =? i then nth i d (snd jx) else snd jx)
      (combine (seq 0 (length row)) row).

(** Modelled from the spec: [array_ops.matrix_set_diag]: in each matrix of
    the batch the diagonal is overwritten. *)
Definition matrix_set_diag (input diagonal : ndarray A) : ev (ndarray A) :=
  match rev (shape input) with
  | n :: m :: rbatch =>
      if list_eq_dec Nat.eq_dec (shape diagonal) (rev rbatch ++ [Nat.min m n]) then
        let b := numel (rev rbatch) in
        Val (mk_ndarray (shape input)
               (concat (map (fun md =>
                  concat (map (fun ir => set_diag_row (fst ir) (snd ir) (snd md))
                              (combine (seq 0 m) (chunks n m (fst md)))))
                  (combine (chunks (m * n) b (values input))
                           (chunks (Nat.min m n) b (values diagonal))))))
      else Fail (InvalidArgumentError "diagonal has the wrong shape")
  | _ => Fail (InvalidArgumentError "input must be at least 2-dim")
  end.
End array_ops.

Section one_hot.
Context {F : Type} {AR : Arith F}.

Definition one_hot_row (depth : nat) (i : Z) : list F :=
  map (fun c => if (Z.of_nat c =? i)%Z then one else zero) (seq 0 depth).

(** Modelled from the spec: [array_ops.one_hot]; an index outside
    [0, depth) gives a row of zeros. *)
Definition one_hot (indices : ndarray Z) (depth : nat) : ndarray F :=
  mk_ndarray (shape indices ++ [depth])
             (concat (map (one_hot_row depth) (values indices))).

(** Modelled from the spec: [array_ops.ones_like]. *)
Definition ones_like (t : ndarray F) : ndarray F :=
  tmap (fun _ => one) t.
End one_hot.
End array_ops.

Module math_ops.
Section math_ops.
Context {F : Type} {AR : Arith F}.

(** The sum of a list, accumulated from its first element. *)
Definition sum (l : list F) : F :=
  match l with
  | [] => zero
  | x :: l' => fold_left add l' x
  end.

Definition sum_columns (width : nat) (rows : list (list F)) : list F :=
  map (fun c => sum (map (fun row => nth c row zero) rows)) (seq 0 width).

(** Modelled from the spec: [math_ops.reduce_sum] along one axis, counted
    from the end when negative. *)
Definition reduce_sum (t : ndarray F) (axis : Z) : ev (ndarray F) :=
  let r := Z.of_nat (length (shape t)) in
  let a := if (axis <? 0)%Z then (r + axis)%Z else axis in
  if ((a <? 0) || (r <=? a))%Z then
    Fail (InvalidArgumentError "Invalid reduction dimension")
  else
    let pre := firstn (Z.to_nat a) (shape t) in
    let m := nth (Z.to_nat a) (shape t) 0 in
    let post := skipn (S (Z.to_nat a)) (shape t) in
    Val (mk_ndarray (pre ++ post)
           (concat (map (fun block =>
                           sum_columns (numel post) (chunks (numel post) m block))
                        (chunks (m * numel post) (numel pre) (values t))))).

Definition multiply (a b : ndarray F) : ev (ndarray F) := broadcast_op mul a b.
Definition subtract (a b : ndarray F) : ev (ndarray F) := broadcast_op sub a b.
Definition negative (a : ndarray F) : ndarray F := tmap neg a.
(** [x + 1] for a Python number [1]. *)
Definition add_one (a : ndarray F) : ndarray F := tmap (fun x => add x one) a.

Definition dot (u v : list F) : F := sum (map2 mul u v).

Definition matmul_block (m p q : nat) (a b : list F) : list F :=
  let rows_b := chunks q p b in
  concat (map (fun row =>
                 map (fun j => dot row (map (fun r => nth j r zero) rows_b))
                     (seq 0 q))
              (chunks p m a)).

(** Modelled from the spec: [math_ops.matmul] of two batches of matrices
    with the same batch shape. *)
Definition matmul (a b : ndarray F) : ev (ndarray F) :=
  match rev (shape a), rev (shape b) with
  | p :: m :: rbatch, q :: p' :: rbatch' =>
      if (p =? p') && (if list_eq_dec Nat.eq_dec rbatch rbatch' then true else false)
      then
        let n := numel (rev rbatch) in
        Val (mk_ndarray (rev rbatch ++ [m; q])
               (concat (map (fun ab => matmul_block m p q (fst ab) (snd ab))
                            (combine (chunks (m * p) n (values a))
                                     (chunks (p * q) n (values b))))))
      else Fail (InvalidArgumentError "Incompatible shapes for matmul")
  | _, _ => Fail (InvalidArgumentError "matmul expects matrices")
  end.
End math_ops.

Section special.
Context {F : Type} {SP : Special F}.
Definition log_ (a : ndarray F) : ndarray F := tmap log a.
Definition exp_ (a : ndarray F) : ndarray F := tmap exp a.
Definition lgamma_ (a : ndarray F) : ndarray F := tmap lgamma a.
End special.

Section cast.
Context {F : Type} {CH : Checks F}.

(** Modelled from the spec: [math_ops.cast(x, dtype=int32)]: a float is
    truncated toward zero; what does not fit an int32 becomes the smallest
    int32. *)
Definition cast_int32 (a : ndarray F) : ndarray Z :=
  tmap (fun x => int32_cast (trunc x)) a.

Definition to_int64 (a : ndarray F) : ndarray Z := tmap trunc a.
Definition to_float (a : ndarray Z) : ndarray F := tmap of_int a.
End cast.

(** [n * n_draws] for a Python integer [n] and an int32 tensor. *)
Definition int_multiply (n : nat) (a : ndarray Z) : ndarray Z :=
  tmap (fun z => int32_wrap (Z.of_nat n * z)) a.
End math_ops.

Module check_ops.
Section check_ops.
Context {F : Type} {CH : Checks F}.

(** Modelled from the spec: ValidationAsserts [assert_non_negative]. *)
Definition assert_non_negative (x : ndarray F) (message : string) : ev unit :=
  if forallb nonneg (values x) then Val tt
  else Fail (InvalidArgumentError message).

(** Modelled from the spec: ValidationAsserts [assert_equal], elementwise
    with broadcasting. *)
Definition assert_equal (x y : ndarray F) (message : string) : ev unit :=
  c <- broadcast_op equal x y ;;
  if forallb (fun b : bool => b) (values c) then Val tt
  else Fail (InvalidArgumentError message).

(** Modelled from the spec: closeness within the normalizer's tolerance. *)
Definition assert_close (x y : ndarray F) (message : string) : ev unit :=
  c <- broadcast_op close x y ;;
  if forallb (fun b : bool => b) (values c) then Val tt
  else Fail (InvalidArgumentError message).
End check_ops.

(** Modelled from the spec: the rank assertion of [check_ops.assert_rank]. *)
Definition assert_rank {A} (x : ndarray A) (rank : nat) (message : string)
  : ev unit :=
  if length (shape x) =? rank then Val tt
  else Fail (InvalidArgumentError message).
End check_ops.

Module control_flow_ops.
(** Modelled from the spec: guarded-dependency execution: the value is
    used only after each of its guards succeeded. *)
Fixpoint with_dependencies {A} (dependencies : list (ev unit)) (x : ev A)
  : ev A :=
  match dependencies with
  | [] => x
  | d :: ds => _ <- d ;; with_dependencies ds x
  end.
End control_flow_ops.

(** The engine's random source: the class drawn for element [j] of batch
    row [b] of the random stream [stream], given the row of logits, and the
    stream a seeded call reads, which the engine derives from its own state
    and the seed. *)
Class RandomOps (F : Type) : Type := {
  categorical : Z -> nat -> nat -> list F -> Z;
  seeded : Z -> Z -> Z
}.

Module random_ops.
Section random_ops.
Context {F : Type} {RO : RandomOps F}.

(** Modelled from the spec: [sample_categorical(logits, num_samples, seed)]:
    for each row of [logits] it draws [num_samples] class indices; with a
    seed the random stream is the one the engine derives from its state
    [entropy] and the seed (the spec leaves the seed to the engine), without
    one it is taken from the engine's entropy. *)
Definition multinomial (entropy : Z) (logits : ndarray F)
    (num_samples : ndarray Z) (seed : option Z) : ev (ndarray Z) :=
  match shape logits with
  | [b; k] =>
      match shape num_samples, values num_samples with
      | [], [m] =>
          if (m <? 0)%Z then
            Fail (InvalidArgumentError "num_samples should be nonnegative")
          else if k =? 0 then
            Fail (InvalidArgumentError "num_classes should be positive")
          else
            let stream :=
              match seed with Some s => seeded entropy s | None => entropy end in
            let rows := chunks k b (values logits) in
            Val (mk_ndarray [b; Z.to_nat m]
                   (concat (map (fun ir =>
                              map (fun j => categorical stream (fst ir) j (snd ir))
                                  (seq 0 (Z.to_nat m)))
                           (combine (seq 0 b) rows))))
      | _, _ => Fail (InvalidArgumentError "num_samples should be a scalar")
      end
  | _ => Fail (InvalidArgumentError "logits should be a matrix")
  end.
End random_ops.
End random_ops.

Module nn.
Section nn.
Context {F : Type} {AR : Arith F} {SP : Special F}.

Definition softmax_row (row : list F) : list F :=
  let e := map exp row in
  map (fun x => div x (math_ops.sum e)) e.

(** Modelled from the spec: [softmax] along the last axis. *)
Definition softmax (logits : ndarray F) : ev (ndarray F) :=
  match rev (shape logits) with
  | k :: rbatch =>
      Val (mk_ndarray (shape logits)
             (concat (map softmax_row
                          (chunks k (numel (rev rbatch)) (values logits)))))
  | [] => Fail (InvalidArgumentError "softmax expects a tensor of rank at least 1")
  end.
End nn.
End nn.

Module distribution_util.
Section distribution_util.
Context {F : Type} {AR : Arith F} {CH : Checks F} {SP : Special F}.

(** Modelled from the spec: ValidationAsserts [assert_integral]: a value is
    integral when converting it to an integer and back gives it again. *)
Definition assert_integer_form (x : ndarray F) (message : string) : ev unit :=
  check_ops.assert_equal x (math_ops.to_float (math_ops.to_int64 x)) message.

(** Modelled from the spec: section 4.4, [counts] must be element-wise
    non-negative integers. *)
Definition embed_check_nonnegative_discrete (x : ndarray F)
    (check_integer : bool) : ev (ndarray F) :=
  control_flow_ops.with_dependencies
    (check_ops.assert_non_negative x "x must be non-negative."
     :: (if check_integer
         then [assert_integer_form x "x cannot contain fractional components."]
         else []))
    (Val x).

(** Modelled from the spec: section 4.4,
    [log_multinomial_coefficient(N, [n_0..n_{k-1}]) = log(N!) - sum_j log(n_j!)]
    with [log(x!) = lgamma(x+1)]. *)
Definition log_combinations (n counts : ndarray F) : ev (ndarray F) :=
  let total_permutations := math_ops.lgamma_ (math_ops.add_one n) in
  let counts_factorial := math_ops.lgamma_ (math_ops.add_one counts) in
  redundant_permutations <- math_ops.reduce_sum counts_factorial (-1) ;;
  math_ops.subtract total_permutations redundant_permutations.

(** Modelled from the spec: section 4.1, with [validate_args] each entry of
    [probs] is non-negative and each row sums to 1 within tolerance. *)
Definition validate_probs (p : ndarray F) : ev (ndarray F) :=
  control_flow_ops.with_dependencies
    [check_ops.assert_non_negative p "probs must be non-negative.";
     (s <- math_ops.reduce_sum p (-1) ;;
      check_ops.assert_close s (scalar one) "probs does not sum to 1.")]
    (Val p).

(** Modelled from the spec: section 4.1 and the ParameterNormalizer
    [logits_and_probs_from] with [multidimensional=True]: exactly one of
    [logits] and [probs] is given; from [logits], [probs = softmax(logits)]
    along the last axis; from [probs], [logits = log(probs)]. *)
Definition get_logits_and_probs (logits probs : option (ndarray F))
    (validate_args : bool)
  : py (ev (ndarray F) * ev (ndarray F)) :=
  match logits, probs with
  | Some _, Some _ | None, None => Raise ConfigurationError
  | Some l, None => Return (Val l, nn.softmax l)
  | None, Some p =>
      let p' := if validate_args then validate_probs p else Val p in
      Return (ev_map math_ops.log_ p', p')
  end.
End distribution_util.
End distribution_util.

(** ** multinomial.py *)

Module Multinomial.
Section Multinomial.
Context {F : Type} {AR : Arith F} {CH : Checks F} {SP : Special F} {RO : RandomOps F}.

Record t : Type := mk {
  _total_count : Tensor F;
  _logits : ev (ndarray F);
  _probs : ev (ndarray F);
  _mean_val : ev (ndarray F);
  validate_args : bool;
  allow_nan_stats : bool;
  name : string
}.

Definition _maybe_assert_valid_total_count (total_count : Tensor F)
    (validate_args : bool) : Tensor F :=
  if negb validate_args then total_count
  else
    mk_Tensor (static_ndims total_count)
      (x <- eval total_count ;;
       control_flow_ops.with_dependencies
         [check_ops.assert_non_negative x "total_count must be non-negative.";
          distribution_util.assert_integer_form x
            "total_count cannot contain fractional values."]
         (Val x)).

(** The shapes of [total_count] and [probs] meet in [_mean_val], when it is
    evaluated. *)
Definition __init__ (total_count : Tensor F) (logits probs : option (ndarray F))
    (validate_args allow_nan_stats : bool) (name : string) : py t :=
  let total_count' := _maybe_assert_valid_total_count total_count validate_args in
  py_bind (distribution_util.get_logits_and_probs logits probs validate_args)
    (fun lp =>
       Return
         (mk total_count' (fst lp) (snd lp)
             (n <- eval total_count' ;;
              p <- snd lp ;;
              math_ops.multiply (array_ops.newaxis n) p)
             validate_args allow_nan_stats name)).

Definition total_count (self : t) : Tensor F := _total_count self.
Definition logits (self : t) : ev (ndarray F) := _logits self.
Definition probs (self : t) : ev (ndarray F) := _probs self.

Definition _batch_shape_tensor (self : t) : ev (list nat) :=
  m <- _mean_val self ;; Val (removelast (array_ops.shape_ m)).

Definition _event_shape_tensor (self : t) : ev (list nat) :=
  m <- _mean_val self ;; Val (last_dim (array_ops.shape_ m)).

(** [event_shape_tensor()[0]]. *)
Definition first_entry (s : list nat) : ev nat :=
  match s with
  | k :: _ => Val k
  | [] => Fail (InvalidArgumentError "slice index 0 of dimension 0 out of bounds")
  end.

(** The counts are read at the element type of the distribution; in the
    code they are sums of [one_hot] encodings, of type float32 whatever the
    type of the distribution. *)
Definition _sample_n (entropy : Z) (self : t) (n : nat) (seed : option Z)
  : py (ev (ndarray F)) :=
  let n_draws := ev_map math_ops.cast_int32 (eval (total_count self)) in
  py_bind
    (match static_ndims (total_count self) with
     | Some ndims =>
         if negb (ndims =? 0) then
           Raise (NotImplementedError
                    "Sample only supported for scalar number of draws.")
         else Return n_draws
     | None =>
         if validate_args self then
           Return (nd <- n_draws ;;
                   let is_scalar :=
                     check_ops.assert_rank nd 0
                       "Sample only supported for scalar number of draws." in
                   control_flow_ops.with_dependencies [is_scalar] (Val nd))
         else Return n_draws
     end)
    (fun n_draws =>
       Return
         (nd <- n_draws ;;
          es <- _event_shape_tensor self ;;
          k <- first_entry es ;;
          lg <- logits self ;;
          lg <- array_ops.reshape lg [(-1)%Z; Z.of_nat k] ;;
          draws <- random_ops.multinomial entropy lg (math_ops.int_multiply n nd) seed ;;
          sh <- array_ops.pack [scalar (-1)%Z; scalar (Z.of_nat n); nd] ;;
          draws <- array_ops.reshape draws sh ;;
          x <- math_ops.reduce_sum (array_ops.one_hot draws k) (-2) ;;
          x <- array_ops.transpose_102 x ;;
          bs <- _batch_shape_tensor self ;;
          let final_shape := [n] ++ bs ++ [k] in
          array_ops.reshape x (map Z.of_nat final_shape))).

Definition _maybe_assert_valid_sample (self : t) (counts : ndarray F)
  : ev (ndarray F) :=
  if negb (validate_args self) then Val counts
  else
    counts <- distribution_util.embed_check_nonnegative_discrete counts true ;;
    control_flow_ops.with_dependencies
      [(n <- eval (total_count self) ;;
        s <- math_ops.reduce_sum counts (-1) ;;
        check_ops.assert_equal n s "counts must sum to `self.total_count`")]
      (Val counts).

Definition _log_unnormalized_prob (self : t) (counts : ndarray F)
  : ev (ndarray F) :=
  counts <- _maybe_assert_valid_sample self counts ;;
  p <- probs self ;;
  x <- math_ops.multiply counts (math_ops.log_ p) ;;
  math_ops.reduce_sum x (-1).

Definition _log_normalization (self : t) (counts : ndarray F)
  : ev (ndarray F) :=
  counts <- _maybe_assert_valid_sample self counts ;;
  n <- eval (total_count self) ;;
  c <- distribution_util.log_combinations n counts ;;
  Val (math_ops.negative c).

Definition _log_prob (self : t) (counts : ndarray F) : ev (ndarray F) :=
  u <- _log_unnormalized_prob self counts ;;
  z <- _log_normalization self counts ;;
  math_ops.subtract u z.

Definition _prob (self : t) (counts : ndarray F) : ev (ndarray F) :=
  ev_map math_ops.exp_ (_log_prob self counts).

Definition _mean (self : t) : ev (ndarray F) :=
  ev_map array_ops.identity (_mean_val self).

(** [self.probs * array_ops.ones_like(self.total_count)[..., newaxis]]. *)
Definition probs_broadcast (self : t) : ev (ndarray F) :=
  p <- probs self ;;
  n <- eval (total_count self) ;;
  math_ops.multiply p (array_ops.newaxis (array_ops.ones_like n)).

Definition _variance (self : t) : ev (ndarray F) :=
  p <- probs_broadcast self ;;
  m <- _mean_val self ;;
  mp <- math_ops.multiply m p ;;
  math_ops.subtract m mp.

Definition _covariance (self : t) : ev (ndarray F) :=
  p <- probs_broadcast self ;;
  m <- _mean_val self ;;
  outer <- math_ops.matmul (array_ops.newaxis m) (array_ops.newaxis_before_last p) ;;
  v <- _variance self ;;
  array_ops.matrix_set_diag (math_ops.negative outer) v.
End Multinomial.
Arguments t : clear implicits.
End Multinomial.

(** ** execute.py

    The helpers that bring the arguments of an eager op to tensors of
    matching types.  Python values are of a type [V]; what the engine does
    with them (telling a tensor from another value, reading its dtype,
    converting a value) is an interface, [Eager]. *)

Module execute.

Inductive outcome (X A : Type) : Type :=
| Ok (a : A)
| Raised (x : X).
Arguments Ok {X A} a.
Arguments Raised {X A} x.

Definition outcome_bind {X A B} (m : outcome X A) (f : A -> outcome X B)
  : outcome X B :=
  match m with
  | Ok a => f a
  | Raised x => Raised x
  end.

Declare Scope outcome_scope.
Delimit Scope outcome_scope with outcome.
Notation "x <- m ;; k" := (outcome_bind m (fun x => k))
  (at level 61, m at next level, right associativity) : outcome_scope.

(** What [args_to_mixed_eager_tensors] raises: its assertion, its
    ValueError (with the two lengths and the two lists its message shows),
    the IndexError of a subscript out of range and, in [Other], whatever
    the conversion of a value raises. *)
Inductive raised (V E : Type) : Type :=
| AssertionError
| ValueError (n0 n : nat) (l0 l : list V)
| IndexError
| Other (e : E).
Arguments AssertionError {V E}.
Arguments ValueError {V E} n0 n l0 l.
Arguments IndexError {V E}.
Arguments Other {V E} e.

Class Eager (V D E : Type) : Type := {
  (** [isinstance(ag_core.getval(t), tensor.Tensor)] *)
  is_tensor : V -> bool;
  (** [t.dtype], read on tensors only *)
  dtype_attr : V -> D;
  (** [ops.convert_to_tensor(t, dtype)] *)
  convert_to_tensor : V -> option D -> outcome E V;
  (** [tensor.Tensor(t)] *)
  new_tensor : V -> outcome E V
}.

Section execute.
Context {V D E : Type} {EG : Eager V D E}.
Local Open Scope outcome_scope.

(** [for t in l: if isinstance(ag_core.getval(t), tensor.Tensor): ...; break] *)
Fixpoint first_tensor_dtype (l : list V) : option D :=
  match l with
  | [] => None
  | t :: l' => if is_tensor t then Some (dtype_attr t) else first_tensor_dtype l'
  end.

(** [[ops.convert_to_tensor(t, dtype) for t in l]] *)
Fixpoint convert_each (l : list V) (dtype : option D) : outcome E (list V) :=
  match l with
  | [] => Ok []
  | t :: l' =>
      x <- convert_to_tensor t dtype ;;
      r <- convert_each l' dtype ;;
      Ok (x :: r)
  end.

(** The loop that infers the dtype from the first converted value. *)
Fixpoint convert_inferring (l : list V) (dtype : option D) (ret : list V)
  : outcome E (option D * list V) :=
  match l with
  | [] => Ok (dtype, ret)
  | t :: l' =>
      x <- convert_to_tensor t dtype ;;
      let ret := ret ++ [x] in
      convert_inferring l'
        (match dtype with
         | None => Some (dtype_attr (last ret x))
         | Some _ => dtype
         end)
        ret
  end.

Definition args_to_matching_eager (l : list V) (default_dtype : option D)
  : outcome E (option D * list V) :=
  let dtype := first_tensor_dtype l in
  let dtype := match dtype with None => default_dtype | Some _ => dtype end in
  match dtype with
  | None => convert_inferring l dtype []
  | Some _ => ret <- convert_each l dtype ;; Ok (dtype, ret)
  end.

Fixpoint convert_to_mixed_values (values : list V) : outcome E (list V) :=
  match values with
  | [] => Ok []
  | t :: values' =>
      x <- (if is_tensor t then Ok t else new_tensor t) ;;
      r <- convert_to_mixed_values values' ;;
      Ok (x :: r)
  end.

Definition convert_to_mixed_eager_tensors (values : list V)
  : outcome E (list D * list V) :=
  v <- convert_to_mixed_values values ;;
  Ok (map dtype_attr v, v).

(** The first loop: every list has the length of [lists[0]], and
    [lists_ret] gets an empty list for each list after the first. *)
Fixpoint check_lengths (l0 : list V) (rest : list (list V))
    (lists_ret : list (list V)) : outcome (raised V E) (list (list V)) :=
  match rest with
  | [] => Ok lists_ret
  | l :: rest' =>
      if negb (length l =? length l0)
      then Raised (ValueError (length l0) (length l) l0 l)
      else check_lengths l0 rest' (lists_ret ++ [[]])
  end.

(** [for l in lists: if isinstance(ag_core.getval(l[i]), tensor.Tensor): ...] *)
Fixpoint find_dtype (lists : list (list V)) (i : nat)
  : outcome (raised V E) (option D) :=
  match lists with
  | [] => Ok None
  | l :: lists' =>
      match nth_error l i with
      | None => Raised IndexError
      | Some v =>
          if is_tensor v then Ok (Some (dtype_attr v)) else find_dtype lists' i
      end
  end.

Definition set_item {A} (l : list A) (j : nat) (x : A) : list A :=
  firstn j l ++ x :: skipn (S j) l.

(** [lists_ret[j].append(ops.convert_to_tensor(lists[j][i], dtype=dtype))]:
    [lists_ret[j]] is looked up before the argument is evaluated. *)
Definition append_converted (lists : list (list V)) (i j : nat)
    (dtype : option D) (lists_ret : list (list V))
  : outcome (raised V E) (list (list V)) :=
  match nth_error lists_ret j with
  | None => Raised IndexError
  | Some r =>
      match nth_error lists j with
      | None => Raised IndexError
      | Some l =>
          match nth_error l i with
          | None => Raised IndexError
          | Some v =>
              match convert_to_tensor v dtype with
              | Raised e => Raised (Other e)
              | Ok x => Ok (set_item lists_ret j (r ++ [x]))
              end
          end
      end
  end.

(** [for j in range(...): lists_ret[j].append(...)] *)
Fixpoint append_range (lists : list (list V)) (i : nat) (js : list nat)
    (dtype : option D) (lists_ret : list (list V))
  : outcome (raised V E) (list (list V)) :=
  match js with
  | [] => Ok lists_ret
  | j :: js' =>
      lists_ret <- append_converted lists i j dtype lists_ret ;;
      append_range lists i js' dtype lists_ret
  end.

(** The body of the loop over [i]. *)
Definition convert_column (lists : list (list V)) (i : nat)
    (types : list D) (lists_ret : list (list V))
  : outcome (raised V E) (list D * list (list V)) :=
  dtype <- find_dtype lists i ;;
  match dtype with
  | None =>
      lists_ret <- append_converted lists i 0 None lists_ret ;;
      match nth_error lists_ret 0 with
      | None => Raised IndexError
      | Some r0 =>
          match nth_error r0 i with
          | None => Raised IndexError
          | Some x =>
              let dtype := dtype_attr x in
              lists_ret <- append_range lists i (seq 1 (length lists - 1))
                             (Some dtype) lists_ret ;;
              Ok (types ++ [dtype], lists_ret)
          end
      end
  | Some dtype =>
      lists_ret <- append_range lists i (seq 0 (length lists))
                     (Some dtype) lists_ret ;;
      Ok (types ++ [dtype], lists_ret)
  end.

Fixpoint convert_columns (lists : list (list V)) (indices : list nat)
    (types : list D) (lists_ret : list (list V))
  : outcome (raised V E) (list D * list (list V)) :=
  match indices with
  | [] => Ok (types, lists_ret)
  | i :: indices' =>
      st <- convert_column lists i types lists_ret ;;
      convert_columns lists indices' (fst st) (snd st)
  end.

Definition args_to_mixed_eager_tensors (lists : list (list V))
  : outcome (raised V E) (list D * list (list V)) :=
  if negb (1 <? length lists) then Raised AssertionError
  else
    match lists with
    | [] => Raised IndexError
    | l0 :: rest =>
        lists_ret <- check_lengths l0 rest [] ;;
        convert_columns lists (seq 0 (length l0)) [] lists_ret
    end.

End execute.
End execute.

(** ** Element types the code is read at *)

(** *** binary64 floats *)

#[export] Instance float_arith : Arith float := {
  zero := 0%float;
  one := 1%float;
  add := PrimFloat.add;
  sub := PrimFloat.sub;
  mul := PrimFloat.mul;
  div := PrimFloat.div;
  neg := PrimFloat.opp
}.

(** *** Rationals: exact arithmetic that computes *)

#[export] Instance Q_arith : Arith Q := {
  zero := 0%Q;
  one := 1%Q;
  add := Qplus;
  sub := Qminus;
  mul := Qmult;
  div := Qdiv;
  neg := Qopp
}.

#[export] Instance Q_checks : Checks Q := {
  nonneg := fun x => Qle_bool 0 x;
  equal := Qeq_bool;
  close := fun x y => Qle_bool (Qabs (x - y)) (1 # 1000000);
  trunc := fun x => Z.quot (Qnum x) (Zpos (Qden x));
  of_int := inject_Z
}.

(** A random source to run the sampler with: it walks through the classes,
    and a seeded call reads the stream of its seed. *)
#[export] Instance Q_random : RandomOps Q := {
  categorical := fun stream b j row =>
    ((stream + Z.of_nat b + Z.of_nat j) mod Z.of_nat (length row))%Z;
  seeded := fun _ s => s
}.

(** *** Reals with the IEEE special values: exact arithmetic on the finite
    values, infinities and NaN as in IEEE 754 (rounding, overflow and the
    sign of zero are left out) *)

Inductive xreal : Type :=
| Fin (r : R)
| PInf
| NInf
| NaN.

Definition xneg (x : xreal) : xreal :=
  match x with
  | Fin r => Fin (- r)%R
  | PInf => NInf
  | NInf => PInf
  | NaN => NaN
  end.

Definition xadd (x y : xreal) : xreal :=
  match x, y with
  | NaN, _ | _, NaN => NaN
  | Fin a, Fin b => Fin (a + b)%R
  | PInf, NInf | NInf, PInf => NaN
  | PInf, _ | _, PInf => PInf
  | NInf, _ | _, NInf => NInf
  end.

Definition xsub (x y : xreal) : xreal := xadd x (xneg y).

(** An infinity times a finite value. *)
Definition inf_times (positive : bool) (r : R) : xreal :=
  if Req_dec_T r 0 then NaN
  else if Rlt_dec 0 r then (if positive then PInf else NInf)
  else (if positive then NInf else PInf).

Definition xmul (x y : xreal) : xreal :=
  match x, y with
  | NaN, _ | _, NaN => NaN
  | Fin a, Fin b => Fin (a * b)%R
  | PInf, Fin r | Fin r, PInf => inf_times true r
  | NInf, Fin r | Fin r, NInf => inf_times false r
  | PInf, PInf | NInf, NInf => PInf
  | PInf, NInf | NInf, PInf => NInf
  end.

Definition xdiv (x y : xreal) : xreal :=
  match x, y with
  | NaN, _ | _, NaN => NaN
  | Fin a, Fin b =>
      if Req_dec_T b 0 then
        (if Req_dec_T a 0 then NaN else if Rlt_dec 0 a then PInf else NInf)
      else Fin (a / b)%R
  | Fin _, _ => Fin 0%R
  | PInf, Fin b => if Rle_dec 0 b then PInf else NInf
  | NInf, Fin b => if Rle_dec 0 b then NInf else PInf
  | _, _ => NaN
  end.

Definition xlog (x : xreal) : xreal :=
  match x with
  | Fin r =>
      if Rlt_dec 0 r then Fin (ln r)
      else if Req_dec_T r 0 then NInf else NaN
  | PInf => PInf
  | NInf | NaN => NaN
  end.

Definition xexp (x : xreal) : xreal :=
  match x with
  | Fin r => Fin (Rtrigo_def.exp r)
  | PInf => PInf
  | NInf => Fin 0%R
  | NaN => NaN
  end.

(** The log-gamma function of the engine is a parameter [lgammaR] on the
    positive reals; it has poles at zero and the negative integers. *)
Definition xlgamma (lgammaR : R -> R) (x : xreal) : xreal :=
  match x with
  | Fin r =>
      if Rlt_dec 0 r then Fin (lgammaR r)
      else if Req_dec_T r (IZR (Int_part r)) then PInf
      else Fin (lgammaR r)
  | PInf | NInf => PInf
  | NaN => NaN
  end.

Definition xtrunc (x : xreal) : Z :=
  match x with
  | Fin r => if Rle_dec 0 r then Int_part r else (- Int_part (- r))%Z
  | _ => 0%Z
  end.

#[export] Instance xreal_arith : Arith xreal := {
  zero := Fin 0%R;
  one := Fin 1%R;
  add := xadd;
  sub := xsub;
  mul := xmul;
  div := xdiv;
  neg := xneg
}.

#[export] Instance xreal_checks : Checks xreal := {
  nonneg := fun x =>
    match x with
    | Fin r => if Rle_dec 0 r then true else false
    | PInf => true
    | _ => false
    end;
  equal := fun x y =>
    match x, y with
    | Fin a, Fin b => if Req_dec_T a b then true else false
    | PInf, PInf | NInf, NInf => true
    | _, _ => false
    end;
  close := fun x y =>
    match x, y with
    | Fin a, Fin b =>
        if Rle_dec (Rabs (a - b)) (/ 1000000)%R then true else false
    | _, _ => false
    end;
  trunc := xtrunc;
  of_int := fun z => Fin (IZR z)
}.

Definition xreal_special (lgammaR : R -> R) : Special xreal := {|
  log := xlog;
  exp := xexp;
  lgamma := xlgamma lgammaR
|}.

(** A log-gamma that is right at the positive integers, to have a closed
    instance: [lgamma (n + 1) = ln (n!)]. *)
Definition lgamma_step (r : R) : R :=
  ln (INR (fact (Z.to_nat (Int_part r - 1)))).

(** ** Laws of exact arithmetic *)

Class ExactArith (F : Type) {AR : Arith F} {CH : Checks F} : Prop := {
  add_comm : forall x y : F, add x y = add y x;
  add_assoc : forall x y z : F, add (add x y) z = add x (add y z);
  add_zero_l : forall x : F, add zero x = x;
  mul_comm : forall x y : F, mul x y = mul y x;
  mul_assoc : forall x y z : F, mul (mul x y) z = mul x (mul y z);
  mul_one_r : forall x : F, mul x one = x;
  of_int_zero : of_int 0%Z = zero;
  of_int_succ : forall z : Z, of_int (z + 1)%Z = add (of_int z) one
}.

(** * Vocabulary of the statements *)

(** The cached mean is the one [__init__] computes. *)
Definition mean_cached {F : Type} {AR : Arith F} (d : Multinomial.t F) : Prop :=
  Multinomial._mean_val d =
  (n <- eval (Multinomial.total_count d) ;;
   p <- Multinomial.probs d ;;
   math_ops.multiply (array_ops.newaxis n) p).

Unset Implicit Arguments.

Section Vocabulary.
Context {F : Type} {AR : Arith F} {CH : Checks F} {SP : Special F} {RO : RandomOps F}.

(** ** Density *)

(** The log-density of one count vector under one distribution. *)
Definition log_prob_value (n : F) (ps cs : list F) : F :=
  sub (math_ops.sum (map2 mul cs (map log ps)))
      (neg (sub (lgamma (add n one))
                (math_ops.sum (map lgamma (map (fun x => add x one) cs))))).

(** What [_maybe_assert_valid_sample] rejects: an entry that is negative,
    an entry that is not integral, or sums over the last axis that differ
    from [total_count]. *)
Definition has_negative (counts : ndarray F) : Prop :=
  exists x, In x (values counts) /\ nonneg x = false.

(** An entry that differs from its integer part. *)
Definition has_fractional (counts : ndarray F) : Prop :=
  exists x, In x (values counts) /\ equal x (of_int (trunc x)) = false.

(** Some sum over the last axis differs from the [total_count] it is
    compared with. *)
Definition sum_mismatch (n counts : ndarray F) : Prop :=
  exists s c,
    math_ops.reduce_sum counts (-1) = Val s
    /\ broadcast_op equal n s = Val c
    /\ In false (values c).

(** ** Sampling *)

(** The sampler returns a class index of the row it is given. *)
Definition categorical_in_range : Prop :=
  forall (stream : Z) (b j : nat) (row : list F),
    row <> [] ->
    (0 <= categorical stream b j row < Z.of_nat (length row))%Z.

(** The [m] class indices drawn for each row of logits, row by row. *)
Definition draws_of (stream : Z) (rows : list (list F)) (m : nat) : list Z :=
  concat (map (fun ir => map (fun j => categorical stream (fst ir) j (snd ir))
                             (seq 0 m))
              (combine (seq 0 (length rows)) rows)).

(** How often each of the [k] classes occurs in a run of draws. *)
Definition count_vector (k : nat) (run : list Z) : list F :=
  math_ops.sum_columns k (map (array_ops.one_hot_row k) run).

(** The values [_sample_n] returns: the count vectors of the [b * n] runs
    of [nd] draws, the sample index moved in front of the batch index. *)
Definition sample_values (stream : Z) (L : list F) (b k n nd : nat) : list F :=
  let draws := draws_of stream (chunks k b L) (n * nd) in
  let v := map (count_vector k) (chunks nd (b * n) draws) in
  concat (concat (array_ops.transpose_lists n (chunks n b v))).

(** The random stream a call reads. *)
Definition stream_of (entropy : Z) (seed : option Z) : Z :=
  match seed with Some s => seeded entropy s | None => entropy end.

(** The same distribution, were the rank of [total_count] known to be 0. *)
Definition with_scalar_rank (d : Multinomial.t F) : Multinomial.t F :=
  Multinomial.mk
    (mk_Tensor (Some 0) (eval (Multinomial._total_count d)))
    (Multinomial._logits d) (Multinomial._probs d) (Multinomial._mean_val d)
    (Multinomial.validate_args d) (Multinomial.allow_nan_stats d)
    (Multinomial.name d).

(** The same distribution with [validate_args] switched off. *)
Definition without_validation (d : Multinomial.t F) : Multinomial.t F :=
  Multinomial.mk
    (Multinomial._total_count d) (Multinomial._logits d)
    (Multinomial._probs d) (Multinomial._mean_val d)
    false (Multinomial.allow_nan_stats d) (Multinomial.name d).

(** ** Moments *)

(** The values of the covariance of each batch member: the negated outer
    product of its mean with its probabilities, the diagonal overwritten
    with its variance. *)
Definition covariance_block (k : nat) (m p v : list F) : list F :=
  concat (map (fun ir => array_ops.set_diag_row (fst ir) (snd ir) v)
              (combine (seq 0 k)
                 (chunks k k
                    (map neg (concat (map (fun x => map (fun y => mul x y) p) m)))))).

(** An axis of the source agrees with the target or has size 1. *)
Definition broadcastable (src tgt : list nat) : Prop :=
  Forall2 (fun s t => s = t \/ s = 1) src tgt.

(** The trial count of each batch member, once [total_count] is broadcast
    to the batch shape. *)
Definition batch_counts (n : ndarray F) (bs : list nat) : list F :=
  broadcast_values (pad_shape (length bs) (shape n)) bs (values n).

(** Each entry repeated [k] times: a trailing axis of size 1 broadcast
    to size [k]. *)
Definition expand (k : nat) (X : list F) : list F :=
  flat_map (fun x => repeat x k) X.

End Vocabulary.

(** ** Element types and distributions used as examples *)

#[export] Instance xreal_random : RandomOps xreal := {
  categorical := fun stream b j row =>
    ((stream + Z.of_nat b + Z.of_nat j) mod Z.of_nat (length row))%Z;
  seeded := fun _ s => s
}.

#[export] Instance xreal_special_step : Special xreal :=
  xreal_special lgamma_step.

(** A two-class distribution with logits [0, 0], probabilities
    [1/2, 1/2] and a scalar [total_count] of statically known rank. *)
Definition Q_coin (total_count : Q) : Multinomial.t Q :=
  Multinomial.mk
    (mk_Tensor (Some 0) (Val (scalar total_count)))
    (Val (vector [0; 0]%Q))
    (Val (vector [1 # 2; 1 # 2]%Q))
    (math_ops.multiply (array_ops.newaxis (scalar total_count))
                       (vector [1 # 2; 1 # 2]%Q))
    false true "Multinomial".

(** The same with a [total_count] of unknown static rank. *)
Definition Q_coin_unknown_rank (total_count : ndarray Q) (validate : bool)
  : Multinomial.t Q :=
  Multinomial.mk
    (mk_Tensor None (Val total_count))
    (Val (vector [0; 0]%Q))
    (Val (vector [1 # 2; 1 # 2]%Q))
    (math_ops.multiply (array_ops.newaxis total_count)
                       (vector [1 # 2; 1 # 2]%Q))
    validate true "Multinomial".

(** Two coins with their own [total_count], of statically known rank 1. *)
Definition Q_two_coins : Multinomial.t Q :=
  Multinomial.mk
    (mk_Tensor (Some 1) (Val (vector [4; 5]%Q)))
    (Val (vector [0; 0]%Q))
    (Val (vector [1 # 2; 1 # 2]%Q))
    (math_ops.multiply (array_ops.newaxis (vector [4; 5]%Q))
                       (vector [1 # 2; 1 # 2]%Q))
    false true "Multinomial".

(** A three-class distribution in binary64: [total_count = 3] and
    [probs = [0.1, 0.2, 0.7]]; [logits] holds the logarithms of [probs]
    as rounded to binary64. *)
Definition float_dist : Multinomial.t float :=
  Multinomial.mk
    (mk_Tensor (Some 0) (Val (scalar 3%float)))
    (Val (vector [-2.3025850929940455; -1.6094379124341003;
                  -0.35667494393873245]%float))
    (Val (vector [0.1; 0.2; 0.7]%float))
    (math_ops.multiply (array_ops.newaxis (scalar 3%float))
                       (vector [0.1; 0.2; 0.7]%float))
    false true "Multinomial".

(** What [__init__] builds from a scalar [total_count] and a vector of
    probabilities. *)
Definition xreal_dist (total_count : xreal) (ps : list xreal) (validate : bool)
  : Multinomial.t xreal :=
  Multinomial.mk
    (Multinomial._maybe_assert_valid_total_count
       (mk_Tensor (Some 0) (Val (scalar total_count))) validate)
    (ev_map (tmap xlog)
       (if validate then distribution_util.validate_probs (vector ps)
        else Val (vector ps)))
    (if validate then distribution_util.validate_probs (vector ps)
     else Val (vector ps))
    (n <- eval (Multinomial._maybe_assert_valid_total_count
                  (mk_Tensor (Some 0) (Val (scalar total_count))) validate) ;;
     p <- (if validate then distribution_util.validate_probs (vector ps)
           else Val (vector ps)) ;;
     math_ops.multiply (array_ops.newaxis n) p)
    validate true "Multinomial".

(** A small engine to run the helpers of [execute.py] with: Python
    numbers, and tensors of one of two dtypes that hold one number.  An
    integer converts to any dtype, a float to [float32] only, and a tensor
    keeps its dtype. *)
Inductive small_dtype : Type := int32 | float32.

Inductive small_value : Type :=
| PyInt (z : Z)
| PyFloat (q : Q)
| EagerTensor (dtype : small_dtype) (q : Q).

Definition small_dtype_eqb (a b : small_dtype) : bool :=
  match a, b with
  | int32, int32 | float32, float32 => true
  | _, _ => false
  end.

Definition small_convert (v : small_value) (dtype : option small_dtype)
  : execute.outcome string small_value :=
  match v with
  | PyInt z =>
      execute.Ok
        (EagerTensor (match dtype with Some d => d | None => int32 end)
                     (inject_Z z))
  | PyFloat q =>
      match dtype with
      | Some int32 => execute.Raised "TypeError"%string
      | _ => execute.Ok (EagerTensor float32 q)
      end
  | EagerTensor d q =>
      match dtype with
      | None => execute.Ok v
      | Some d' =>
          if small_dtype_eqb d d' then execute.Ok v
          else execute.Raised "ValueError"%string
      end
  end.

#[export] Instance small_eager : execute.Eager small_value small_dtype string := {
  execute.is_tensor := fun v =>
    match v with EagerTensor _ _ => true | _ => false end;
  execute.dtype_attr := fun v =>
    match v with
    | EagerTensor d _ => d
    | PyInt _ => int32
    | PyFloat _ => float32
    end;
  execute.convert_to_tensor := small_convert;
  execute.new_tensor := fun v => small_convert v None
}.

(** ** Sums over the count vectors *)

(** The sum of a list of reals. *)
Definition Rsum (l : list R) : R := fold_right Rplus 0%R l.

(** A valid row of probabilities: finite non-negative entries whose sum,
    as the engine computes it, is 1. *)
Definition valid_probs_row (r : list xreal) : Prop :=
  Forall (fun x => exists a : R, x = Fin a /\ (0 <= a)%R) r
  /\ math_ops.sum r = Fin 1.

(** The count vectors of length [k] that sum to [N]. *)
Fixpoint compositions (k N : nat) : list (list nat) :=
  match k with
  | O => if N =? 0 then [[]] else []
  | S k' =>
      flat_map (fun i => map (cons i) (compositions k' (N - i))) (seq 0 (S N))
  end.

(** [prod_j p_j ^ c_j / c_j!], the multinomial weight of [c] without its
    factor [N!]. *)
Fixpoint weight (ps : list R) (c : list nat) : R :=
  match ps, c with
  | p :: ps', n :: c' => (p ^ n / INR (fact n) * weight ps' c')%R
  | _, _ => 1%R
  end.

(** A vector of counts as a tensor. *)
Definition counts_tensor (c : list nat) : ndarray xreal :=
  vector (map (fun n => Fin (INR n)) c).

(** Entry [b] of a batch of numbers. *)
Definition batch_value (b : nat) (m : ev (ndarray xreal)) : xreal :=
  match m with
  | Val t => nth b (values t) NaN
  | Fail _ => NaN
  end.

(** For batch member [b], the sum of [prob(counts)] over all count vectors
    of length [k] that sum to [N]. *)
Definition total_probability (SP : Special xreal) (d : Multinomial.t xreal)
    (k N b : nat) : xreal :=
  math_ops.sum
    (map (fun c => batch_value b (Multinomial._prob d (counts_tensor c)))
         (compositions k N)).

(** A row of strictly positive probabilities whose sum, as the engine
    computes it, is 1. *)
Definition positive_probs_row (r : list xreal) : Prop :=
  Forall (fun x => exists a : R, x = Fin a /\ (0 < a)%R) r
  /\ math_ops.sum r = Fin 1.

(** What [__init__] builds, without [validate_args], from a scalar
    [total_count] and a batch of probabilities. *)
Definition xreal_batch_dist (total_count : xreal) (p : ndarray xreal)
  : Multinomial.t xreal :=
  Multinomial.mk
    (mk_Tensor (Some 0) (Val (scalar total_count)))
    (Val (tmap xlog p))
    (Val p)
    (math_ops.multiply (array_ops.newaxis (scalar total_count)) p)
    false true "Multinomial".

(** * Properties *)

(** ** Lists cut into pieces *)

Section Chunks.
Context {A : Type}.

Lemma chunks_length :
  forall (size count : nat) (l : list A), length (chunks size count l) = count.
Proof.
  intros size count. induction count as [|c IH]; intro l; simpl; auto.
Qed.

Lemma chunks_In_length :
  forall (size count : nat) (l x : list A),
    length l = count * size -> In x (chunks size count l) -> length x = size.
Proof.
  intros size count. induction count as [|c IH]; intros l x Hl Hx; simpl in *.
  - contradiction.
  - destruct Hx as [<-|Hx].
    + rewrite length_firstn. lia.
    + apply (IH (skipn size l)); [rewrite length_skipn; lia | exact Hx].
Qed.

Lemma concat_chunks :
  forall (size count : nat) (l : list A),
    length l = count * size -> concat (chunks size count l) = l.
Proof.
  intros size count. induction count as [|c IH]; intros l Hl; simpl in *.
  - destruct l; [reflexivity | discriminate].
  - rewrite IH by (rewrite length_skipn; lia). apply firstn_skipn.
Qed.

Lemma chunks_app :
  forall (size count : nat) (x l : list A),
    length x = size ->
    chunks size (S count) (x ++ l) = x :: chunks size count l.
Proof.
  intros size count x l Hx. simpl.
  rewrite firstn_app, skipn_app, Hx, Nat.sub_diag. simpl.
  rewrite <- Hx at 1. rewrite firstn_all, app_nil_r.
  rewrite <- Hx, skipn_all. reflexivity.
Qed.

Lemma chunks_concat :
  forall (size : nat) (ls : list (list A)),
    Forall (fun x => length x = size) ls ->
    chunks size (length ls) (concat ls) = ls.
Proof.
  intros size ls Hls. induction Hls as [|x ls Hx _ IH].
  - reflexivity.
  - cbn [concat length]. rewrite chunks_app by exact Hx. now rewrite IH.
Qed.

Lemma chunks_Forall_length :
  forall (size count : nat) (l : list A),
    length l = count * size ->
    Forall (fun x => length x = size) (chunks size count l).
Proof.
  intros size count l Hl. apply Forall_forall. intros x Hx.
  eapply chunks_In_length; eauto.
Qed.

Lemma length_concat_const :
  forall (size : nat) (ls : list (list A)),
    Forall (fun x => length x = size) ls ->
    length (concat ls) = length ls * size.
Proof.
  intros size ls Hls. induction Hls as [|x ls Hx _ IH]; simpl.
  - reflexivity.
  - rewrite length_app, IH, Hx. reflexivity.
Qed.

Lemma chunks_one :
  forall (z : A) (l : list A),
    map (fun row => nth 0 row z) (chunks 1 (length l) l) = l.
Proof.
  intros z l. induction l as [|x l IH]; simpl.
  - reflexivity.
  - now rewrite IH.
Qed.

Lemma map_id_on :
  forall (f : A -> A) (l : list A),
    (forall x, In x l -> f x = x) -> map f l = l.
Proof.
  intros f l Hf. induction l as [|x l IH]; simpl.
  - reflexivity.
  - rewrite Hf by now left. rewrite IH; [reflexivity|].
    intros y Hy. apply Hf. now right.
Qed.
End Chunks.

(** ** Broadcasting *)

Lemma broadcast_rev_same :
  forall s : list nat, broadcast_rev s s = Some s.
Proof.
  induction s as [|x s IH]; simpl.
  - reflexivity.
  - now rewrite IH, Nat.eqb_refl.
Qed.

Lemma broadcast_shapes_same :
  forall s : list nat, broadcast_shapes s s = Some s.
Proof.
  intro s. unfold broadcast_shapes.
  now rewrite broadcast_rev_same; simpl; rewrite rev_involutive.
Qed.

Lemma pad_shape_same :
  forall s : list nat, pad_shape (length s) s = s.
Proof.
  intro s. unfold pad_shape. now rewrite Nat.sub_diag.
Qed.

Lemma broadcast_values_same :
  forall (A : Type) (s : list nat) (v : list A),
    length v = numel s -> broadcast_values s s v = v.
Proof.
  intros A s. induction s as [|x s IH]; intros v Hv; simpl.
  - reflexivity.
  - rewrite Nat.eqb_refl. simpl in Hv.
    rewrite map_id_on.
    + apply concat_chunks. lia.
    + intros c Hc. apply IH. eapply chunks_In_length; [|exact Hc]. lia.
Qed.

Lemma broadcast_rev_length :
  forall a b r : list nat,
    broadcast_rev a b = Some r -> length r = Nat.max (length a) (length b).
Proof.
  induction a as [|x a IH]; intros b r Hr; simpl in Hr.
  - injection Hr as <-. reflexivity.
  - destruct b as [|y b].
    + injection Hr as <-. reflexivity.
    + destruct (broadcast_rev a b) as [r'|] eqn:E; [|discriminate].
      apply IH in E.
      destruct (x =? y); [|destruct (x =? 1); [|destruct (y =? 1)]];
        try discriminate; injection Hr as <-; simpl; now rewrite E.
Qed.

Lemma broadcast_shapes_length :
  forall a b s : list nat,
    broadcast_shapes a b = Some s -> length s = Nat.max (length a) (length b).
Proof.
  intros a b s Hs. unfold broadcast_shapes in Hs.
  destruct (broadcast_rev (rev a) (rev b)) as [r|] eqn:E; [|discriminate].
  injection Hs as <-. apply broadcast_rev_length in E.
  now rewrite length_rev, E, !length_rev.
Qed.

Lemma broadcast_op_shape :
  forall (A B C : Type) (f : A -> B -> C) (a : ndarray A) (b : ndarray B)
         (s : list nat),
    broadcast_shapes (shape a) (shape b) = Some s ->
    exists r, broadcast_op f a b = Val r /\ shape r = s.
Proof.
  intros A B C f a b s Hs. unfold broadcast_op. rewrite Hs.
  eexists. split; reflexivity.
Qed.

Lemma broadcast_op_same :
  forall (A B C : Type) (f : A -> B -> C) (a : ndarray A) (b : ndarray B),
    shape a = shape b -> well_formed a -> well_formed b ->
    broadcast_op f a b = Val (mk_ndarray (shape a) (map2 f (values a) (values b))).
Proof.
  intros A B C f a b Hs Ha Hb. unfold broadcast_op, broadcast_to.
  unfold well_formed in Hb. rewrite <- Hs in *.
  rewrite broadcast_shapes_same, pad_shape_same.
  rewrite !broadcast_values_same by assumption.
  reflexivity.
Qed.

(** ** Well-formed tensors *)

Lemma vector_well_formed :
  forall (A : Type) (l : list A), well_formed (vector l).
Proof. intros A l. unfold well_formed. simpl. lia. Qed.

Lemma scalar_well_formed :
  forall (A : Type) (x : A), well_formed (scalar x).
Proof. intros A x. reflexivity. Qed.

Lemma tmap_well_formed :
  forall (A B : Type) (f : A -> B) (t : ndarray A),
    well_formed t -> well_formed (tmap f t).
Proof.
  intros A B f t Ht. unfold well_formed in *. simpl. now rewrite length_map.
Qed.

(** ** Reductions *)

Lemma numel_app :
  forall a b : list nat, numel (a ++ b) = numel a * numel b.
Proof.
  induction a as [|x a IH]; intro b; simpl.
  - lia.
  - rewrite IH. lia.
Qed.

Lemma concat_map_singleton :
  forall (A B : Type) (f : A -> B) (l : list A),
    concat (map (fun x => [f x]) l) = map f l.
Proof.
  induction l as [|x l IH]; simpl; [reflexivity | now rewrite IH].
Qed.

Section Reductions.
Context {F : Type} {AR : Arith F}.

Lemma reduce_sum_last :
  forall (t : ndarray F) (pre : list nat) (m : nat),
    shape t = pre ++ [m] -> well_formed t ->
    math_ops.reduce_sum t (-1)
    = Val (mk_ndarray pre (map math_ops.sum (chunks m (numel pre) (values t)))).
Proof.
  intros t pre m Hs Hwf. unfold math_ops.reduce_sum, well_formed in *.
  rewrite Hs in *. rewrite length_app. simpl length.
  replace (Z.of_nat (length pre + 1) + -1)%Z with (Z.of_nat (length pre)) by lia.
  replace (-1 <? 0)%Z with true by reflexivity.
  replace ((Z.of_nat (length pre) <? 0)%Z
           || (Z.of_nat (length pre + 1) <=? Z.of_nat (length pre))%Z) with false
    by (symmetry; apply orb_false_iff; split;
        [apply Z.ltb_ge | apply Z.leb_gt]; lia).
  rewrite Nat2Z.id.
  rewrite firstn_app, Nat.sub_diag, firstn_all. simpl firstn.
  rewrite app_nth2 by lia. rewrite Nat.sub_diag. simpl nth.
  rewrite skipn_app, skipn_all2 by lia.
  replace (S (length pre) - length pre) with 1 by lia. simpl skipn.
  simpl numel. rewrite !app_nil_r, Nat.mul_1_r.
  f_equal. f_equal.
  rewrite numel_app in Hwf. simpl in Hwf. rewrite Nat.mul_1_r in Hwf.
  rewrite <- (concat_map_singleton _ _ math_ops.sum). f_equal.
  apply map_ext_in. intros block Hblock.
  apply chunks_In_length in Hblock; [|exact Hwf].
  unfold math_ops.sum_columns. simpl. f_equal.
  rewrite <- Hblock. now rewrite chunks_one.
Qed.

Lemma reduce_sum_shape :
  forall t : ndarray F,
    shape t <> [] ->
    exists r, math_ops.reduce_sum t (-1) = Val r
              /\ shape r = removelast (shape t).
Proof.
  intros t Hs. unfold math_ops.reduce_sum.
  destruct (exists_last Hs) as (pre & m & E). rewrite E.
  rewrite length_app. simpl length.
  replace (Z.of_nat (length pre + 1) + -1)%Z with (Z.of_nat (length pre)) by lia.
  replace (-1 <? 0)%Z with true by reflexivity.
  replace ((Z.of_nat (length pre) <? 0)%Z
           || (Z.of_nat (length pre + 1) <=? Z.of_nat (length pre))%Z) with false
    by (symmetry; apply orb_false_iff; split;
        [apply Z.ltb_ge | apply Z.leb_gt]; lia).
  rewrite Nat2Z.id, firstn_app, Nat.sub_diag, firstn_all. simpl firstn.
  rewrite skipn_app, skipn_all2 by lia.
  replace (S (length pre) - length pre) with 1 by lia. simpl skipn.
  eexists. split; [reflexivity|]. cbn [shape].
  now rewrite removelast_last, !app_nil_r.
Qed.

Lemma reduce_sum_vector :
  forall l : list F,
    math_ops.reduce_sum (vector l) (-1) = Val (scalar (math_ops.sum l)).
Proof.
  intro l. rewrite (reduce_sum_last (vector l) [] (length l)).
  - cbn [numel fold_right chunks vector values map].
    now rewrite firstn_all.
  - reflexivity.
  - unfold well_formed. simpl. lia.
Qed.
End Reductions.

(** ** Construction *)

Section Construction.
Context {F : Type} {AR : Arith F} {CH : Checks F} {SP : Special F}.

Lemma with_dependencies_val :
  forall (A : Type) (deps : list (ev unit)) (x y : A),
    control_flow_ops.with_dependencies deps (Val x) = Val y -> y = x.
Proof.
  induction deps as [|d deps IH]; simpl; intros x y Hxy.
  - congruence.
  - destruct d as [[]|e]; simpl in Hxy; [now apply IH | discriminate].
Qed.

Lemma validate_probs_val :
  forall p p' : ndarray F, distribution_util.validate_probs p = Val p' -> p' = p.
Proof.
  intros p p'. unfold distribution_util.validate_probs.
  apply with_dependencies_val.
Qed.

(** C3. Construction raises ConfigurationError exactly when both or neither
    of [logits] and [probs] are given.  With [logits] alone the
    distribution holds [logits] and [probs = softmax(logits)]; with [probs]
    alone it holds [probs] (guarded by its checks under [validate_args]) and
    [logits = log(probs)], and a guarded [probs] that evaluates is the
    [probs] given. *)
Theorem init_configuration_error :
  forall (tc : Tensor F) (logits probs : option (ndarray F))
         (va ans : bool) (name : string),
    (Multinomial.__init__ tc logits probs va ans name = Raise ConfigurationError
     <-> ((exists l p, logits = Some l /\ probs = Some p)
          \/ (logits = None /\ probs = None)))
    /\ (forall l, logits = Some l -> probs = None ->
        exists d, Multinomial.__init__ tc logits probs va ans name = Return d
                  /\ Multinomial.logits d = Val l
                  /\ Multinomial.probs d = nn.softmax l
                  /\ mean_cached d)
    /\ (forall p, logits = None -> probs = Some p ->
        exists d, Multinomial.__init__ tc logits probs va ans name = Return d
                  /\ Multinomial.probs d
                     = (if va then distribution_util.validate_probs p else Val p)
                  /\ Multinomial.logits d
                     = ev_map math_ops.log_ (Multinomial.probs d)
                  /\ (forall p', Multinomial.probs d = Val p' ->
                       p' = p /\ Multinomial.logits d = Val (math_ops.log_ p))
                  /\ mean_cached d).
Proof.
  intros tc logits probs va ans name. unfold Multinomial.__init__.
  split; [|split].
  - destruct logits as [l|], probs as [p|]; simpl; split; intro Hx;
      try discriminate; try reflexivity.
    + left. now exists l, p.
    + destruct Hx as [(l' & p' & _ & Hp)|[Hl _]]; discriminate.
    + destruct Hx as [(l' & p' & Hl & _)|[_ Hp]]; discriminate.
    + now right.
  - intros l -> ->. simpl. eexists. split; [reflexivity|].
    repeat split.
  - intros p -> ->. simpl. eexists. split; [reflexivity|].
    simpl. split; [reflexivity|]. split; [reflexivity|].
    split; [|reflexivity].
    intros p' Hp'. unfold Multinomial.probs, Multinomial.logits in *.
    simpl in *. rewrite Hp'.
    assert (p' = p) as ->.
    { destruct va; [now apply validate_probs_val | congruence]. }
    now split.
Qed.
End Construction.

(** ** Density *)

Section Density.
Context {F : Type} {AR : Arith F} {CH : Checks F} {SP : Special F}.

Lemma length_map2 :
  forall (A B C : Type) (f : A -> B -> C) (l : list A) (l' : list B),
    length l = length l' -> length (map2 f l l') = length l.
Proof.
  intros A B C f l l' Hl. unfold map2.
  rewrite length_map, length_combine. lia.
Qed.

Lemma maybe_assert_valid_sample_val :
  forall (d : Multinomial.t F) (counts c : ndarray F),
    Multinomial._maybe_assert_valid_sample d counts = Val c -> c = counts.
Proof.
  intros d counts c. unfold Multinomial._maybe_assert_valid_sample.
  destruct (negb (Multinomial.validate_args d)); [congruence|].
  unfold distribution_util.embed_check_nonnegative_discrete.
  destruct (control_flow_ops.with_dependencies _ (Val counts)) as [c'|e] eqn:E;
    cbn [ev_bind]; [|discriminate].
  apply with_dependencies_val in E. subst c'.
  apply with_dependencies_val.
Qed.

Lemma log_prob_vector :
  forall (d : Multinomial.t F) (n : F) (ps cs : list F),
    Multinomial.probs d = Val (vector ps) ->
    eval (Multinomial.total_count d) = Val (scalar n) ->
    Multinomial._maybe_assert_valid_sample d (vector cs) = Val (vector cs) ->
    length cs = length ps ->
    Multinomial._log_prob d (vector cs) = Val (scalar (log_prob_value n ps cs)).
Proof.
  intros d n ps cs Hp Hn Hv Hlen.
  unfold Multinomial._log_prob, Multinomial._log_unnormalized_prob,
    Multinomial._log_normalization, distribution_util.log_combinations.
  rewrite Hv, Hp, Hn. cbn [ev_bind].
  unfold math_ops.multiply. rewrite broadcast_op_same.
  2:{ simpl. now rewrite Hlen. }
  2:{ apply vector_well_formed. }
  2:{ apply tmap_well_formed, vector_well_formed. }
  cbn [ev_bind shape values vector math_ops.log_ tmap].
  replace (mk_ndarray [length cs] (map2 mul cs (map log ps)))
    with (vector (map2 mul cs (map log ps))).
  2:{ unfold vector. rewrite length_map2; [reflexivity|].
      now rewrite length_map. }
  rewrite reduce_sum_vector. cbn [ev_bind].
  replace (math_ops.lgamma_ (math_ops.add_one (vector cs)))
    with (vector (map lgamma (map (fun x => add x one) cs))).
  2:{ unfold vector, math_ops.lgamma_, math_ops.add_one, tmap. simpl.
      now rewrite !length_map. }
  rewrite reduce_sum_vector. cbn [ev_bind].
  unfold math_ops.subtract. rewrite broadcast_op_same; reflexivity.
Qed.

(** C1. Whenever the sample check lets [counts] through (it always does
    without [validate_args]), the unnormalized log-probability is the sum
    over the last axis of [counts * log(probs)], the log-normalization is
    the negated [lgamma(total_count + 1) - sum lgamma(counts + 1)],
    [log_prob] is their difference and [prob] its exponential; for one
    length-k count vector under a scalar [total_count] this is the number
    [log_prob_value]. *)
Theorem log_prob_decomposition :
  forall (d : Multinomial.t F) (counts p n : ndarray F),
    Multinomial.probs d = Val p ->
    eval (Multinomial.total_count d) = Val n ->
    Multinomial._maybe_assert_valid_sample d counts = Val counts ->
    Multinomial._log_unnormalized_prob d counts
    = (x <- math_ops.multiply counts (math_ops.log_ p) ;;
       math_ops.reduce_sum x (-1))
    /\ Multinomial._log_normalization d counts
       = (s <- math_ops.reduce_sum
                 (math_ops.lgamma_ (math_ops.add_one counts)) (-1) ;;
          c <- math_ops.subtract (math_ops.lgamma_ (math_ops.add_one n)) s ;;
          Val (math_ops.negative c))
    /\ Multinomial._log_prob d counts
       = (u <- Multinomial._log_unnormalized_prob d counts ;;
          z <- Multinomial._log_normalization d counts ;;
          math_ops.subtract u z)
    /\ Multinomial._prob d counts
       = ev_map math_ops.exp_ (Multinomial._log_prob d counts)
    /\ (forall (x : F) (ps cs : list F),
         n = scalar x -> p = vector ps -> counts = vector cs ->
         length cs = length ps ->
         Multinomial._log_prob d counts = Val (scalar (log_prob_value x ps cs))
         /\ Multinomial._prob d counts
            = Val (scalar (exp (log_prob_value x ps cs)))).
Proof.
  intros d counts p n Hp Hn Hv. repeat split.
  - unfold Multinomial._log_unnormalized_prob. now rewrite Hv, Hp.
  - unfold Multinomial._log_normalization, distribution_util.log_combinations.
    rewrite Hv, Hn. cbn [ev_bind].
    destruct (math_ops.reduce_sum _ _) as [s|e]; cbn [ev_bind]; reflexivity.
  - subst. now apply log_prob_vector.
  - subst. unfold Multinomial._prob.
    rewrite (log_prob_vector d x ps cs) by assumption. reflexivity.
Qed.

Lemma map2_map_r :
  forall (A B C : Type) (f : A -> B -> C) (g : A -> B) (l : list A),
    map2 f l (map g l) = map (fun x => f x (g x)) l.
Proof.
  intros A B C f g l. unfold map2.
  induction l as [|x l IH]; simpl; [reflexivity | now rewrite IH].
Qed.

Lemma fail_is_invalid_argument :
  forall (A : Type) (m : ev A),
    (forall a, m <> Val a) -> exists msg, m = Fail (InvalidArgumentError msg).
Proof.
  intros A [a|[msg]] Hm.
  - now destruct (Hm a).
  - now exists msg.
Qed.

Lemma forallb_false_In :
  forall (A : Type) (f : A -> bool) (l : list A) (x : A),
    In x l -> f x = false -> forallb f l = false.
Proof.
  intros A f l x Hx Hf.
  destruct (forallb f l) eqn:E; [|reflexivity].
  rewrite forallb_forall in E. rewrite (E x Hx) in Hf. discriminate.
Qed.

Lemma maybe_assert_valid_sample_rejects :
  forall (d : Multinomial.t F) (counts n : ndarray F),
    Multinomial.validate_args d = true ->
    eval (Multinomial.total_count d) = Val n ->
    well_formed counts ->
    has_negative counts \/ has_fractional counts \/ sum_mismatch n counts ->
    forall c, Multinomial._maybe_assert_valid_sample d counts <> Val c.
Proof.
  intros d counts n Hva Hn Hwf Hbad c.
  unfold Multinomial._maybe_assert_valid_sample. rewrite Hva, Hn.
  cbn [negb]. unfold distribution_util.embed_check_nonnegative_discrete.
  cbn [control_flow_ops.with_dependencies].
  unfold check_ops.assert_non_negative at 1.
  destruct (forallb nonneg (values counts)) eqn:Hnn; cbn [ev_bind];
    [|discriminate].
  unfold distribution_util.assert_integer_form, check_ops.assert_equal at 1.
  rewrite broadcast_op_same;
    [|reflexivity|exact Hwf|repeat apply tmap_well_formed; exact Hwf].
  cbn [ev_bind values math_ops.to_float math_ops.to_int64 tmap].
  rewrite map_map, map2_map_r.
  destruct (forallb _ (map _ (values counts))) eqn:Hint; cbn [ev_bind];
    [|discriminate].
  destruct Hbad as [(x & Hx & Hneg)|[(x & Hx & Hfr)|Hsum]].
  - rewrite (forallb_false_In _ nonneg _ x Hx Hneg) in Hnn. discriminate.
  - rewrite forallb_forall in Hint.
    specialize (Hint (equal x (of_int (trunc x)))).
    rewrite Hfr in Hint. discriminate Hint.
    apply in_map_iff. now exists x.
  - destruct Hsum as (s & cmp & Hs & Hc & Hb).
    unfold check_ops.assert_equal. rewrite Hs. cbn [ev_bind]. rewrite Hc.
    cbn [ev_bind].
    rewrite (forallb_false_In _ (fun b : bool => b) _ false Hb eq_refl).
    discriminate.
Qed.

Lemma density_evaluates :
  forall (d : Multinomial.t F) (counts n p : ndarray F) (s1 s2 s3 : list nat),
    Multinomial.validate_args d = false ->
    eval (Multinomial.total_count d) = Val n ->
    Multinomial.probs d = Val p ->
    shape counts <> [] ->
    broadcast_shapes (shape counts) (shape p) = Some s1 ->
    broadcast_shapes (shape n) (removelast (shape counts)) = Some s2 ->
    broadcast_shapes (removelast s1) s2 = Some s3 ->
    (exists u, Multinomial._log_unnormalized_prob d counts = Val u
               /\ shape u = removelast s1)
    /\ (exists z, Multinomial._log_normalization d counts = Val z
                  /\ shape z = s2)
    /\ (exists r, Multinomial._log_prob d counts = Val r /\ shape r = s3).
Proof.
  intros d counts n p s1 s2 s3 Hva Hn Hp Hc Hs1 Hs2 Hs3.
  assert (Hu : exists u, Multinomial._log_unnormalized_prob d counts = Val u
                         /\ shape u = removelast s1).
  { unfold Multinomial._log_unnormalized_prob,
      Multinomial._maybe_assert_valid_sample.
    rewrite Hva, Hp. cbn [negb ev_bind]. unfold math_ops.multiply.
    destruct (broadcast_op_shape _ _ _ mul counts (math_ops.log_ p) _ Hs1)
      as (x & -> & Hx).
    cbn [ev_bind]. destruct (reduce_sum_shape x) as (u & -> & Hu).
    - intro E. apply broadcast_shapes_length in Hs1.
      revert Hc Hs1.
      destruct (shape counts) as [|c0 cs]; intros Hc Hs1; [congruence|].
      rewrite <- Hx, E in Hs1. cbn [length] in Hs1. lia.
    - exists u. now rewrite Hu, Hx. }
  assert (Hz : exists z, Multinomial._log_normalization d counts = Val z
                         /\ shape z = s2).
  { unfold Multinomial._log_normalization,
      Multinomial._maybe_assert_valid_sample,
      distribution_util.log_combinations.
    rewrite Hva, Hn. cbn [negb ev_bind].
    destruct (reduce_sum_shape
                (math_ops.lgamma_ (math_ops.add_one counts)) Hc)
      as (s & -> & Hs).
    cbn [ev_bind]. unfold math_ops.subtract.
    destruct (broadcast_op_shape _ _ _ sub
                (math_ops.lgamma_ (math_ops.add_one n)) s s2)
      as (c & -> & Hcs).
    - rewrite Hs. exact Hs2.
    - cbn [ev_bind]. eexists. split; [reflexivity | exact Hcs]. }
  split; [exact Hu|]. split; [exact Hz|].
  destruct Hu as (u & Hu & Hus), Hz as (z & Hz & Hzs).
  unfold Multinomial._log_prob. rewrite Hu, Hz. cbn [ev_bind].
  apply broadcast_op_shape. now rewrite Hus, Hzs.
Qed.

(** C5. With [validate_args], a [counts] with a negative entry, with a
    fractional entry or whose sums over the last axis differ from
    [total_count] makes [log_prob], [prob], [log_unnormalized_prob] and
    [log_normalization] fail with InvalidArgumentError.  Without
    [validate_args] nothing is checked: for any [counts] whose shape
    broadcasts with [probs] and [total_count] the four of them return a
    tensor. *)
Theorem sample_validation :
  forall (d : Multinomial.t F) (counts n p : ndarray F),
    eval (Multinomial.total_count d) = Val n ->
    Multinomial.probs d = Val p ->
    well_formed counts ->
    (Multinomial.validate_args d = true ->
     has_negative counts \/ has_fractional counts \/ sum_mismatch n counts ->
     (exists m, Multinomial._log_prob d counts = Fail (InvalidArgumentError m))
     /\ (exists m, Multinomial._prob d counts = Fail (InvalidArgumentError m))
     /\ (exists m, Multinomial._log_unnormalized_prob d counts
                   = Fail (InvalidArgumentError m))
     /\ (exists m, Multinomial._log_normalization d counts
                   = Fail (InvalidArgumentError m)))
    /\ (Multinomial.validate_args d = false ->
        forall s1 s2 s3 : list nat,
          shape counts <> [] ->
          broadcast_shapes (shape counts) (shape p) = Some s1 ->
          broadcast_shapes (shape n) (removelast (shape counts)) = Some s2 ->
          broadcast_shapes (removelast s1) s2 = Some s3 ->
          (exists r, Multinomial._log_prob d counts = Val r /\ shape r = s3)
          /\ (exists r, Multinomial._prob d counts = Val r /\ shape r = s3)
          /\ (exists r, Multinomial._log_unnormalized_prob d counts = Val r
                        /\ shape r = removelast s1)
          /\ (exists r, Multinomial._log_normalization d counts = Val r
                        /\ shape r = s2)).
Proof.
  intros d counts n p Hn Hp Hwf. split.
  - intros Hva Hbad.
    pose proof (maybe_assert_valid_sample_rejects d counts n Hva Hn Hwf Hbad)
      as Hrej.
    apply fail_is_invalid_argument in Hrej. destruct Hrej as (msg & Hrej).
    unfold Multinomial._prob, Multinomial._log_prob,
      Multinomial._log_unnormalized_prob, Multinomial._log_normalization.
    rewrite Hrej. cbn. repeat split; now exists msg.
  - intros Hva s1 s2 s3 Hc Hs1 Hs2 Hs3.
    destruct (density_evaluates d counts n p s1 s2 s3 Hva Hn Hp Hc Hs1 Hs2 Hs3)
      as (Hu & Hz & (r & Hr & Hrs)).
    split; [now exists r|]. split; [|now split].
    unfold Multinomial._prob. rewrite Hr. cbn.
    eexists. split; [reflexivity | exact Hrs].
Qed.
End Density.

(** ** Sampling *)

Section ListIndex.
Context {A : Type}.

Lemma skipn_add :
  forall (a b : nat) (l : list A), skipn a (skipn b l) = skipn (b + a) l.
Proof.
  intros a b. revert a. induction b as [|b IH]; intros a l; simpl.
  - reflexivity.
  - destruct l as [|x l]; [now rewrite !skipn_nil | apply IH].
Qed.

Lemma nth_chunks :
  forall (size count i : nat) (l : list A),
    i < count -> nth i (chunks size count l) [] = firstn size (skipn (i * size) l).
Proof.
  intros size count. induction count as [|c IH]; intros i l Hi; [lia|].
  destruct i as [|i]; simpl.
  - reflexivity.
  - rewrite IH by lia. now rewrite skipn_add.
Qed.

Lemma concat_map_concat :
  forall (B : Type) (f : A -> list B) (ls : list (list A)),
    concat (map f (concat ls)) = concat (map (fun l => concat (map f l)) ls).
Proof.
  intros B f ls. induction ls as [|l ls IH]; simpl.
  - reflexivity.
  - now rewrite map_app, concat_app, IH.
Qed.

Lemma nth_In_default :
  forall (i : nat) (l : list (list A)), i < length l -> In (nth i l []) l.
Proof. intros i l Hi. now apply nth_In. Qed.

Lemma transpose_lists_length :
  forall (width : nat) (rows : list (list (list A))),
    length (array_ops.transpose_lists width rows) = width.
Proof.
  intros width rows. unfold array_ops.transpose_lists.
  now rewrite length_map, length_seq.
Qed.

Lemma transpose_lists_nth :
  forall (width : nat) (rows : list (list (list A))) (j : nat),
    j < width ->
    nth j (array_ops.transpose_lists width rows) []
    = map (fun row => nth j row []) rows.
Proof.
  intros width rows j Hj. unfold array_ops.transpose_lists.
  rewrite (nth_indep _ [] (map (fun row => nth 0 row []) rows))
    by now rewrite length_map, length_seq.
  rewrite (map_nth (fun j => map (fun row => nth j row []) rows) (seq 0 width) 0 j).
  now rewrite seq_nth.
Qed.

Lemma transpose_lists_rows_length :
  forall (width : nat) (rows : list (list (list A))),
    Forall (fun col => length col = length rows)
           (array_ops.transpose_lists width rows).
Proof.
  intros width rows. apply Forall_forall. intros col Hcol.
  unfold array_ops.transpose_lists in Hcol. apply in_map_iff in Hcol.
  destruct Hcol as (j & <- & _). now rewrite length_map.
Qed.

Lemma transpose_lists_In :
  forall (width : nat) (rows : list (list (list A))) (x : list A),
    Forall (fun row => length row = width) rows ->
    In x (concat (array_ops.transpose_lists width rows)) ->
    In x (concat rows).
Proof.
  intros width rows x Hrows Hx. apply in_concat in Hx.
  destruct Hx as (col & Hcol & Hx).
  unfold array_ops.transpose_lists in Hcol. apply in_map_iff in Hcol.
  destruct Hcol as (j & <- & Hj). apply in_seq in Hj.
  apply in_map_iff in Hx. destruct Hx as (row & <- & Hrow).
  apply in_concat. exists row. split; [exact Hrow|].
  apply nth_In. rewrite Forall_forall in Hrows. rewrite (Hrows row Hrow). lia.
Qed.

Lemma nth_concat_const :
  forall (size : nat) (ls : list (list A)) (i j : nat) (d : A),
    Forall (fun x => length x = size) ls ->
    j < size ->
    nth (i * size + j) (concat ls) d = nth j (nth i ls []) d.
Proof.
  intros size ls i j d Hls Hj. revert i.
  induction Hls as [|x ls Hx _ IH]; intro i.
  - replace (nth i [] []) with (@nil A) by (destruct i; reflexivity).
    simpl. destruct (i * size + j), j; reflexivity.
  - destruct i as [|i]; simpl.
    + rewrite app_nth1 by lia. reflexivity.
    + rewrite app_nth2 by lia.
      replace (size + i * size + j - length x) with (i * size + j) by lia.
      apply IH.
Qed.
End ListIndex.

Section Reshape.
Context {A : Type}.

Lemma known_product_of_nat :
  forall dims : list nat,
    array_ops.known_product (map Z.of_nat dims) = Z.of_nat (numel dims).
Proof.
  induction dims as [|d dims IH]; simpl.
  - reflexivity.
  - rewrite IH.
    replace (Z.of_nat d =? -1)%Z with false by (symmetry; apply Z.eqb_neq; lia).
    lia.
Qed.

Lemma count_occ_of_nat :
  forall dims : list nat, count_occ Z.eq_dec (map Z.of_nat dims) (-1)%Z = 0.
Proof.
  induction dims as [|d dims IH]; simpl.
  - reflexivity.
  - destruct (Z.eq_dec (Z.of_nat d) (-1)); [lia | exact IH].
Qed.

Lemma existsb_negative_of_nat :
  forall dims : list nat,
    existsb (fun d => (d <? -1)%Z) (map Z.of_nat dims) = false.
Proof.
  induction dims as [|d dims IH]; simpl.
  - reflexivity.
  - rewrite IH. replace (Z.of_nat d <? -1)%Z with false
      by (symmetry; apply Z.ltb_ge; lia). reflexivity.
Qed.

Lemma map_resolve_of_nat :
  forall (q : Z) (dims : list nat),
    map (fun d => Z.to_nat (if (d =? -1)%Z then q else d)) (map Z.of_nat dims)
    = dims.
Proof.
  intros q dims. induction dims as [|d dims IH]; simpl.
  - reflexivity.
  - rewrite IH.
    replace (Z.of_nat d =? -1)%Z with false by (symmetry; apply Z.eqb_neq; lia).
    now rewrite Nat2Z.id.
Qed.

Lemma reshape_exact :
  forall (t : ndarray A) (dims : list nat),
    length (values t) = numel dims ->
    array_ops.reshape t (map Z.of_nat dims) = Val (mk_ndarray dims (values t)).
Proof.
  intros t dims Hlen. unfold array_ops.reshape.
  rewrite existsb_negative_of_nat, count_occ_of_nat. cbv zeta.
  rewrite known_product_of_nat, Hlen.
  rewrite Z.eqb_refl. f_equal. f_equal.
  rewrite map_map. apply map_id_on. intros d _. apply Nat2Z.id.
Qed.

Lemma reshape_mismatch :
  forall (t : ndarray A) (dims : list nat),
    length (values t) <> numel dims ->
    array_ops.reshape t (map Z.of_nat dims)
    = Fail (InvalidArgumentError
              "Input to reshape has a different number of values").
Proof.
  intros t dims Hlen. unfold array_ops.reshape.
  rewrite existsb_negative_of_nat, count_occ_of_nat. cbv zeta.
  rewrite known_product_of_nat.
  replace (Z.of_nat (length (values t)) =? Z.of_nat (numel dims))%Z with false
    by (symmetry; apply Z.eqb_neq; lia).
  reflexivity.
Qed.

Lemma existsb_zero_of_nat :
  forall dims : list nat,
    Forall (fun d => 0 < d) dims ->
    existsb (fun d => (d =? 0)%Z) (map Z.of_nat dims) = false.
Proof.
  induction dims as [|d dims IH]; intros H; simpl.
  - reflexivity.
  - inversion H as [|? ? Hd Hdims]; subst. rewrite (IH Hdims).
    replace (Z.of_nat d =? 0)%Z with false by (symmetry; apply Z.eqb_neq; lia).
    reflexivity.
Qed.

Lemma nonzero_product_of_nat :
  forall dims : list nat,
    Forall (fun d => 0 < d) dims ->
    array_ops.nonzero_product (map Z.of_nat dims) = Z.of_nat (numel dims).
Proof.
  induction dims as [|d dims IH]; intros H; simpl.
  - reflexivity.
  - inversion H as [|? ? Hd Hdims]; subst. rewrite (IH Hdims).
    replace (Z.of_nat d =? -1)%Z with false by (symmetry; apply Z.eqb_neq; lia).
    replace (Z.of_nat d =? 0)%Z with false by (symmetry; apply Z.eqb_neq; lia).
    simpl. lia.
Qed.

Lemma counted_elements_all :
  forall dims : list nat, array_ops.counted_elements false dims = numel dims.
Proof.
  induction dims as [|d dims IH]; simpl; [reflexivity|now rewrite IH].
Qed.

Lemma numel_positive :
  forall dims : list nat, Forall (fun d => 0 < d) dims -> 0 < numel dims.
Proof.
  induction dims as [|d dims IH]; intros H; simpl; [lia|].
  inversion H as [|? ? Hd Hdims]; subst. specialize (IH Hdims).
  change (0 < d * numel dims). nia.
Qed.

Lemma reshape_infer :
  forall (t : ndarray A) (b : nat) (dims : list nat),
    Forall (fun d => 0 < d) dims ->
    well_formed t ->
    length (values t) = b * numel dims ->
    array_ops.reshape t ((-1)%Z :: map Z.of_nat dims)
    = Val (mk_ndarray (b :: dims) (values t)).
Proof.
  intros t b dims Hpos Hwf Hlen. unfold array_ops.reshape.
  pose proof (numel_positive dims Hpos) as Hn.
  cbn [existsb count_occ array_ops.nonzero_product fold_right map].
  rewrite existsb_negative_of_nat, (existsb_zero_of_nat dims Hpos).
  destruct (Z.eq_dec (-1) (-1)) as [_|Hne]; [|now destruct Hne].
  rewrite count_occ_of_nat.
  change (fold_right
            (fun d acc : Z => if ((d =? -1) || (d =? 0))%Z then acc
                              else (d * acc)%Z)
            1%Z (map Z.of_nat dims))
    with (array_ops.nonzero_product (map Z.of_nat dims)).
  rewrite (nonzero_product_of_nat dims Hpos).
  cbn [Z.eqb Z.ltb Z.compare Pos.eqb orb andb negb].
  replace (array_ops.counted_elements false (shape t)) with (b * numel dims)
    by (now rewrite (counted_elements_all (shape t)), <- Hlen).
  rewrite Nat2Z.inj_mul, Z.div_mul by lia.
  replace (Z.of_nat (numel dims) * Z.of_nat b
           =? Z.of_nat b * Z.of_nat (numel dims))%Z with true
    by (symmetry; apply Z.eqb_eq; lia).
  cbn [negb]. rewrite Nat2Z.id, map_resolve_of_nat, Hlen.
  change (numel (b :: dims)) with (b * numel dims). rewrite Nat.eqb_refl.
  reflexivity.
Qed.

(** An empty matrix takes any shape with a [-1] and a size 0. *)
Lemma reshape_infer_empty :
  forall (b n : nat) (nd : Z),
    (0 <= nd)%Z -> n = 0 \/ nd = 0%Z ->
    exists m : nat,
      array_ops.reshape (mk_ndarray [b; 0] (@nil A)) [(-1)%Z; Z.of_nat n; nd]
      = Val (mk_ndarray [m; n; Z.to_nat nd] []).
Proof.
  intros b n nd Hnd Hz. unfold array_ops.reshape.
  cbn [existsb count_occ shape values length].
  replace (Z.of_nat n <? -1)%Z with false by (symmetry; apply Z.ltb_ge; lia).
  replace (nd <? -1)%Z with false by (symmetry; apply Z.ltb_ge; lia).
  change (-1 <? -1)%Z with false. cbn [orb].
  destruct (Z.eq_dec (-1) (-1)) as [_|Hne]; [|now destruct Hne].
  destruct (Z.eq_dec (Z.of_nat n) (-1)) as [Hn1|_]; [lia|].
  destruct (Z.eq_dec nd (-1)) as [Hm1|_]; [lia|].
  change (-1 =? 0)%Z with false. cbn [orb].
  replace ((Z.of_nat n =? 0)%Z || ((nd =? 0)%Z || false)) with true.
  2:{ symmetry. destruct Hz as [-> | ->]; [reflexivity|].
      now rewrite Z.eqb_refl, orb_true_r. }
  cbn [andb existsb Nat.eqb orb negb map].
  rewrite orb_true_r. cbn [negb andb].
  change (-1 =? -1)%Z with true.
  replace (Z.of_nat n =? -1)%Z with false by (symmetry; apply Z.eqb_neq; lia).
  replace (nd =? -1)%Z with false by (symmetry; apply Z.eqb_neq; lia).
  rewrite Nat2Z.id.
  eexists. cbn [numel fold_right].
  replace (_ * (n * (Z.to_nat nd * 1)) =? 0) with true; [reflexivity|].
  symmetry. apply Nat.eqb_eq. destruct Hz as [-> | ->]; simpl; lia.
Qed.
End Reshape.

Section ReduceInner.
Context {F : Type} {AR : Arith F}.

Lemma reduce_sum_axis_m2 :
  forall (t : ndarray F) (pre : list nat) (m k : nat),
    shape t = pre ++ [m; k] ->
    math_ops.reduce_sum t (-2)
    = Val (mk_ndarray (pre ++ [k])
             (concat (map (fun block => math_ops.sum_columns k (chunks k m block))
                          (chunks (m * k) (numel pre) (values t))))).
Proof.
  intros t pre m k Hs. unfold math_ops.reduce_sum.
  rewrite Hs, length_app. simpl length.
  replace (Z.of_nat (length pre + 2) + -2)%Z with (Z.of_nat (length pre)) by lia.
  replace (-2 <? 0)%Z with true by reflexivity.
  replace ((Z.of_nat (length pre) <? 0)%Z
           || (Z.of_nat (length pre + 2) <=? Z.of_nat (length pre))%Z) with false
    by (symmetry; apply orb_false_iff; split;
        [apply Z.ltb_ge | apply Z.leb_gt]; lia).
  rewrite Nat2Z.id.
  rewrite firstn_app, Nat.sub_diag, firstn_all. simpl firstn.
  rewrite app_nth2 by lia. rewrite Nat.sub_diag. simpl nth.
  rewrite skipn_app, skipn_all2 by lia.
  replace (S (length pre) - length pre) with 1 by lia. simpl skipn.
  simpl numel. rewrite !app_nil_r, !Nat.mul_1_r. reflexivity.
Qed.
End ReduceInner.

Section Sampling.
Context {F : Type} {AR : Arith F} {CH : Checks F} {RO : RandomOps F}.

Lemma int32_wrap_small :
  forall z : Z, (- 2 ^ 31 <= z < 2 ^ 31)%Z -> int32_wrap z = z.
Proof.
  intros z Hz. unfold int32_wrap.
  rewrite Z.mod_small by lia. lia.
Qed.

Lemma draws_of_length :
  forall (stream : Z) (rows : list (list F)) (m : nat),
    length (draws_of stream rows m) = length rows * m.
Proof.
  intros stream rows m. unfold draws_of.
  rewrite (length_concat_const m).
  - now rewrite length_map, length_combine, length_seq, Nat.min_id.
  - apply Forall_forall. intros x Hx. apply in_map_iff in Hx.
    destruct Hx as (ir & <- & _). now rewrite length_map, length_seq.
Qed.

Lemma one_hot_row_length :
  forall (k : nat) (i : Z), length (array_ops.one_hot_row k i : list F) = k.
Proof.
  intros k i. unfold array_ops.one_hot_row. now rewrite length_map, length_seq.
Qed.

Lemma sum_columns_length :
  forall (k : nat) (rows : list (list F)),
    length (math_ops.sum_columns k rows) = k.
Proof.
  intros k rows. unfold math_ops.sum_columns. now rewrite length_map, length_seq.
Qed.

Lemma one_hot_counts :
  forall (k nd cnt : nat) (draws : list Z),
    length draws = cnt * nd ->
    concat (map (fun block => math_ops.sum_columns k (chunks k nd block))
                (chunks (nd * k) cnt
                        (concat (map (array_ops.one_hot_row k) draws))))
    = concat (map (count_vector k) (chunks nd cnt draws)).
Proof.
  intros k nd cnt draws Hlen. f_equal.
  rewrite <- (concat_chunks nd cnt draws Hlen) at 1.
  rewrite concat_map_concat.
  replace cnt with
    (length (map (fun l => concat (map (array_ops.one_hot_row k) l))
                 (chunks nd cnt draws))) at 1
    by now rewrite length_map, chunks_length.
  rewrite chunks_concat.
  - rewrite map_map. apply map_ext_in. intros run Hrun.
    unfold count_vector. f_equal.
    apply chunks_In_length in Hrun; [|exact Hlen].
    rewrite <- Hrun at 1.
    rewrite <- (length_map (array_ops.one_hot_row k) run).
    apply chunks_concat. apply Forall_forall. intros x Hx.
    apply in_map_iff in Hx. destruct Hx as (i & <- & _).
    apply one_hot_row_length.
  - apply Forall_forall. intros x Hx. apply in_map_iff in Hx.
    destruct Hx as (run & <- & Hrun).
    apply chunks_In_length in Hrun; [|exact Hlen].
    rewrite (length_concat_const k).
    + now rewrite length_map, Hrun.
    + apply Forall_forall. intros y Hy. apply in_map_iff in Hy.
      destruct Hy as (i & <- & _). apply one_hot_row_length.
Qed.

Lemma draws_of_chunks :
  forall (stream : Z) (k b m : nat) (L : list F),
    concat (map (fun ir => map (fun j => categorical stream (fst ir) j (snd ir))
                               (seq 0 m))
                (combine (seq 0 b) (chunks k b L)))
    = draws_of stream (chunks k b L) m.
Proof.
  intros stream k b m L. unfold draws_of. now rewrite chunks_length.
Qed.

Lemma last_dim_app :
  forall (bs : list nat) (k : nat), last_dim (bs ++ [k]) = [k].
Proof. intros bs k. unfold last_dim. now rewrite rev_app_distr. Qed.

Lemma sample_values_length :
  forall (stream : Z) (L : list F) (b k n nd : nat),
    length (sample_values stream L b k n nd) = n * (b * k).
Proof.
  intros stream L b k n nd. unfold sample_values.
  set (v := map (count_vector k) _).
  assert (Hv : Forall (fun x => length x = k) v).
  { apply Forall_forall. intros x Hx. apply in_map_iff in Hx.
    destruct Hx as (run & <- & _). apply sum_columns_length. }
  assert (Hlv : length v = b * n).
  { unfold v. now rewrite length_map, chunks_length. }
  rewrite (length_concat_const k).
  - rewrite (length_concat_const b).
    + rewrite transpose_lists_length. lia.
    + eapply Forall_impl; [|apply transpose_lists_rows_length].
      intros col Hcol. now rewrite Hcol, chunks_length.
  - apply Forall_forall. intros x Hx.
    apply transpose_lists_In in Hx.
    + rewrite concat_chunks in Hx by exact Hlv.
      rewrite Forall_forall in Hv. now apply Hv.
    + apply chunks_Forall_length. exact Hlv.
Qed.

Lemma sample_n_prefix :
  forall (entropy : Z) (d : Multinomial.t F) (n : nat) (seed : option Z)
         (x : F) (L M : ndarray F) (bs : list nat) (k : nat),
    (forall r, static_ndims (Multinomial.total_count d) = Some r -> r = 0) ->
    eval (Multinomial.total_count d) = Val (scalar x) ->
    Multinomial.logits d = Val L -> shape L = bs ++ [k] -> well_formed L ->
    Multinomial._mean_val d = Val M -> shape M = bs ++ [k] ->
    0 < k ->
    Multinomial._sample_n entropy d n seed
    = Return
        (draws <- random_ops.multinomial entropy
                    (mk_ndarray [numel bs; k] (values L))
                    (math_ops.int_multiply n (scalar (int32_cast (trunc x))))
                    seed ;;
         sh <- array_ops.pack [scalar (-1)%Z; scalar (Z.of_nat n);
                               scalar (int32_cast (trunc x))] ;;
         draws <- array_ops.reshape draws sh ;;
         r <- math_ops.reduce_sum (array_ops.one_hot draws k) (-2) ;;
         r <- array_ops.transpose_102 r ;;
         array_ops.reshape r (map Z.of_nat ([n] ++ bs ++ [k]))).
Proof.
  intros entropy d n seed x L M bs k Hstat Htc Hl HsL HwL Hm HsM Hk.
  unfold Multinomial._sample_n. rewrite Htc. cbn [ev_map ev_bind].
  change (math_ops.cast_int32 (scalar x)) with (scalar (int32_cast (trunc x))).
  set (nd := int32_cast (trunc x)) in *.
  match goal with
  | |- py_bind ?g _ = _ => assert (G : g = Return (Val (scalar nd)))
  end.
  { destruct (static_ndims (Multinomial.total_count d)) as [r|] eqn:E.
    - rewrite (Hstat r eq_refl). reflexivity.
    - destruct (Multinomial.validate_args d); reflexivity. }
  rewrite G. cbn [py_bind ev_bind]. f_equal.
  unfold Multinomial._event_shape_tensor, Multinomial._batch_shape_tensor.
  rewrite Hm, Hl. cbn [ev_bind]. unfold array_ops.shape_.
  rewrite HsM, last_dim_app, removelast_last. cbn [Multinomial.first_entry ev_bind].
  change [(-1)%Z; Z.of_nat k] with ((-1)%Z :: map Z.of_nat [k]).
  rewrite (reshape_infer L (numel bs) [k]).
  2:{ constructor; [exact Hk|constructor]. }
  2:{ exact HwL. }
  2:{ unfold well_formed in HwL. now rewrite HwL, HsL, numel_app. }
  reflexivity.
Qed.

Lemma int32_cast_small :
  forall z : Z, (- 2 ^ 31 <= z < 2 ^ 31)%Z -> int32_cast z = z.
Proof.
  intros z Hz. unfold int32_cast.
  replace (- 2 ^ 31 <=? z)%Z with true by (symmetry; apply Z.leb_le; lia).
  replace (z <? 2 ^ 31)%Z with true by (symmetry; apply Z.ltb_lt; lia).
  reflexivity.
Qed.

Lemma int32_cast_range :
  forall z : Z, (- 2 ^ 31 <= int32_cast z < 2 ^ 31)%Z.
Proof.
  intros z. unfold int32_cast.
  destruct (Z.leb_spec (- 2 ^ 31) z); destruct (Z.ltb_spec z (2 ^ 31));
    cbn [andb]; lia.
Qed.

Lemma draws_of_none :
  forall (stream : Z) (rows : list (list F)), draws_of stream rows 0 = [].
Proof.
  intros stream rows. apply length_zero_iff_nil.
  rewrite draws_of_length. lia.
Qed.

Lemma sample_values_none :
  forall (stream : Z) (L : list F) (b k nd : nat),
    sample_values stream L b k 0 nd = [].
Proof. reflexivity. Qed.

(** The sampler is asked for [n * nd] draws for each row of the logits. *)
Lemma sampler_draws :
  forall (entropy : Z) (L : list F) (b k : nat) (m : Z) (seed : option Z),
    0 < k -> (0 <= m)%Z ->
    random_ops.multinomial entropy (mk_ndarray [b; k] L) (scalar m) seed
    = Val (mk_ndarray [b; Z.to_nat m]
             (draws_of (stream_of entropy seed) (chunks k b L) (Z.to_nat m))).
Proof.
  intros entropy L b k m seed Hk Hm.
  unfold random_ops.multinomial. cbn [shape values scalar].
  replace (m <? 0)%Z with false by (symmetry; apply Z.ltb_ge; lia).
  replace (k =? 0) with false by (symmetry; apply Nat.eqb_neq; lia).
  change (match seed with Some s => seeded entropy s | None => entropy end)
    with (stream_of entropy seed).
  now rewrite draws_of_chunks.
Qed.

Lemma sample_n_evaluates :
  forall (entropy : Z) (d : Multinomial.t F) (n : nat) (seed : option Z)
         (x : F) (L M : ndarray F) (bs : list nat) (k : nat),
    (forall r, static_ndims (Multinomial.total_count d) = Some r -> r = 0) ->
    eval (Multinomial.total_count d) = Val (scalar x) ->
    Multinomial.logits d = Val L -> shape L = bs ++ [k] -> well_formed L ->
    Multinomial._mean_val d = Val M -> shape M = bs ++ [k] ->
    0 < k ->
    (0 < trunc x < 2 ^ 31)%Z ->
    (Z.of_nat n * trunc x < 2 ^ 31)%Z ->
    Multinomial._sample_n entropy d n seed
    = Return (Val (mk_ndarray (n :: bs ++ [k])
                 (sample_values (stream_of entropy seed) (values L) (numel bs)
                    k n (Z.to_nat (trunc x))))).
Proof.
  intros entropy d n seed x L M bs k Hstat Htc Hl HsL HwL Hm HsM Hk Hnd Hmul.
  rewrite (sample_n_prefix entropy d n seed x L M bs k Hstat Htc Hl HsL HwL Hm
             HsM Hk).
  f_equal. rewrite (int32_cast_small (trunc x)) by lia.
  set (nd := trunc x) in *.
  assert (Hnd32 : int32_wrap (Z.of_nat n * nd) = (Z.of_nat n * nd)%Z)
    by (apply int32_wrap_small; lia).
  unfold math_ops.int_multiply, scalar at 1, tmap. cbn [map shape values].
  rewrite Hnd32.
  change (mk_ndarray [] [(Z.of_nat n * nd)%Z]) with (scalar (Z.of_nat n * nd)%Z).
  rewrite sampler_draws by lia.
  cbn [ev_bind array_ops.pack scalar shape values].
  set (nn := Z.to_nat nd).
  assert (Hnn : nd = Z.of_nat nn) by (unfold nn; lia).
  replace (Z.to_nat (Z.of_nat n * nd)) with (n * nn) by lia.
  set (stream := stream_of entropy seed).
  assert (Hdraws : length (draws_of stream (chunks k (numel bs) (values L))
                                     (n * nn)) = numel bs * n * nn).
  { rewrite draws_of_length, chunks_length. lia. }
  rewrite Hnn.
  assert (Hfinal : length (sample_values stream (values L) (numel bs) k n nn)
                   = numel (n :: bs ++ [k])).
  { rewrite sample_values_length.
    cbn [numel fold_right]. fold (numel (bs ++ [k])).
    rewrite numel_app. simpl. lia. }
  destruct n as [|n'].
  - rewrite draws_of_none.
    destruct (reshape_infer_empty (A := Z) (numel bs) 0 (Z.of_nat nn))
      as [m Hr]; [lia|now left|].
    change (mk_ndarray [numel bs; 0 * nn] []) with (mk_ndarray [numel bs; 0] (@nil Z)).
    change (Z.of_nat 0) with 0%Z in Hr |- *. rewrite Hr. cbn [ev_bind].
    rewrite (reduce_sum_axis_m2 _ [m; 0] (Z.to_nat (Z.of_nat nn)) k)
      by reflexivity.
    cbn [ev_bind array_ops.one_hot values shape map concat].
    replace (numel [m; 0]) with 0 by (simpl; lia).
    cbn [chunks map concat].
    unfold array_ops.transpose_102. cbn [shape app values ev_bind].
    rewrite Nat.mul_0_r. cbn [chunks seq array_ops.transpose_lists map concat].
    apply (reshape_exact (mk_ndarray [0; m; k] []) (0 :: bs ++ [k])).
    reflexivity.
  - remember (draws_of stream (chunks k (numel bs) (values L)) (S n' * nn))
      as draws eqn:Edraws.
    change [(-1)%Z; Z.of_nat (S n'); Z.of_nat nn]
      with ((-1)%Z :: map Z.of_nat [S n'; nn]).
    rewrite (reshape_infer _ (numel bs) [S n'; nn]).
    2:{ constructor; [lia|constructor; [lia|constructor]]. }
    2:{ unfold well_formed. cbn [values shape numel fold_right].
        rewrite Hdraws. lia. }
    2:{ cbn [values numel fold_right]. rewrite Hdraws. lia. }
    cbn [ev_bind].
    rewrite (reduce_sum_axis_m2 _ [numel bs; S n'] nn k) by reflexivity.
    cbn [ev_bind array_ops.one_hot values shape].
    rewrite one_hot_counts.
    2:{ rewrite Hdraws. simpl. lia. }
    unfold array_ops.transpose_102. cbn [shape app values ev_bind].
    replace (numel [numel bs; S n']) with (numel bs * S n') by (simpl; lia).
    set (v := map (count_vector k) (chunks nn (numel bs * S n') draws)).
    assert (Hv : chunks k (numel bs * S n') (concat v) = v).
    { replace (numel bs * S n') with (length v) at 1
        by (unfold v; now rewrite length_map, chunks_length).
      apply chunks_concat. apply Forall_forall. intros c Hc.
      apply in_map_iff in Hc. destruct Hc as (run & <- & _).
      apply sum_columns_length. }
    rewrite Hv.
    assert (Hsv : concat (concat (array_ops.transpose_lists (S n')
                                    (chunks (S n') (numel bs) v)))
                  = sample_values stream (values L) (numel bs) k (S n') nn).
    { unfold sample_values, v. now rewrite Edraws. }
    rewrite Hsv, reshape_exact; [reflexivity|exact Hfinal].
Qed.

Lemma sample_n_fails_negative :
  forall (entropy : Z) (d : Multinomial.t F) (n : nat) (seed : option Z)
         (x : F) (L M : ndarray F) (bs : list nat) (k : nat),
    (forall r, static_ndims (Multinomial.total_count d) = Some r -> r = 0) ->
    eval (Multinomial.total_count d) = Val (scalar x) ->
    Multinomial.logits d = Val L -> shape L = bs ++ [k] -> well_formed L ->
    Multinomial._mean_val d = Val M -> shape M = bs ++ [k] ->
    0 < k ->
    (int32_cast (trunc x) < 0)%Z ->
    exists msg,
      Multinomial._sample_n entropy d n seed
      = Return (Fail (InvalidArgumentError msg)).
Proof.
  intros entropy d n seed x L M bs k Hstat Htc Hl HsL HwL Hm HsM Hk Hnd.
  rewrite (sample_n_prefix entropy d n seed x L M bs k Hstat Htc Hl HsL HwL Hm
             HsM Hk).
  set (nd := int32_cast (trunc x)) in *.
  change (math_ops.int_multiply n (scalar nd))
    with (scalar (int32_wrap (Z.of_nat n * nd))).
  unfold random_ops.multinomial. cbn [scalar shape values].
  destruct (int32_wrap (Z.of_nat n * nd) <? 0)%Z;
    [eexists; reflexivity|].
  replace (k =? 0) with false by (symmetry; apply Nat.eqb_neq; lia).
  cbn [ev_bind array_ops.pack scalar shape values].
  unfold array_ops.reshape at 1.
  cbn [existsb count_occ].
  replace (Z.of_nat n <? -1)%Z with false by (symmetry; apply Z.ltb_ge; lia).
  change (-1 <? -1)%Z with false. cbn [orb].
  destruct (Z.ltb_spec nd (-1)) as [Hlt|Hge]; [eexists; reflexivity|].
  destruct (Z.eq_dec (-1) (-1)) as [_|Hne]; [|now destruct Hne].
  destruct (Z.eq_dec (Z.of_nat n) (-1)) as [Hn1|_]; [lia|].
  destruct (Z.eq_dec nd (-1)) as [Hm1|Hm1]; [eexists; reflexivity|].
  lia.
Qed.

Lemma chunks_Forall_elem :
  forall (A : Type) (P : A -> Prop) (size count : nat) (l : list A),
    Forall P l -> Forall (Forall P) (chunks size count l).
Proof.
  intros A P size count. induction count as [|c IH]; intros l Hl; cbn.
  - constructor.
  - rewrite <- (firstn_skipn size l) in Hl. apply Forall_app in Hl.
    destruct Hl as [Hf Hs]. constructor; [exact Hf|now apply IH].
Qed.

Lemma transpose_lists_Forall_elem :
  forall (A : Type) (P : A -> Prop) (width : nat) (rows : list (list (list A))),
    Forall (Forall (Forall P)) rows ->
    Forall (Forall (Forall P)) (array_ops.transpose_lists width rows).
Proof.
  intros A P width rows Hrows. unfold array_ops.transpose_lists.
  apply Forall_forall. intros col Hcol. apply in_map_iff in Hcol.
  destruct Hcol as (j & <- & _). apply Forall_forall. intros cell Hcell.
  apply in_map_iff in Hcell. destruct Hcell as (row & <- & Hrow).
  rewrite Forall_forall in Hrows. specialize (Hrows row Hrow).
  destruct (nth_in_or_default j row []) as [Hin|Hdef].
  - rewrite Forall_forall in Hrows. now apply Hrows.
  - rewrite Hdef. constructor.
Qed.

(** With no trial the draws are empty, and whatever is returned holds
    zeros only. *)
Lemma sample_n_zero_trials :
  forall (entropy : Z) (d : Multinomial.t F) (n : nat) (seed : option Z)
         (x : F) (L M : ndarray F) (bs : list nat) (k : nat) (r : ndarray F),
    (forall r, static_ndims (Multinomial.total_count d) = Some r -> r = 0) ->
    eval (Multinomial.total_count d) = Val (scalar x) ->
    Multinomial.logits d = Val L -> shape L = bs ++ [k] -> well_formed L ->
    Multinomial._mean_val d = Val M -> shape M = bs ++ [k] ->
    0 < k ->
    trunc x = 0%Z ->
    Multinomial._sample_n entropy d n seed = Return (Val r) ->
    shape r = n :: bs ++ [k]
    /\ length (values r) = numel (n :: bs ++ [k])
    /\ Forall (fun v => v = zero) (values r).
Proof.
  intros entropy d n seed x L M bs k r Hstat Htc Hl HsL HwL Hm HsM Hk Hnd.
  rewrite (sample_n_prefix entropy d n seed x L M bs k Hstat Htc Hl HsL HwL Hm
             HsM Hk).
  rewrite Hnd. change (int32_cast 0) with 0%Z.
  unfold math_ops.int_multiply, scalar at 1, tmap. cbn [map shape values].
  rewrite Z.mul_0_r. change (int32_wrap 0) with 0%Z.
  change (mk_ndarray [] [0%Z]) with (scalar 0%Z).
  rewrite sampler_draws by lia.
  cbn [ev_bind array_ops.pack scalar shape values Z.to_nat].
  rewrite draws_of_none.
  destruct (reshape_infer_empty (A := Z) (numel bs) n 0%Z) as [m Hr];
    [lia|now right|].
  rewrite Hr. cbn [ev_bind Z.to_nat].
  rewrite (reduce_sum_axis_m2 _ [m; n] 0 k) by reflexivity.
  cbn [ev_bind array_ops.one_hot values shape map concat Nat.mul].
  set (vals := concat (map (fun block : list F =>
                              math_ops.sum_columns k (chunks k 0 block))
                           (chunks 0 (numel [m; n]) []))).
  assert (Hvals : Forall (fun v : F => v = zero) vals).
  { unfold vals. apply (proj2 (Forall_concat _ _)).
    apply Forall_forall. intros row Hrow.
    apply in_map_iff in Hrow. destruct Hrow as (block & <- & _).
    cbn [chunks]. unfold math_ops.sum_columns. apply Forall_forall.
    intros v Hv. apply in_map_iff in Hv. now destruct Hv as (c & <- & _). }
  unfold array_ops.transpose_102. cbn [shape app values ev_bind].
  set (tv := concat (concat (array_ops.transpose_lists n
                               (chunks n m (chunks k (m * n) vals))))).
  assert (Htv : Forall (fun v : F => v = zero) tv).
  { unfold tv. apply (proj2 (Forall_concat _ _)).
    apply (proj2 (Forall_concat _ _)).
    apply transpose_lists_Forall_elem.
    apply chunks_Forall_elem. apply chunks_Forall_elem. exact Hvals. }
  change ([n] ++ bs ++ [k]) with (n :: bs ++ [k]).
  destruct (Nat.eq_dec (length tv) (numel (n :: bs ++ [k]))) as [Heq|Hne].
  - rewrite (reshape_exact (mk_ndarray [n; m; k] tv) (n :: bs ++ [k]) Heq).
    intros H. injection H as <-. cbn [shape values].
    split; [reflexivity|]. split; [exact Heq|exact Htv].
  - rewrite (reshape_mismatch (mk_ndarray [n; m; k] tv) (n :: bs ++ [k]) Hne).
    discriminate.
Qed.

Lemma nth_map_in_range :
  forall (A B : Type) (f : A -> B) (l : list A) (i : nat) (da : A) (db : B),
    i < length l -> nth i (map f l) db = f (nth i l da).
Proof.
  intros A B f l i da db Hi.
  rewrite (nth_indep _ db (f da)) by now rewrite length_map.
  apply map_nth.
Qed.

Lemma sample_values_row :
  forall (stream : Z) (L : list F) (b k n nd i j : nat),
    i < n -> j < b ->
    nth (i * b + j) (chunks k (n * b) (sample_values stream L b k n nd)) []
    = count_vector k
        (nth (j * n + i)
             (chunks nd (b * n) (draws_of stream (chunks k b L) (n * nd))) []).
Proof.
  intros stream L b k n nd i j Hi Hj. unfold sample_values.
  set (draws := draws_of stream (chunks k b L) (n * nd)).
  set (v := map (count_vector k) (chunks nd (b * n) draws)).
  assert (Hlv : length v = b * n)
    by (unfold v; now rewrite length_map, chunks_length).
  assert (Hv : Forall (fun x => length x = k) v).
  { apply Forall_forall. intros x Hx. apply in_map_iff in Hx.
    destruct Hx as (run & <- & _). apply sum_columns_length. }
  set (T := array_ops.transpose_lists n (chunks n b v)).
  assert (HT : Forall (fun col => length col = b) T).
  { eapply Forall_impl; [|apply transpose_lists_rows_length].
    intros col Hcol. now rewrite Hcol, chunks_length. }
  assert (HlT : length (concat T) = n * b).
  { rewrite (length_concat_const b _ HT). unfold T.
    now rewrite transpose_lists_length. }
  rewrite <- HlT at 1. rewrite chunks_concat.
  2:{ apply Forall_forall. intros x Hx. apply transpose_lists_In in Hx.
      - rewrite concat_chunks in Hx by exact Hlv.
        rewrite Forall_forall in Hv. now apply Hv.
      - apply chunks_Forall_length. exact Hlv. }
  rewrite (nth_concat_const b T i j [] HT Hj). unfold T.
  rewrite transpose_lists_nth by exact Hi.
  rewrite (nth_map_in_range _ _ _ _ _ [] []) by now rewrite chunks_length.
  rewrite nth_chunks by exact Hj.
  rewrite nth_firstn. replace (i <? n) with true by (symmetry; now apply Nat.ltb_lt).
  rewrite nth_skipn. unfold v.
  apply nth_map_in_range. rewrite chunks_length. nia.
Qed.

Lemma draws_in_range :
  forall (stream : Z) (L : list F) (b k m : nat),
    categorical_in_range -> 0 < k -> length L = b * k ->
    Forall (fun c => (0 <= c < Z.of_nat k)%Z)
           (draws_of stream (chunks k b L) m).
Proof.
  intros stream L b k m Hcat Hk HL. apply Forall_forall. intros c Hc.
  unfold draws_of in Hc. apply in_concat in Hc. destruct Hc as (l & Hl & Hc).
  apply in_map_iff in Hl. destruct Hl as ([i row] & <- & Hir).
  apply in_map_iff in Hc. destruct Hc as (j & <- & _). cbn [fst snd].
  apply in_combine_r in Hir.
  apply chunks_In_length in Hir; [|exact HL].
  rewrite <- Hir. apply Hcat. intros ->. simpl in Hir. lia.
Qed.
End Sampling.

(** ** Sums in exact arithmetic *)

Section ExactSums.
Context {F : Type} {AR : Arith F} {CH : Checks F} {EX : @ExactArith F AR CH}.

Lemma add_zero_r : forall x : F, add x zero = x.
Proof. intro x. now rewrite add_comm, add_zero_l. Qed.

Lemma fold_left_add :
  forall (l : list F) (x : F),
    fold_left add l x = add x (fold_right add zero l).
Proof.
  induction l as [|y l IH]; intro x; simpl.
  - now rewrite add_zero_r.
  - now rewrite IH, add_assoc.
Qed.

Lemma sum_fold_right :
  forall l : list F, math_ops.sum l = fold_right add zero l.
Proof.
  intros [|x l]; simpl; [reflexivity | apply fold_left_add].
Qed.

Lemma sum_cons :
  forall (x : F) (l : list F), math_ops.sum (x :: l) = add x (math_ops.sum l).
Proof. intros x l. now rewrite !sum_fold_right. Qed.

Lemma sum_map_add :
  forall (A : Type) (f g : A -> F) (l : list A),
    math_ops.sum (map (fun c => add (f c) (g c)) l)
    = add (math_ops.sum (map f l)) (math_ops.sum (map g l)).
Proof.
  intros A f g l. induction l as [|c l IH].
  - simpl. now rewrite add_zero_l.
  - cbn [map]. rewrite !sum_cons, IH, !add_assoc. f_equal.
    rewrite <- !add_assoc. f_equal. apply add_comm.
Qed.

Lemma sum_map_zero :
  forall (A : Type) (l : list A), math_ops.sum (map (fun _ => zero) l) = zero.
Proof.
  intros A l. induction l as [|c l IH]; [reflexivity|].
  cbn [map]. now rewrite sum_cons, IH, add_zero_l.
Qed.

Lemma sum_one_hot_seq :
  forall (i : Z) (len start : nat),
    math_ops.sum (map (fun c => if (Z.of_nat c =? i)%Z then one else zero)
                      (seq start len))
    = if ((Z.of_nat start <=? i) && (i <? Z.of_nat (start + len)))%Z
      then one else zero.
Proof.
  intros i len. induction len as [|len IH]; intro start.
  - simpl. rewrite Nat.add_0_r.
    destruct (Z.leb_spec (Z.of_nat start) i), (Z.ltb_spec i (Z.of_nat start));
      try reflexivity; lia.
  - cbn [seq map]. rewrite sum_cons, IH.
    destruct (Z.eqb_spec (Z.of_nat start) i) as [E|E].
    + replace ((Z.of_nat (S start) <=? i)%Z) with false
        by (symmetry; apply Z.leb_gt; lia).
      replace ((Z.of_nat start <=? i)%Z) with true
        by (symmetry; apply Z.leb_le; lia).
      replace ((i <? Z.of_nat (start + S len))%Z) with true
        by (symmetry; apply Z.ltb_lt; lia).
      simpl. apply add_zero_r.
    + rewrite add_zero_l.
      replace (start + S len) with (S start + len) by lia.
      destruct (Z.leb_spec (Z.of_nat (S start)) i),
               (Z.leb_spec (Z.of_nat start) i); try reflexivity; lia.
Qed.

Lemma sum_one_hot_row :
  forall (k : nat) (i : Z),
    (0 <= i < Z.of_nat k)%Z -> math_ops.sum (array_ops.one_hot_row k i) = one.
Proof.
  intros k i Hi. unfold array_ops.one_hot_row. rewrite sum_one_hot_seq.
  replace ((Z.of_nat 0 <=? i)%Z) with true by (symmetry; apply Z.leb_le; lia).
  replace ((i <? Z.of_nat (0 + k))%Z) with true
    by (symmetry; apply Z.ltb_lt; lia).
  reflexivity.
Qed.

Lemma map_nth_seq_all :
  forall (l : list F) (d : F),
    map (fun c => nth c l d) (seq 0 (length l)) = l.
Proof.
  intros l d. induction l as [|x l IH]; simpl.
  - reflexivity.
  - f_equal. rewrite <- seq_shift, map_map. exact IH.
Qed.

(** The count vector of a run of draws sums to the length of the run. *)
Lemma sum_count_vector :
  forall (k : nat) (run : list Z),
    Forall (fun c => (0 <= c < Z.of_nat k)%Z) run ->
    math_ops.sum (math_ops.sum_columns k (map (array_ops.one_hot_row k) run))
    = of_int (Z.of_nat (length run)).
Proof.
  intros k run Hrun. unfold math_ops.sum_columns.
  induction Hrun as [|c run Hc _ IH].
  - simpl. rewrite sum_map_zero. symmetry. apply of_int_zero.
  - cbn [map length].
    rewrite (map_ext _ (fun col =>
               add (nth col (array_ops.one_hot_row k c) zero)
                   (math_ops.sum (map (fun row => nth col row zero)
                                      (map (array_ops.one_hot_row k) run)))))
      by (intro col; apply sum_cons).
    rewrite sum_map_add, IH.
    assert (E : map (fun col => nth col (array_ops.one_hot_row k c) zero)
                    (seq 0 k) = array_ops.one_hot_row k c).
    { transitivity
        (map (fun col => nth col (array_ops.one_hot_row k c) zero)
             (seq 0 (length (array_ops.one_hot_row k c : list F)))).
      - now rewrite one_hot_row_length.
      - apply map_nth_seq_all. }
    rewrite E, sum_one_hot_row by exact Hc.
    rewrite Nat2Z.inj_succ, <- Z.add_1_r, of_int_succ. apply add_comm.
Qed.
End ExactSums.

Section SamplingBehaviour.
Context {F : Type} {AR : Arith F} {CH : Checks F} {RO : RandomOps F}.

(** C4. [_sample_n] raises NotImplementedError when the static rank of
    [total_count] is known and not 0.  When it is unknown and
    [validate_args] is set, [_sample_n] returns, and evaluating what it
    returns fails with the rank assertion as soon as [total_count] is not
    a scalar.  When it is unknown and [validate_args] is not set, nothing
    is raised and nothing is asserted: [_sample_n] returns what it
    returns for a [total_count] known to be a scalar. *)
Theorem sample_n_rank_errors :
  forall (entropy : Z) (d : Multinomial.t F) (n : nat) (seed : option Z),
    (forall r, static_ndims (Multinomial.total_count d) = Some r -> r <> 0 ->
       Multinomial._sample_n entropy d n seed
       = Raise (NotImplementedError
                  "Sample only supported for scalar number of draws."))
    /\ (static_ndims (Multinomial.total_count d) = None ->
        Multinomial.validate_args d = true ->
        forall t, eval (Multinomial.total_count d) = Val t -> shape t <> [] ->
          Multinomial._sample_n entropy d n seed
          = Return (Fail (InvalidArgumentError
                            "Sample only supported for scalar number of draws.")))
    /\ (static_ndims (Multinomial.total_count d) = None ->
        Multinomial.validate_args d = false ->
        (exists g, Multinomial._sample_n entropy d n seed = Return g)
        /\ Multinomial._sample_n entropy d n seed
           = Multinomial._sample_n entropy (with_scalar_rank d) n seed).
Proof.
  intros entropy d n seed. split; [|split].
  - intros r Hr Hr0. unfold Multinomial._sample_n. rewrite Hr.
    replace (r =? 0) with false by (symmetry; now apply Nat.eqb_neq).
    reflexivity.
  - intros Hs Hva t Ht Hrank. unfold Multinomial._sample_n.
    rewrite Hs, Hva, Ht. cbn [ev_map ev_bind py_bind].
    unfold check_ops.assert_rank. cbn [shape math_ops.cast_int32 tmap].
    destruct (shape t) as [|a s]; [congruence|]. reflexivity.
  - intros Hs Hva. unfold Multinomial._sample_n. rewrite Hs, Hva.
    cbn [py_bind]. split; [eexists; reflexivity | reflexivity].
Qed.

Lemma chunks_In_elem :
  forall (A : Type) (size count : nat) (l c : list A) (x : A),
    length l = count * size -> In c (chunks size count l) -> In x c -> In x l.
Proof.
  intros A size count l c x Hl Hc Hx.
  rewrite <- (concat_chunks size count l Hl). apply in_concat. now exists c.
Qed.

(** C2, for at least one trial.  With a scalar [total_count] whose integer
    part [N] is at least 1, [N] and [n * N] both below [2 ^ 31],
    [_sample_n] draws, for each of the [B] rows of the logits flattened to
    [B, k], [n * N] class indices in [0, k); it returns a tensor of shape
    [n, *batch_shape, k] whose row [i, b] is the sum of the one-hot
    encodings of run [i] of the draws of row [b], the draws being cut into
    [B * n] runs of [N] ([B, n, N]). *)
Theorem sample_n_counts :
  forall (entropy : Z) (d : Multinomial.t F) (n : nat) (seed : option Z)
         (x : F) (L M : ndarray F) (bs : list nat) (k : nat),
    categorical_in_range ->
    (forall r, static_ndims (Multinomial.total_count d) = Some r -> r = 0) ->
    eval (Multinomial.total_count d) = Val (scalar x) ->
    Multinomial.logits d = Val L -> shape L = bs ++ [k] -> well_formed L ->
    Multinomial._mean_val d = Val M -> shape M = bs ++ [k] ->
    0 < k ->
    (0 < trunc x < 2 ^ 31)%Z ->
    (Z.of_nat n * trunc x < 2 ^ 31)%Z ->
    let nd := Z.to_nat (trunc x) in
    let B := numel bs in
    exists draws r,
      random_ops.multinomial entropy (mk_ndarray [B; k] (values L))
        (scalar (Z.of_nat n * trunc x)%Z) seed = Val draws
      /\ shape draws = [B; n * nd]
      /\ Forall (fun c => (0 <= c < Z.of_nat k)%Z) (values draws)
      /\ Multinomial._sample_n entropy d n seed = Return (Val r)
      /\ shape r = n :: bs ++ [k]
      /\ well_formed r
      /\ (forall i b, i < n -> b < B ->
            nth (i * B + b) (chunks k (n * B) (values r)) []
            = math_ops.sum_columns k
                (map (array_ops.one_hot_row k)
                     (nth (b * n + i) (chunks nd (B * n) (values draws)) []))).
Proof.
  intros entropy d n seed x L M bs k Hcat Hstat Htc Hl HsL HwL Hm HsM Hk
         Hnd Hmul nd B.
  exists (mk_ndarray [B; n * nd]
            (draws_of (stream_of entropy seed) (chunks k B (values L)) (n * nd))).
  eexists.
  assert (HL : length (values L) = B * k).
  { unfold well_formed in HwL. rewrite HwL, HsL, numel_app. simpl. lia. }
  split.
  { rewrite sampler_draws by lia.
    replace (Z.to_nat (Z.of_nat n * trunc x)) with (n * nd)
      by (unfold nd; lia).
    reflexivity. }
  split; [reflexivity|].
  split; [now apply draws_in_range|].
  split.
  { exact (sample_n_evaluates entropy d n seed x L M bs k Hstat Htc Hl
             HsL HwL Hm HsM Hk Hnd Hmul). }
  split; [reflexivity|].
  split.
  { unfold well_formed. cbn [values shape numel fold_right].
    rewrite sample_values_length. fold (numel (bs ++ [k])).
    rewrite numel_app. simpl. lia. }
  intros i b Hi Hb. cbn [values]. now apply sample_values_row.
Qed.

Lemma sum_zeros :
  forall (EX : @ExactArith F AR CH) (l : list F),
    Forall (fun v => v = zero) l -> math_ops.sum l = zero.
Proof.
  intros EX l Hl. induction Hl as [|v l Hv _ IH]; [reflexivity|].
  rewrite (sum_cons (EX := EX)), Hv, IH. apply (add_zero_l (ExactArith := EX)).
Qed.

End SamplingBehaviour.

(** ** The rationals as an element type *)

Lemma Q_add_comm : forall x y : Q, Qplus x y = Qplus y x.
Proof.
  intros [a b] [c d]. unfold Qplus. simpl. f_equal.
  - ring.
  - apply Pos.mul_comm.
Qed.

Lemma Q_add_assoc : forall x y z : Q, Qplus (Qplus x y) z = Qplus x (Qplus y z).
Proof.
  intros [a b] [c d] [e f]. unfold Qplus. simpl. f_equal.
  - rewrite !Pos2Z.inj_mul. ring.
  - symmetry. apply Pos.mul_assoc.
Qed.

Lemma Q_add_zero_l : forall x : Q, Qplus 0 x = x.
Proof.
  intros [a b]. unfold Qplus. simpl. f_equal. lia.
Qed.

Lemma Q_mul_comm : forall x y : Q, Qmult x y = Qmult y x.
Proof.
  intros [a b] [c d]. unfold Qmult. simpl. f_equal.
  - ring.
  - apply Pos.mul_comm.
Qed.

Lemma Q_mul_assoc : forall x y z : Q, Qmult (Qmult x y) z = Qmult x (Qmult y z).
Proof.
  intros [a b] [c d] [e f]. unfold Qmult. simpl. f_equal.
  - ring.
  - symmetry. apply Pos.mul_assoc.
Qed.

Lemma Q_mul_one_r : forall x : Q, Qmult x 1 = x.
Proof.
  intros [a b]. unfold Qmult. simpl. f_equal.
  - ring.
  - apply Pos.mul_1_r.
Qed.

Lemma Q_of_int_succ :
  forall z : Z, inject_Z (z + 1) = Qplus (inject_Z z) 1.
Proof.
  intro z. unfold inject_Z, Qplus. simpl. f_equal. ring.
Qed.

Lemma Q_exact : @ExactArith Q Q_arith Q_checks.
Proof.
  constructor.
  - exact Q_add_comm.
  - exact Q_add_assoc.
  - exact Q_add_zero_l.
  - exact Q_mul_comm.
  - exact Q_mul_assoc.
  - exact Q_mul_one_r.
  - reflexivity.
  - exact Q_of_int_succ.
Qed.

Lemma Q_random_in_range : @categorical_in_range Q Q_random.
Proof.
  intros stream b j row Hrow. simpl.
  apply Z.mod_pos_bound. destruct row; [congruence | simpl; lia].
Qed.

(** [trunc] on the rationals rounds toward zero. *)
Lemma Q_trunc_toward_zero :
  forall q : Q,
    (Qle 0 q -> Qle (inject_Z (trunc q)) q /\ Qlt q (inject_Z (trunc q + 1)))
    /\ (Qle q 0 -> Qle q (inject_Z (trunc q)) /\ Qlt (inject_Z (trunc q - 1)) q).
Proof.
  intros [a b]. simpl. unfold Qle, Qlt. simpl.
  pose proof (Z.quot_rem' a (Z.pos b)) as Hqr.
  split; intro Ha.
  - assert (Ha' : (0 <= a)%Z) by lia.
    pose proof (Z.rem_bound_pos a (Z.pos b) Ha' (Pos2Z.is_pos b)). nia.
  - assert (Ha' : (a <= 0)%Z) by lia.
    pose proof (Z.rem_bound_pos_neg a (Z.pos b) (Pos2Z.is_pos b) Ha'). nia.
Qed.

(** ** Sampling from a fair coin over the rationals *)

Lemma sample_n_counts_witness :
  exists r,
    Multinomial._sample_n 0 (Q_coin 4) 3 (Some 42%Z) = Return (Val r)
    /\ shape r = [3; 2]
    /\ well_formed r.
Proof.
  destruct (sample_n_counts 0%Z (Q_coin 4) 3 (Some 42%Z) 4%Q
              (vector [0; 0]%Q) (vector [4 # 2; 4 # 2]%Q) [] 2
              Q_random_in_range)
    as (draws & r & _ & _ & _ & Hr & Hs & Hw & _).
  - intros r Hr. now injection Hr as <-.
  - reflexivity.
  - reflexivity.
  - reflexivity.
  - reflexivity.
  - reflexivity.
  - reflexivity.
  - lia.
  - split; vm_compute; reflexivity.
  - vm_compute. reflexivity.
  - exists r. repeat split; assumption.
Defined.

(** With no trial at all the draws are empty, the reshape to [-1, n, 0]
    yields no count vector, and the last reshape has nothing to fill
    [n, *batch_shape, k] with.  A [total_count] of [2 ^ 31] is cast to the
    smallest int32, and [2] times [2 ^ 30] trials wrap around to it: the
    sampler rejects the negative number of draws. *)
Lemma sample_n_fails_outside_range :
  (Multinomial._sample_n 0 (Q_coin 0) 2 (Some 42%Z)
   = Return (Fail (InvalidArgumentError
       "Input to reshape has a different number of values"))
   /\ ~ (exists r, Multinomial._sample_n 0 (Q_coin 0) 2 (Some 42%Z)
                   = Return (Val r) /\ shape r = [2; 2]))
  /\ (Multinomial._sample_n 0 (Q_coin (inject_Z (2 ^ 31))) 1 (Some 42%Z)
      = Return (Fail (InvalidArgumentError "num_samples should be nonnegative"))
      /\ ~ (exists r, Multinomial._sample_n 0 (Q_coin (inject_Z (2 ^ 31))) 1
                        (Some 42%Z)
                      = Return (Val r) /\ shape r = [1; 2]))
  /\ (Multinomial._sample_n 0 (Q_coin (inject_Z (2 ^ 30))) 2 (Some 42%Z)
      = Return (Fail (InvalidArgumentError "num_samples should be nonnegative"))
      /\ ~ (exists r, Multinomial._sample_n 0 (Q_coin (inject_Z (2 ^ 30))) 2
                        (Some 42%Z)
                      = Return (Val r) /\ shape r = [2; 2])).
Proof.
  split; [|split]; split.
  - vm_compute. reflexivity.
  - intros (r & Hr & _). vm_compute in Hr. discriminate Hr.
  - vm_compute. reflexivity.
  - intros (r & Hr & _). vm_compute in Hr. discriminate Hr.
  - vm_compute. reflexivity.
  - intros (r & Hr & _). vm_compute in Hr. discriminate Hr.
Qed.


Lemma sample_n_rank_errors_witness :
  Multinomial._sample_n 0 Q_two_coins 3 (Some 42%Z)
  = Raise (NotImplementedError "Sample only supported for scalar number of draws.")
  /\ Multinomial._sample_n 0 (Q_coin_unknown_rank (vector [4; 5]%Q) true) 3
       (Some 42%Z)
     = Return (Fail (InvalidArgumentError
                       "Sample only supported for scalar number of draws."))
  /\ Multinomial._sample_n 0 (Q_coin_unknown_rank (scalar 4%Q) false) 3
       (Some 42%Z)
     = Multinomial._sample_n 0 (Q_coin 4) 3 (Some 42%Z).
Proof.
  split; [|split].
  - apply (proj1 (sample_n_rank_errors 0%Z Q_two_coins 3 (Some 42%Z)) 1 eq_refl).
    discriminate.
  - apply (proj1 (proj2 (sample_n_rank_errors 0%Z
                   (Q_coin_unknown_rank (vector [4; 5]%Q) true) 3 (Some 42%Z)))
             eq_refl eq_refl (vector [4; 5]%Q) eq_refl).
    discriminate.
  - apply (proj2 (proj2 (proj2 (sample_n_rank_errors 0%Z
                   (Q_coin_unknown_rank (scalar 4%Q) false) 3 (Some 42%Z)))
                   eq_refl eq_refl)).
Defined.

(** Without a seed the draws follow the entropy of the run. *)
Example sample_n_unseeded_varies :
  Multinomial._sample_n 0 (Q_coin 1) 1 None
  <> Multinomial._sample_n 1 (Q_coin 1) 1 None.
Proof. vm_compute. discriminate. Qed.

(** ** Moments *)

Section Moments.
Context {F : Type} {AR : Arith F}.

Lemma rev_app_two :
  forall (bs : list nat) (a b : nat), rev (bs ++ [a; b]) = b :: a :: rev bs.
Proof. intros bs a b. now rewrite rev_app_distr. Qed.

Lemma chunks_singletons :
  forall (A : Type) (l : list A),
    chunks 1 (length l) l = map (fun x => [x]) l.
Proof.
  intros A l. induction l as [|x l IH]; simpl; [reflexivity | now rewrite IH].
Qed.

Lemma sum_singleton : forall x : F, math_ops.sum [x] = x.
Proof. reflexivity. Qed.

(** The block of a [k x 1] by [1 x k] product is the outer product. *)
Lemma matmul_block_outer :
  forall (k : nat) (a b : list F),
    length a = k -> length b = k ->
    math_ops.matmul_block k 1 k a b
    = concat (map (fun x => map (fun y => mul x y) b) a).
Proof.
  intros k a b Ha Hb. subst k. unfold math_ops.matmul_block. f_equal.
  rewrite chunks_singletons, map_map.
  apply map_ext. intro x.
  cbn [chunks map]. rewrite <- Hb, firstn_all.
  transitivity (map (fun y => mul x y)
                    (map (fun j => nth j b zero) (seq 0 (length b)))).
  - rewrite map_map. reflexivity.
  - now rewrite map_nth_seq_all.
Qed.

Lemma variance_values :
  forall (d : Multinomial.t F) (M P : ndarray F),
    Multinomial.probs_broadcast d = Val P ->
    Multinomial._mean_val d = Val M ->
    shape P = shape M -> well_formed M -> well_formed P ->
    Multinomial._variance d
    = Val (mk_ndarray (shape M)
             (map2 sub (values M) (map2 mul (values M) (values P)))).
Proof.
  intros d M P HP HM Hs HwM HwP. unfold Multinomial._variance.
  rewrite HP, HM. cbn [ev_bind]. unfold math_ops.multiply, math_ops.subtract.
  rewrite broadcast_op_same by (auto; now symmetry).
  cbn [ev_bind]. rewrite broadcast_op_same; [reflexivity | reflexivity | exact HwM |].
  unfold well_formed in *. cbn [values shape].
  rewrite length_map2; [exact HwM|]. now rewrite HwM, HwP, Hs.
Qed.

Lemma map_combine_chunks_ext :
  forall (A B : Type) (f g : list A * list A -> B) (size count : nat)
         (l l' : list A),
    length l = count * size -> length l' = count * size ->
    (forall a b, length a = size -> length b = size -> f (a, b) = g (a, b)) ->
    map f (combine (chunks size count l) (chunks size count l'))
    = map g (combine (chunks size count l) (chunks size count l')).
Proof.
  intros A B f g size count l l' Hl Hl' Hfg. apply map_ext_in.
  intros [a b] Hab. apply Hfg.
  - apply in_combine_l in Hab. exact (chunks_In_length size count l a Hl Hab).
  - apply in_combine_r in Hab. exact (chunks_In_length size count l' b Hl' Hab).
Qed.

Lemma length_outer :
  forall (k : nat) (m p : list F),
    length m = k -> length p = k ->
    length (concat (map (fun x => map (fun y => mul x y) p) m)) = k * k.
Proof.
  intros k m p Hm Hp. rewrite (length_concat_const k).
  - now rewrite length_map, Hm.
  - apply Forall_forall. intros r Hr. apply in_map_iff in Hr.
    destruct Hr as (x & <- & _). now rewrite length_map.
Qed.

Lemma chunks_map :
  forall (A B : Type) (f : A -> B) (size count : nat) (l : list A),
    chunks size count (map f l) = map (map f) (chunks size count l).
Proof.
  intros A B f size count. induction count as [|c IH]; intro l; simpl.
  - reflexivity.
  - now rewrite firstn_map, skipn_map, IH.
Qed.

Lemma combine_map_l :
  forall (A B C : Type) (f : A -> B) (l : list A) (l' : list C),
    combine (map f l) l' = map (fun xy => (f (fst xy), snd xy)) (combine l l').
Proof.
  intros A B C f l. induction l as [|x l IH]; intros [|y l']; simpl;
    try reflexivity.
  now rewrite IH.
Qed.

Lemma covariance_values :
  forall (d : Multinomial.t F) (M P : ndarray F) (bs : list nat) (k : nat),
    Multinomial.probs_broadcast d = Val P ->
    Multinomial._mean_val d = Val M ->
    shape M = bs ++ [k] -> shape P = bs ++ [k] ->
    well_formed M -> well_formed P ->
    Multinomial._covariance d
    = Val (mk_ndarray (bs ++ [k; k])
             (concat
                (map (fun mpv => covariance_block k (fst (fst mpv))
                                   (snd (fst mpv)) (snd mpv))
                     (combine
                        (combine (chunks k (numel bs) (values M))
                                 (chunks k (numel bs) (values P)))
                        (chunks k (numel bs)
                           (map2 sub (values M)
                                 (map2 mul (values M) (values P)))))))).
Proof.
  intros d M P bs k HP HM HsM HsP HwM HwP.
  assert (HlM : length (values M) = numel bs * k).
  { unfold well_formed in HwM. rewrite HwM, HsM, numel_app. simpl. lia. }
  assert (HlP : length (values P) = numel bs * k).
  { unfold well_formed in HwP. rewrite HwP, HsP, numel_app. simpl. lia. }
  unfold Multinomial._covariance.
  rewrite (variance_values d M P HP HM (eq_trans HsP (eq_sym HsM)) HwM HwP).
  rewrite HP, HM. cbn [ev_bind].
  unfold math_ops.matmul, array_ops.newaxis, array_ops.newaxis_before_last.
  cbn [shape values]. rewrite HsM, HsP, removelast_last, last_dim_app.
  rewrite <- !app_assoc. cbn [app]. rewrite !rev_app_two.
  destruct (list_eq_dec Nat.eq_dec (rev bs) (rev bs)) as [_|Hne];
    [|now destruct Hne].
  cbn [Nat.eqb andb ev_bind]. rewrite rev_involutive.
  rewrite Nat.mul_1_r, Nat.mul_1_l.
  unfold array_ops.matrix_set_diag, math_ops.negative, tmap.
  cbn [shape values]. rewrite rev_app_two, rev_involutive, Nat.min_id.
  destruct (list_eq_dec Nat.eq_dec (bs ++ [k]) (bs ++ [k])) as [_|Hne];
    [|now destruct Hne].
  f_equal. f_equal. f_equal.
  rewrite (map_combine_chunks_ext _ _
             (fun ab => math_ops.matmul_block k 1 k (fst ab) (snd ab))
             (fun ab => concat (map (fun x => map (fun y => mul x y) (snd ab))
                                    (fst ab)))
             k (numel bs) (values M) (values P) HlM HlP)
    by (intros a b Ha Hb; now apply matmul_block_outer).
  set (pairs := combine (chunks k (numel bs) (values M))
                        (chunks k (numel bs) (values P))).
  assert (Hpairs : length pairs = numel bs).
  { unfold pairs. rewrite length_combine, !chunks_length. lia. }
  rewrite chunks_map. rewrite <- Hpairs at 1.
  rewrite <- (length_map (fun ab : list F * list F =>
                concat (map (fun x => map (fun y => mul x y) (snd ab)) (fst ab)))
              pairs).
  rewrite chunks_concat.
  2:{ apply Forall_forall. intros blk Hblk. apply in_map_iff in Hblk.
      destruct Hblk as ([a b] & <- & Hab). cbn [fst snd].
      apply length_outer.
      - apply in_combine_l in Hab.
        exact (chunks_In_length k (numel bs) _ a HlM Hab).
      - apply in_combine_r in Hab.
        exact (chunks_In_length k (numel bs) _ b HlP Hab). }
  rewrite map_map, combine_map_l, map_map.
  apply map_ext. intros [[a b] v]. reflexivity.
Qed.

Lemma set_diag_row_length :
  forall (i : nat) (row d : list F),
    length (array_ops.set_diag_row i row d) = length row.
Proof.
  intros i row d. unfold array_ops.set_diag_row.
  rewrite length_map, length_combine, length_seq. lia.
Qed.

Lemma set_diag_row_nth :
  forall (i j : nat) (row d : list F) (z : F),
    j < length row -> i < length d ->
    nth j (array_ops.set_diag_row i row d) z
    = if j =? i then nth i d z else nth j row z.
Proof.
  intros i j row d z Hj Hi. unfold array_ops.set_diag_row.
  rewrite (nth_map_in_range _ _ _ _ _ (0, z) z)
    by (rewrite length_combine, length_seq; lia).
  rewrite combine_nth by now rewrite length_seq.
  rewrite seq_nth by exact Hj. cbn [fst snd Nat.add].
  destruct (j =? i); [apply nth_indep; exact Hi | reflexivity].
Qed.

Lemma outer_rows :
  forall (k : nat) (m p : list F),
    length m = k -> length p = k ->
    chunks k k (map neg (concat (map (fun x => map (fun y => mul x y) p) m)))
    = map (fun x => map neg (map (fun y => mul x y) p)) m.
Proof.
  intros k m p Hm Hp. rewrite chunks_map.
  rewrite <- Hm at 2.
  rewrite <- (length_map (fun x => map (fun y => mul x y) p) m).
  rewrite chunks_concat.
  - now rewrite map_map.
  - apply Forall_forall. intros r Hr. apply in_map_iff in Hr.
    destruct Hr as (x & <- & _). now rewrite length_map.
Qed.

Lemma covariance_block_length :
  forall (k : nat) (m p v : list F),
    length m = k -> length p = k ->
    length (covariance_block k m p v) = k * k.
Proof.
  intros k m p v Hm Hp. unfold covariance_block.
  rewrite outer_rows by assumption.
  rewrite (length_concat_const k).
  - rewrite length_map, length_combine, length_seq, length_map, Hm. lia.
  - apply Forall_forall. intros r Hr. apply in_map_iff in Hr.
    destruct Hr as ([i row] & <- & Hir). cbn [fst snd].
    rewrite set_diag_row_length. apply in_combine_r in Hir.
    apply in_map_iff in Hir. destruct Hir as (x & <- & _).
    now rewrite !length_map.
Qed.

Lemma covariance_block_entry :
  forall (k : nat) (m p v : list F) (i j : nat),
    length m = k -> length p = k -> length v = k -> i < k -> j < k ->
    nth (i * k + j) (covariance_block k m p v) zero
    = if j =? i then nth i v zero
      else neg (mul (nth i m zero) (nth j p zero)).
Proof.
  intros k m p v i j Hm Hp Hv Hi Hj. unfold covariance_block.
  rewrite outer_rows by assumption.
  set (rows := map (fun x => map neg (map (fun y => mul x y) p)) m).
  assert (Hrows : length rows = k) by (unfold rows; now rewrite length_map).
  rewrite (nth_concat_const k).
  2:{ apply Forall_forall. intros r Hr. apply in_map_iff in Hr.
      destruct Hr as ([i' row] & <- & Hir). cbn [fst snd].
      rewrite set_diag_row_length. apply in_combine_r in Hir.
      unfold rows in Hir. apply in_map_iff in Hir.
      destruct Hir as (x & <- & _). now rewrite !length_map. }
  2:{ exact Hj. }
  rewrite (nth_map_in_range _ _ _ _ _ (0, []) [])
    by (rewrite length_combine, length_seq, Hrows; lia).
  rewrite combine_nth by now rewrite length_seq.
  rewrite seq_nth by exact Hi. cbn [fst snd Nat.add].
  unfold rows.
  rewrite (nth_map_in_range _ _ _ _ _ zero []) by now rewrite Hm.
  rewrite set_diag_row_nth by (rewrite ?length_map; lia).
  destruct (j =? i); [reflexivity|].
  rewrite (nth_map_in_range _ _ _ _ _ zero zero) by (rewrite length_map; lia).
  rewrite (nth_map_in_range _ _ _ _ _ zero zero) by lia.
  reflexivity.
Qed.

Lemma nth_chunks_flat :
  forall (A : Type) (size count b i : nat) (l : list A) (z : A),
    b < count -> i < size ->
    nth i (nth b (chunks size count l) []) z = nth (b * size + i) l z.
Proof.
  intros A size count b i l z Hb Hi.
  rewrite nth_chunks by exact Hb. rewrite nth_firstn.
  replace (i <? size) with true by (symmetry; now apply Nat.ltb_lt).
  now rewrite nth_skipn.
Qed.
End Moments.

(** ** Broadcast values *)

Lemma numel_repeat_one :
  forall (m : nat) (s : list nat), numel (repeat 1 m ++ s) = numel s.
Proof.
  induction m as [|m IH]; intro s; simpl; [reflexivity|].
  rewrite IH. lia.
Qed.

Lemma length_concat_repeat :
  forall (A : Type) (l : list A) (t : nat),
    length (concat (repeat l t)) = t * length l.
Proof.
  intros A l t. induction t as [|t IH]; simpl; [reflexivity|].
  now rewrite length_app, IH.
Qed.

Lemma broadcast_values_length :
  forall (A : Type) (src tgt : list nat),
    broadcastable src tgt ->
    forall v : list A,
      length v = numel src -> length (broadcast_values src tgt v) = numel tgt.
Proof.
  intros A src tgt Hb. induction Hb as [|s t src tgt Hst Hb IH]; intros v Hv.
  - exact Hv.
  - cbn [broadcast_values numel fold_right] in *. fold (numel src) in *.
    fold (numel tgt).
    assert (Hparts :
      length (concat (map (broadcast_values src tgt) (chunks (numel src) s v)))
      = s * numel tgt).
    { rewrite (length_concat_const (numel tgt)).
      - now rewrite length_map, chunks_length.
      - apply Forall_forall. intros c Hc. apply in_map_iff in Hc.
        destruct Hc as (c' & <- & Hc'). apply IH.
        apply (chunks_In_length (numel src) s v c'); [lia | exact Hc']. }
    destruct (Nat.eqb_spec s t) as [->|Hne].
    + exact Hparts.
    + destruct Hst as [-> | ->]; [now destruct Hne|].
      rewrite length_concat_repeat, Hparts. lia.
Qed.

Lemma broadcast_values_map :
  forall (A B : Type) (f : A -> B) (src tgt : list nat) (v : list A),
    broadcast_values src tgt (map f v) = map f (broadcast_values src tgt v).
Proof.
  intros A B f src. induction src as [|s src IH]; intros tgt v.
  - destruct tgt; reflexivity.
  - destruct tgt as [|t tgt]; [reflexivity|]. cbn [broadcast_values].
    assert (Hparts :
      concat (map (broadcast_values src tgt) (chunks (numel src) s (map f v)))
      = map f (concat (map (broadcast_values src tgt)
                           (chunks (numel src) s v)))).
    { rewrite chunks_map, map_map, concat_map, map_map.
      f_equal. apply map_ext. intro c. apply IH. }
    rewrite Hparts. destruct (s =? t); [reflexivity|].
    set (parts := concat (map (broadcast_values src tgt)
                              (chunks (numel src) s v))).
    now rewrite (concat_map f (repeat parts t)), map_repeat.
Qed.

Lemma broadcastable_ones :
  forall s : list nat, broadcastable (repeat 1 (length s)) s.
Proof.
  induction s as [|x s IH]; simpl; constructor; auto.
Qed.

Lemma broadcastable_refl : forall s : list nat, broadcastable s s.
Proof.
  induction s as [|x s IH]; constructor; auto.
Qed.

Lemma broadcast_rev_broadcastable :
  forall a b r : list nat,
    broadcast_rev a b = Some r ->
    broadcastable (a ++ repeat 1 (length r - length a)) r
    /\ broadcastable (b ++ repeat 1 (length r - length b)) r.
Proof.
  induction a as [|x a IH]; intros b r Hr.
  - simpl in Hr. injection Hr as <-. simpl.
    rewrite Nat.sub_0_r, Nat.sub_diag, app_nil_r.
    split; [apply broadcastable_ones | apply broadcastable_refl].
  - destruct b as [|y b].
    + simpl in Hr. injection Hr as <-. cbn [length app].
      rewrite Nat.sub_0_r, Nat.sub_diag, app_nil_r.
      split; [apply broadcastable_refl|].
      apply (broadcastable_ones (x :: a)).
    + simpl in Hr.
      destruct (broadcast_rev a b) as [r'|] eqn:E; [|discriminate].
      destruct (IH b r' E) as [Ha Hb].
      destruct (Nat.eqb_spec x y) as [Hxy|Hxy].
      * injection Hr as <-. subst y.
        split; constructor; auto.
      * destruct (Nat.eqb_spec x 1) as [Hx|Hx].
        { injection Hr as <-. split; constructor; auto. }
        destruct (Nat.eqb_spec y 1) as [Hy|Hy]; [|discriminate].
        injection Hr as <-. split; constructor; auto.
Qed.

Lemma Forall2_rev_both :
  forall (A B : Type) (R : A -> B -> Prop) (l : list A) (l' : list B),
    Forall2 R l l' -> Forall2 R (rev l) (rev l').
Proof.
  intros A B R l l' H. induction H as [|x y l l' Hxy _ IH]; simpl.
  - constructor.
  - apply Forall2_app; [exact IH | now constructor].
Qed.

Lemma broadcast_shapes_broadcastable :
  forall a b s : list nat,
    broadcast_shapes a b = Some s ->
    broadcastable (pad_shape (length s) a) s
    /\ broadcastable (pad_shape (length s) b) s.
Proof.
  intros a b s Hs. unfold broadcast_shapes in Hs.
  destruct (broadcast_rev (rev a) (rev b)) as [r|] eqn:E; [|discriminate].
  injection Hs as <-. destruct (broadcast_rev_broadcastable _ _ _ E) as [Ha Hb].
  unfold pad_shape. rewrite length_rev.
  split.
  - apply Forall2_rev_both in Ha.
    now rewrite rev_app_distr, rev_repeat, rev_involutive, length_rev in Ha.
  - apply Forall2_rev_both in Hb.
    now rewrite rev_app_distr, rev_repeat, rev_involutive, length_rev in Hb.
Qed.

Lemma broadcast_rev_comm :
  forall a b r : list nat,
    broadcast_rev a b = Some r -> broadcast_rev b a = Some r.
Proof.
  induction a as [|x a IH]; intros b r Hr.
  - simpl in Hr. injection Hr as <-. destruct b; reflexivity.
  - destruct b as [|y b]; [exact Hr|]. simpl in *.
    destruct (broadcast_rev a b) as [r'|] eqn:E; [|discriminate].
    rewrite (IH b r' E).
    destruct (Nat.eqb_spec x y) as [Hxy|Hxy].
    + subst y. now rewrite Nat.eqb_refl.
    + replace (y =? x) with false by (symmetry; apply Nat.eqb_neq; congruence).
      destruct (Nat.eqb_spec x 1) as [Hx|Hx].
      * replace (y =? 1) with false
          by (symmetry; apply Nat.eqb_neq; congruence).
        exact Hr.
      * destruct (Nat.eqb_spec y 1) as [Hy|Hy]; [exact Hr | discriminate].
Qed.

Lemma broadcast_shapes_comm :
  forall a b s : list nat,
    broadcast_shapes a b = Some s -> broadcast_shapes b a = Some s.
Proof.
  intros a b s Hs. unfold broadcast_shapes in *.
  destruct (broadcast_rev (rev a) (rev b)) as [r|] eqn:E; [|discriminate].
  now rewrite (broadcast_rev_comm _ _ _ E).
Qed.

(** A tensor with a last axis of size 1 broadcasts by repeating each of
    its elements along the last axis of the target. *)
Lemma concat_repeat_singleton :
  forall (A : Type) (x : A) (k : nat), concat (repeat [x] k) = repeat x k.
Proof.
  intros A x k. induction k as [|k IH]; simpl; [reflexivity | now rewrite IH].
Qed.

Lemma flat_map_concat :
  forall (A B : Type) (f : A -> list B) (ls : list (list A)),
    flat_map f (concat ls) = concat (map (flat_map f) ls).
Proof.
  intros A B f ls. induction ls as [|l ls IH]; simpl; [reflexivity|].
  now rewrite flat_map_app, IH.
Qed.

Lemma flat_map_concat_repeat :
  forall (A B : Type) (f : A -> list B) (l : list A) (t : nat),
    flat_map f (concat (repeat l t)) = concat (repeat (flat_map f l) t).
Proof.
  intros A B f l t. induction t as [|t IH]; simpl; [reflexivity|].
  now rewrite flat_map_app, IH.
Qed.

Lemma broadcast_values_last_one :
  forall (A : Type) (k : nat) (src tgt : list nat),
    length src = length tgt ->
    forall v : list A,
      length v = numel src ->
      broadcast_values (src ++ [1]) (tgt ++ [k]) v
      = flat_map (fun x => repeat x k) (broadcast_values src tgt v).
Proof.
  intros A k src. induction src as [|s src IH]; intros tgt Hlen v Hv.
  - destruct tgt; [|discriminate]. destruct v as [|x [|y v]]; try discriminate.
    cbn [app broadcast_values numel fold_right chunks firstn map concat
           flat_map].
    rewrite !app_nil_r. destruct (Nat.eqb_spec 1 k) as [<-|Hk].
    + reflexivity.
    + apply concat_repeat_singleton.
  - destruct tgt as [|t tgt]; [discriminate|].
    cbn [app broadcast_values]. rewrite numel_app.
    change (numel [1]) with 1. rewrite Nat.mul_1_r.
    assert (Hparts :
      concat (map (broadcast_values (src ++ [1]) (tgt ++ [k]))
                  (chunks (numel src) s v))
      = flat_map (fun x => repeat x k)
          (concat (map (broadcast_values src tgt) (chunks (numel src) s v)))).
    { rewrite flat_map_concat, map_map. f_equal.
      apply map_ext_in. intros c Hc. apply IH.
      - simpl in Hlen. lia.
      - apply (chunks_In_length (numel src) s v c); [|exact Hc].
        simpl in Hv. lia. }
    rewrite Hparts. destruct (s =? t); [reflexivity|].
    now rewrite flat_map_concat_repeat.
Qed.

Section Covariance.
Context {F : Type} {AR : Arith F}.

Lemma combine_nth_in_range :
  forall (A B : Type) (l : list A) (l' : list B) (x : nat) (da : A) (db : B),
    x < length l -> x < length l' ->
    nth x (combine l l') (da, db) = (nth x l da, nth x l' db).
Proof.
  intros A B l. induction l as [|a l IH]; intros l' x da db Hl Hl'.
  - simpl in Hl. lia.
  - destruct l' as [|b l']; [simpl in Hl'; lia|].
    destruct x as [|x]; [reflexivity|]. simpl in *. apply IH; lia.
Qed.

Lemma nth_flat_map_repeat :
  forall (A : Type) (k : nat) (X : list A) (b i : nat) (z : A),
    b < length X -> i < k ->
    nth (b * k + i) (flat_map (fun x => repeat x k) X) z = nth b X z.
Proof.
  intros A k X b i z Hb Hi. rewrite flat_map_concat_map.
  rewrite (nth_concat_const k).
  - rewrite (nth_map_in_range _ _ _ _ _ z []) by exact Hb.
    now apply nth_repeat_lt.
  - apply Forall_forall. intros r Hr. apply in_map_iff in Hr.
    destruct Hr as (x & <- & _). apply repeat_length.
  - exact Hi.
Qed.

Lemma length_flat_map_repeat :
  forall (A : Type) (k : nat) (X : list A),
    length (flat_map (fun x => repeat x k) X) = length X * k.
Proof.
  intros A k X. induction X as [|x X IH]; simpl; [reflexivity|].
  now rewrite length_app, repeat_length, IH.
Qed.

Lemma broadcastable_app_inv :
  forall (s t : list nat) (a b : nat),
    broadcastable (s ++ [a]) (t ++ [b]) -> broadcastable s t.
Proof.
  intros s t a b H. apply Forall2_rev_both in H.
  rewrite !rev_app_distr in H. simpl in H. inversion H; subst.
  rewrite <- (rev_involutive s), <- (rev_involutive t).
  now apply Forall2_rev_both.
Qed.

Lemma nth_map2 :
  forall (A B C : Type) (f : A -> B -> C) (l : list A) (l' : list B)
         (x : nat) (da : A) (db : B) (d : C),
    x < length l -> x < length l' ->
    nth x (map2 f l l') d = f (nth x l da) (nth x l' db).
Proof.
  intros A B C f l l' x da db d Hl Hl'. unfold map2.
  rewrite (nth_map_in_range _ _ _ _ _ (da, db) d)
    by (rewrite length_combine; lia).
  rewrite combine_nth_in_range by assumption. reflexivity.
Qed.

Lemma moments_structure :
  forall (d : Multinomial.t F) (n p : ndarray F) (bs : list nat) (k : nat),
    eval (Multinomial.total_count d) = Val n ->
    Multinomial.probs d = Val p ->
    well_formed n -> well_formed p -> mean_cached d ->
    broadcast_shapes (shape n ++ [1]) (shape p) = Some (bs ++ [k]) ->
    length (batch_counts n bs) = numel bs
    /\ length (broadcast_to (bs ++ [k]) p) = numel bs * k
    /\ Multinomial._mean_val d
       = Val (mk_ndarray (bs ++ [k])
                (map2 mul (expand k (batch_counts n bs))
                      (broadcast_to (bs ++ [k]) p)))
    /\ Multinomial.probs_broadcast d
       = Val (mk_ndarray (bs ++ [k])
                (map2 mul (broadcast_to (bs ++ [k]) p)
                      (map (fun _ => one) (expand k (batch_counts n bs))))).
Proof.
  intros d n p bs k Hn Hp Hwn Hwp Hmc Hbs.
  pose proof (broadcast_shapes_length _ _ _ Hbs) as Hlen.
  rewrite !length_app in Hlen. cbn [length] in Hlen.
  destruct (broadcast_shapes_broadcastable _ _ _ Hbs) as [Hbn Hbp].
  assert (Hpad : pad_shape (length (bs ++ [k])) (shape n ++ [1])
                 = pad_shape (length bs) (shape n) ++ [1]).
  { unfold pad_shape. rewrite !length_app. cbn [length].
    replace (length bs + 1 - (length (shape n) + 1))
      with (length bs - length (shape n)) by lia.
    now rewrite app_assoc. }
  assert (Hlpad : length (pad_shape (length bs) (shape n)) = length bs).
  { unfold pad_shape. rewrite length_app, repeat_length. lia. }
  assert (Hvn : length (values n) = numel (pad_shape (length bs) (shape n))).
  { unfold pad_shape. rewrite numel_repeat_one. exact Hwn. }
  assert (Hto : broadcast_to (bs ++ [k]) (array_ops.newaxis n)
                = expand k (batch_counts n bs)).
  { unfold broadcast_to, array_ops.newaxis. cbn [shape values].
    rewrite Hpad. now apply broadcast_values_last_one. }
  rewrite Hpad in Hbn. apply broadcastable_app_inv in Hbn.
  split.
  { unfold batch_counts. now apply broadcast_values_length. }
  split.
  { unfold broadcast_to. rewrite (broadcast_values_length _ _ _ Hbp).
    - rewrite numel_app. simpl. lia.
    - unfold pad_shape. rewrite numel_repeat_one. exact Hwp. }
  split.
  { rewrite Hmc, Hn, Hp. cbn [ev_bind].
    unfold math_ops.multiply, broadcast_op.
    change (shape (array_ops.newaxis n)) with (shape n ++ [1]).
    now rewrite Hbs, Hto. }
  unfold Multinomial.probs_broadcast. rewrite Hp, Hn. cbn [ev_bind].
  unfold math_ops.multiply, broadcast_op.
  change (shape (array_ops.newaxis (array_ops.ones_like n)))
    with (shape n ++ [1]).
  rewrite (broadcast_shapes_comm _ _ _ Hbs). f_equal. f_equal. f_equal.
  rewrite <- Hto. unfold broadcast_to, array_ops.newaxis, array_ops.ones_like.
  cbn [shape values tmap]. apply broadcast_values_map.
Qed.

Lemma nth_chunk_length :
  forall (A : Type) (size count b : nat) (l : list A),
    length l = count * size -> b < count ->
    length (nth b (chunks size count l) []) = size.
Proof.
  intros A size count b l Hl Hb.
  apply (chunks_In_length size count l); [exact Hl|].
  apply nth_In. now rewrite chunks_length.
Qed.

Lemma covariance_values_entry :
  forall (k B : nat) (vm vp vv : list F) (b i j : nat),
    length vm = B * k -> length vp = B * k -> length vv = B * k ->
    b < B -> i < k -> j < k ->
    nth ((b * k + i) * k + j)
        (concat
           (map (fun mpv => covariance_block k (fst (fst mpv))
                              (snd (fst mpv)) (snd mpv))
                (combine (combine (chunks k B vm) (chunks k B vp))
                         (chunks k B vv))))
        zero
    = if j =? i then nth (b * k + i) vv zero
      else neg (mul (nth (b * k + i) vm zero) (nth (b * k + j) vp zero)).
Proof.
  intros k B vm vp vv b i j Hm Hp Hv Hb Hi Hj.
  set (triples := combine (combine (chunks k B vm) (chunks k B vp))
                          (chunks k B vv)).
  assert (Htr : length triples = B).
  { unfold triples. rewrite !length_combine, !chunks_length. lia. }
  replace ((b * k + i) * k + j) with (b * (k * k) + (i * k + j)) by lia.
  rewrite (nth_concat_const (k * k)).
  2:{ apply Forall_forall. intros blk Hblk. apply in_map_iff in Hblk.
      destruct Hblk as ([[m p] v] & <- & Hin). cbn [fst snd].
      unfold triples in Hin. apply in_combine_l in Hin.
      apply covariance_block_length.
      - apply in_combine_l in Hin.
        exact (chunks_In_length k B vm m Hm Hin).
      - apply in_combine_r in Hin.
        exact (chunks_In_length k B vp p Hp Hin). }
  2:{ nia. }
  rewrite (nth_map_in_range _ _ _ _ _ (([], []), []) [])
    by (rewrite Htr; exact Hb).
  unfold triples.
  rewrite !combine_nth_in_range
    by (rewrite ?length_combine, ?chunks_length; lia).
  cbn [fst snd].
  rewrite covariance_block_entry;
    try (apply nth_chunk_length; assumption); try assumption.
  rewrite !nth_chunks_flat by assumption. reflexivity.
Qed.

(** C6, in any arithmetic: the entries of the variance and of the
    covariance of each batch member [b]; the covariance is symmetric as
    soon as the multiplication of the element type is commutative and
    associative. *)
Theorem covariance_entries :
  forall (d : Multinomial.t F) (n p : ndarray F) (bs : list nat) (k : nat),
    eval (Multinomial.total_count d) = Val n ->
    Multinomial.probs d = Val p ->
    well_formed n -> well_formed p -> mean_cached d ->
    broadcast_shapes (shape n ++ [1]) (shape p) = Some (bs ++ [k]) ->
    exists M P V C : ndarray F,
      Multinomial._mean d = Val M
      /\ Multinomial.probs_broadcast d = Val P
      /\ Multinomial._variance d = Val V
      /\ Multinomial._covariance d = Val C
      /\ shape M = bs ++ [k] /\ shape P = bs ++ [k]
      /\ shape V = bs ++ [k] /\ shape C = bs ++ [k; k]
      /\ (forall b i, b < numel bs -> i < k ->
            nth (b * k + i) (values V) zero
            = sub (nth (b * k + i) (values M) zero)
                  (mul (nth (b * k + i) (values M) zero)
                       (nth (b * k + i) (values P) zero)))
      /\ (forall b i j, b < numel bs -> i < k -> j < k ->
            nth ((b * k + i) * k + j) (values C) zero
            = if j =? i then nth (b * k + i) (values V) zero
              else neg (mul (nth (b * k + i) (values M) zero)
                            (nth (b * k + j) (values P) zero)))
      /\ ((forall x y : F, mul x y = mul y x) ->
          (forall x y z : F, mul (mul x y) z = mul x (mul y z)) ->
          forall b i j, b < numel bs -> i < k -> j < k ->
            nth ((b * k + i) * k + j) (values C) zero
            = nth ((b * k + j) * k + i) (values C) zero).
Proof.
  intros d n p bs k Hn Hp Hwn Hwp Hmc Hbs.
  destruct (moments_structure d n p bs k Hn Hp Hwn Hwp Hmc Hbs)
    as (HlX & HlQ & HM & HP).
  set (X := batch_counts n bs) in *.
  set (Q := broadcast_to (bs ++ [k]) p) in *.
  set (vm := map2 mul (expand k X) Q) in *.
  set (vp := map2 mul Q (map (fun _ => one) (expand k X))) in *.
  assert (HlE : length (expand k X) = numel bs * k).
  { unfold expand. now rewrite length_flat_map_repeat, HlX. }
  assert (Hlm : length vm = numel bs * k).
  { unfold vm. rewrite length_map2; lia. }
  assert (Hlp : length vp = numel bs * k).
  { unfold vp. rewrite length_map2; rewrite ?length_map; lia. }
  assert (HwM : well_formed (mk_ndarray (bs ++ [k]) vm)).
  { unfold well_formed. cbn [shape values]. rewrite numel_app. simpl. lia. }
  assert (HwP : well_formed (mk_ndarray (bs ++ [k]) vp)).
  { unfold well_formed. cbn [shape values]. rewrite numel_app. simpl. lia. }
  set (vv := map2 sub vm (map2 mul vm vp)).
  assert (Hlv : length vv = numel bs * k).
  { unfold vv. rewrite !length_map2; rewrite ?length_map2; lia. }
  assert (Hentry : forall b i j, b < numel bs -> i < k -> j < k ->
            nth ((b * k + i) * k + j)
                (concat
                   (map (fun mpv => covariance_block k (fst (fst mpv))
                                      (snd (fst mpv)) (snd mpv))
                        (combine (combine (chunks k (numel bs) vm)
                                          (chunks k (numel bs) vp))
                                 (chunks k (numel bs) vv))))
                zero
            = if j =? i then nth (b * k + i) vv zero
              else neg (mul (nth (b * k + i) vm zero)
                            (nth (b * k + j) vp zero))).
  { intros b i j Hb Hi Hj. now apply covariance_values_entry. }
  eexists. eexists. eexists. eexists.
  split. { unfold Multinomial._mean. rewrite HM. reflexivity. }
  split. { exact HP. }
  split. { exact (variance_values d _ _ HP HM eq_refl HwM HwP). }
  split. { exact (covariance_values d _ _ bs k HP HM eq_refl eq_refl HwM HwP). }
  cbn [shape values array_ops.identity].
  do 4 (split; [reflexivity|]).
  split.
  { intros b i Hb Hi. fold vv. unfold vv.
    rewrite (nth_map2 _ _ _ sub _ _ _ zero zero zero)
      by (rewrite ?length_map2; nia).
    rewrite (nth_map2 _ _ _ mul _ _ _ zero zero zero) by nia.
    reflexivity. }
  split; [exact Hentry|].
  intros Hcomm Hassoc b i j Hb Hi Hj.
  rewrite !Hentry by assumption.
  destruct (Nat.eqb_spec j i) as [->|Hji].
  { now rewrite Nat.eqb_refl. }
  replace (i =? j) with false by (symmetry; apply Nat.eqb_neq; congruence).
  f_equal. unfold vm, vp.
  rewrite !(nth_map2 _ _ _ mul _ _ _ zero zero zero)
    by (rewrite ?length_map; nia).
  rewrite !(nth_map_in_range _ _ _ _ _ zero zero) by nia.
  unfold expand. rewrite !nth_flat_map_repeat by lia.
  rewrite !Hassoc. f_equal.
  rewrite <- !Hassoc. f_equal. apply Hcomm.
Qed.
End Covariance.

(** In binary64 the entries (0, 2) and (2, 0) of the covariance differ:
    [(3 * 0.1) * 0.7] and [(3 * 0.7) * 0.1] round differently. *)
Lemma covariance_not_symmetric_binary64 :
  exists C,
    Multinomial._covariance float_dist = Val C
    /\ shape C = [3; 3]
    /\ nth (0 * 3 + 2) (values C) zero <> nth (2 * 3 + 0) (values C) zero.
Proof.
  eexists. split; [vm_compute; reflexivity|]. split; [reflexivity|].
  cbn [values nth Nat.mul Nat.add]. intro H.
  apply (f_equal (fun x => PrimFloat.eqb x (-0.21000000000000002)%float)) in H.
  vm_compute in H. discriminate H.
Qed.

Lemma covariance_entries_witness :
  exists C,
    Multinomial._covariance (Q_coin 4) = Val C
    /\ shape C = [2; 2]
    /\ nth 1 (values C) 0%Q = nth 2 (values C) 0%Q.
Proof.
  destruct (covariance_entries (Q_coin 4) (scalar 4%Q)
              (vector [1 # 2; 1 # 2]%Q) [] 2
              eq_refl eq_refl eq_refl eq_refl eq_refl eq_refl)
    as (M & P & V & C & _ & _ & _ & HC & _ & _ & _ & Hs & _ & _ & Hsym).
  exists C. split; [exact HC|]. split; [exact Hs|].
  apply (Hsym Q_mul_comm Q_mul_assoc 0 0 1); simpl; lia.
Defined.

(** ** The extended reals as an element type *)

Lemma xlog_pos : forall a : R, (0 < a)%R -> xlog (Fin a) = Fin (ln a).
Proof.
  intros a Ha. unfold xlog. destruct (Rlt_dec 0 a); [reflexivity | contradiction].
Qed.

Lemma xlog_zero : xlog (Fin 0) = NInf.
Proof.
  unfold xlog. destruct (Rlt_dec 0 0) as [H|_]; [lra|].
  destruct (Req_dec_T 0 0) as [_|H]; [reflexivity | now destruct H].
Qed.

Lemma xexp_xlog :
  forall a : R, (0 <= a)%R -> xexp (xlog (Fin a)) = Fin a.
Proof.
  intros a [Ha|<-].
  - rewrite xlog_pos by exact Ha. simpl. now rewrite exp_ln.
  - now rewrite xlog_zero.
Qed.

Lemma xdiv_one : forall a : R, xdiv (Fin a) (Fin 1) = Fin a.
Proof.
  intro a. unfold xdiv. destruct (Req_dec_T 1 0) as [H|_]; [lra|].
  f_equal. field.
Qed.

Lemma xlgamma_pos :
  forall (lgammaR : R -> R) (a : R),
    (0 < a)%R -> xlgamma lgammaR (Fin a) = Fin (lgammaR a).
Proof.
  intros lgammaR a Ha. unfold xlgamma.
  destruct (Rlt_dec 0 a); [reflexivity | contradiction].
Qed.

Lemma fold_left_xadd_fin :
  forall (l : list R) (a : R),
    fold_left xadd (map Fin l) (Fin a) = Fin (a + Rsum l).
Proof.
  induction l as [|x l IH]; intro a; simpl.
  - f_equal. lra.
  - rewrite IH. f_equal. unfold Rsum. lra.
Qed.

Lemma xsum_fin :
  forall l : list R, math_ops.sum (map Fin l) = Fin (Rsum l).
Proof.
  intros [|x l]; simpl; [reflexivity|]. apply fold_left_xadd_fin.
Qed.

Lemma lgamma_step_fact :
  forall n : nat, lgamma_step (INR n + 1) = ln (INR (fact n)).
Proof.
  intro n. unfold lgamma_step.
  replace (INR n + 1)%R with (INR (S n)) by (rewrite S_INR; reflexivity).
  rewrite Int_part_INR.
  replace (Z.to_nat (Z.of_nat (S n) - 1)) with n by lia. reflexivity.
Qed.

(** ** Parameter normalization *)

Lemma softmax_row_log :
  forall r : list xreal,
    valid_probs_row r -> nn.softmax_row (map xlog r) = r.
Proof.
  intros r [Hr Hsum]. unfold nn.softmax_row.
  assert (He : map exp (map xlog r) = r).
  { rewrite map_map. apply map_id_on. intros x Hx.
    rewrite Forall_forall in Hr. destruct (Hr x Hx) as (a & -> & Ha).
    now apply xexp_xlog. }
  rewrite He, Hsum. apply map_id_on. intros x Hx.
  rewrite Forall_forall in Hr. destruct (Hr x Hx) as (a & -> & _).
  apply xdiv_one.
Qed.

Lemma broadcast_shapes_nil_r :
  forall s : list nat, broadcast_shapes s [] = Some s.
Proof.
  intro s. unfold broadcast_shapes. simpl.
  rewrite <- (rev_involutive s) at 2.
  destruct (rev s); reflexivity.
Qed.

Lemma concat_repeat_repeat :
  forall (A : Type) (x : A) (m b : nat),
    concat (repeat (repeat x m) b) = repeat x (b * m).
Proof.
  intros A x m b. induction b as [|b IH]; simpl; [reflexivity|].
  now rewrite IH, repeat_app.
Qed.

Lemma broadcast_values_scalar :
  forall (A : Type) (x : A) (s : list nat),
    broadcast_values (repeat 1 (length s)) s [x] = repeat x (numel s).
Proof.
  intros A x s. induction s as [|b s IH].
  - reflexivity.
  - cbn [length repeat broadcast_values chunks map concat].
    replace (numel (repeat 1 (length s))) with 1
      by (pose proof (numel_repeat_one (length s) []) as E;
          rewrite app_nil_r in E; symmetry; exact E).
    cbn [firstn]. rewrite app_nil_r, IH.
    change (numel (b :: s)) with (b * numel s).
    destruct (Nat.eqb_spec 1 b) as [<-|Hb].
    + simpl. now rewrite Nat.add_0_r.
    + apply concat_repeat_repeat.
Qed.

Lemma broadcast_op_scalar_r :
  forall (A B C : Type) (f : A -> B -> C) (a : ndarray A) (y : B),
    well_formed a ->
    broadcast_op f a (scalar y)
    = Val (mk_ndarray (shape a) (map (fun x => f x y) (values a))).
Proof.
  intros A B C f a y Hwa. unfold broadcast_op, broadcast_to.
  cbn [shape values scalar]. rewrite broadcast_shapes_nil_r, pad_shape_same.
  rewrite broadcast_values_same by exact Hwa.
  unfold pad_shape. cbn [length]. rewrite Nat.sub_0_r, app_nil_r.
  rewrite broadcast_values_scalar. f_equal. f_equal.
  unfold well_formed in Hwa. rewrite <- Hwa. unfold map2.
  generalize (values a). intro l. induction l as [|x l IH]; simpl;
    [reflexivity | now rewrite IH].
Qed.

Lemma valid_probs_pass :
  forall (lgammaR : R -> R) (p : ndarray xreal) (bs : list nat) (k : nat),
    shape p = bs ++ [k] -> well_formed p ->
    Forall valid_probs_row (chunks k (numel bs) (values p)) ->
    @distribution_util.validate_probs xreal xreal_arith xreal_checks p = Val p.
Proof.
  intros lgammaR p bs k Hs Hw Hrows.
  assert (Hl : length (values p) = numel bs * k).
  { unfold well_formed in Hw. rewrite Hw, Hs, numel_app. simpl. lia. }
  unfold distribution_util.validate_probs.
  cbn [control_flow_ops.with_dependencies].
  unfold check_ops.assert_non_negative.
  replace (forallb nonneg (values p)) with true.
  2:{ symmetry. apply forallb_forall. intros x Hx.
      rewrite <- (concat_chunks k (numel bs) (values p) Hl) in Hx.
      apply in_concat in Hx. destruct Hx as (r & Hr & Hx).
      rewrite Forall_forall in Hrows. destruct (Hrows r Hr) as [Hfin _].
      rewrite Forall_forall in Hfin. destruct (Hfin x Hx) as (a & -> & Ha).
      simpl. destruct (Rle_dec 0 a); [reflexivity | contradiction]. }
  cbn [ev_bind]. rewrite (reduce_sum_last p bs k Hs Hw). cbn [ev_bind].
  unfold check_ops.assert_close. rewrite broadcast_op_scalar_r.
  2:{ unfold well_formed. cbn [shape values].
      now rewrite length_map, chunks_length. }
  cbn [ev_bind values].
  replace (forallb (fun b : bool => b) _) with true; [reflexivity|].
  symmetry. apply forallb_forall. intros b Hb.
  rewrite map_map in Hb. apply in_map_iff in Hb. destruct Hb as (r & <- & Hr).
  rewrite Forall_forall in Hrows. destruct (Hrows r Hr) as [_ Hsum].
  rewrite Hsum. simpl.
  destruct (Rle_dec (Rabs (1 - 1)) (/ 1000000)) as [_|Hn]; [reflexivity|].
  destruct Hn. replace (1 - 1)%R with 0%R by lra. rewrite Rabs_R0. lra.
Qed.


(** ** The probabilities sum to one *)

Lemma compositions_spec :
  forall (k N : nat) (c : list nat),
    In c (compositions k N) <-> length c = k /\ list_sum c = N.
Proof.
  induction k as [|k IH]; intros N c.
  - simpl. destruct (Nat.eqb_spec N 0) as [->|HN]; simpl.
    + split.
      * intros [<-|[]]. now split.
      * intros [Hl _]. left. destruct c; [reflexivity | discriminate].
    + split; [intros [] | intros [Hl Hs]].
      destruct c; [simpl in Hs; congruence | discriminate].
  - cbn [compositions]. rewrite in_flat_map. split.
    + intros (i & Hi & Hc). apply in_seq in Hi.
      apply in_map_iff in Hc. destruct Hc as (c' & <- & Hc').
      apply IH in Hc'. destruct Hc' as [Hl Hs]. simpl. split; lia.
    + intros [Hl Hs]. destruct c as [|i c']; [discriminate|].
      simpl in Hl, Hs. exists i. split.
      * apply in_seq. lia.
      * apply in_map. apply IH. split; lia.
Qed.

Lemma Rsum_app :
  forall l l' : list R, Rsum (l ++ l') = (Rsum l + Rsum l')%R.
Proof.
  intros l l'. unfold Rsum. induction l as [|x l IH]; simpl; [lra|].
  rewrite IH. lra.
Qed.

Lemma Rsum_flat_map :
  forall (A B : Type) (w : B -> R) (g : A -> list B) (l : list A),
    Rsum (map w (flat_map g l)) = Rsum (map (fun i => Rsum (map w (g i))) l).
Proof.
  intros A B w g l. induction l as [|i l IH]; simpl; [reflexivity|].
  rewrite map_app, Rsum_app, IH. reflexivity.
Qed.

Lemma Rsum_scal :
  forall (A : Type) (a : R) (w : A -> R) (l : list A),
    Rsum (map (fun c => a * w c)%R l) = (a * Rsum (map w l))%R.
Proof.
  intros A a w l. unfold Rsum. induction l as [|c l IH]; simpl; [lra|].
  rewrite IH. lra.
Qed.

Lemma Rsum_seq :
  forall (f : nat -> R) (N : nat),
    Rsum (map f (seq 0 (S N))) = sum_f_R0 f N.
Proof.
  intros f N. induction N as [|N IH].
  - simpl. unfold Rsum. simpl. lra.
  - rewrite seq_S, map_app, Rsum_app, IH. simpl. unfold Rsum. simpl. lra.
Qed.

(** The multinomial theorem, in its exponential form. *)
Lemma multinomial_theorem :
  forall (ps : list R) (N : nat),
    Rsum (map (weight ps) (compositions (length ps) N))
    = (Rsum ps ^ N / INR (fact N))%R.
Proof.
  induction ps as [|p ps IH]; intro N.
  - simpl. destruct N as [|N]; simpl; unfold Rsum; simpl.
    + field.
    + rewrite Rmult_0_l. unfold Rdiv. now rewrite Rmult_0_l.
  - cbn [length compositions]. rewrite Rsum_flat_map.
    rewrite (map_ext _ (fun i => (p ^ i / INR (fact i)
                                  * (Rsum ps ^ (N - i) / INR (fact (N - i))))%R)).
    2:{ intro i. rewrite map_map. cbn [weight].
        now rewrite Rsum_scal, IH. }
    rewrite Rsum_seq. change (Rsum (p :: ps)) with (p + Rsum ps)%R.
    rewrite binomial. unfold Rdiv at 3.
    rewrite (Rmult_comm (sum_f_R0 _ N)), scal_sum.
    apply sum_eq. intros i _. unfold C.
    field. repeat split; apply INR_fact_neq_0.
Qed.

Section SumToOne.
Variable lgammaR : R -> R.
Hypothesis lgammaR_fact :
  forall n : nat, lgammaR (INR n + 1) = ln (INR (fact n)).

Lemma map2_fin :
  forall (f : R -> R -> R) (g : xreal -> xreal -> xreal) (a b : list R),
    (forall x y, g (Fin x) (Fin y) = Fin (f x y)) ->
    map2 g (map Fin a) (map Fin b) = map Fin (map2 f a b).
Proof.
  intros f g a b Hfg. unfold map2. revert b.
  induction a as [|x a IH]; intros [|y b]; simpl; try reflexivity.
  now rewrite Hfg, IH.
Qed.

Lemma exp_weight :
  forall (ps : list R) (c : list nat),
    Forall (fun p => (0 < p)%R) ps -> length c = length ps ->
    Rtrigo_def.exp
      (Rsum (map2 Rmult (map INR c) (map ln ps))
       - Rsum (map (fun n => ln (INR (fact n))) c))
    = weight ps c.
Proof.
  intros ps c Hps. revert c.
  induction Hps as [|p ps Hp _ IH]; intros [|n c] Hlen; try discriminate.
  - simpl. unfold Rsum. simpl. rewrite Rminus_diag. apply exp_0.
  - cbn [map map2 combine fst snd weight]. unfold map2 in IH.
    unfold Rsum in *. cbn [map fold_right combine fst snd].
    rewrite <- (IH c) by (simpl in Hlen; lia).
    set (A := fold_right Rplus 0%R _). set (G := fold_right Rplus 0%R _).
    replace (INR n * ln p + A - (ln (INR (fact n)) + G))%R
      with ((INR n * ln p) + (- ln (INR (fact n)) + (A - G)))%R by lra.
    rewrite !exp_plus, exp_Ropp, exp_ln by apply INR_fact_lt_0.
    fold (Rpower p (INR n)). rewrite Rpower_pow by exact Hp.
    unfold Rdiv. ring.
Qed.

Lemma log_prob_value_fin :
  forall (ps : list R) (c : list nat) (N : nat),
    Forall (fun p => (0 < p)%R) ps -> length c = length ps ->
    xexp (@log_prob_value xreal xreal_arith (xreal_special lgammaR)
            (Fin (INR N)) (map Fin ps) (map (fun n => Fin (INR n)) c))
    = Fin (INR (fact N) * weight ps c).
Proof.
  intros ps c N Hps Hlen. unfold log_prob_value.
  cbn [log lgamma mul sub neg add one xreal_special xreal_arith].
  assert (Hlog : map xlog (map Fin ps) = map Fin (map ln ps)).
  { rewrite !map_map. apply map_ext_in. intros p Hp.
    rewrite Forall_forall in Hps. now apply xlog_pos, Hps. }
  rewrite Hlog. rewrite <- (map_map INR Fin c).
  rewrite (map2_fin Rmult xmul) by reflexivity.
  rewrite xsum_fin.
  assert (Hlg : map (xlgamma lgammaR)
                    (map (fun x => xadd x (Fin 1)) (map Fin (map INR c)))
                = map Fin (map (fun n => ln (INR (fact n))) c)).
  { rewrite !map_map. apply map_ext. intro n. cbn [xadd].
    rewrite xlgamma_pos by (pose proof (pos_INR n); lra).
    now rewrite lgammaR_fact. }
  rewrite Hlg, xsum_fin. cbn [xadd].
  rewrite xlgamma_pos by (pose proof (pos_INR N); lra).
  rewrite lgammaR_fact. cbn [xsub xneg xadd xexp]. f_equal.
  rewrite <- (exp_weight ps c Hps Hlen).
  rewrite <- (exp_ln (INR (fact N))) at 2 by apply INR_fact_lt_0.
  rewrite <- exp_plus. f_equal. lra.
Qed.
End SumToOne.

Lemma Rsum_INR :
  forall c : list nat, Rsum (map INR c) = INR (list_sum c).
Proof.
  induction c as [|n c IH]; simpl; [reflexivity|].
  unfold Rsum in *. simpl. now rewrite IH, plus_INR.
Qed.

Lemma xequal_refl : forall a : R, equal (Fin a) (Fin a) = true.
Proof.
  intro a. simpl. destruct (Req_dec_T a a) as [_|H]; [reflexivity | now destruct H].
Qed.

Lemma counts_tensor_well_formed :
  forall c : list nat, well_formed (counts_tensor c).
Proof. intro c. apply vector_well_formed. Qed.

(** Count vectors of non-negative integers that sum to [total_count] pass
    the sample check. *)
Lemma valid_counts_pass :
  forall (d : Multinomial.t xreal) (N : nat) (c : list nat),
    eval (Multinomial.total_count d) = Val (scalar (Fin (INR N))) ->
    list_sum c = N ->
    Multinomial._maybe_assert_valid_sample d (counts_tensor c)
    = Val (counts_tensor c).
Proof.
  intros d N c Htc Hsum. unfold Multinomial._maybe_assert_valid_sample.
  destruct (Multinomial.validate_args d); [|reflexivity]. cbn [negb].
  unfold distribution_util.embed_check_nonnegative_discrete.
  cbn [control_flow_ops.with_dependencies].
  unfold check_ops.assert_non_negative.
  replace (forallb nonneg (values (counts_tensor c))) with true.
  2:{ symmetry. apply forallb_forall. intros x Hx.
      apply in_map_iff in Hx. destruct Hx as (n & <- & _). simpl.
      destruct (Rle_dec 0 (INR n)) as [_|H]; [reflexivity|].
      destruct H. apply pos_INR. }
  cbn [ev_bind].
  unfold distribution_util.assert_integer_form, check_ops.assert_equal.
  rewrite broadcast_op_same;
    [|reflexivity|apply counts_tensor_well_formed
     |repeat apply tmap_well_formed; apply counts_tensor_well_formed].
  cbn [ev_bind values math_ops.to_float math_ops.to_int64 tmap].
  rewrite map_map, map2_map_r.
  replace (forallb (fun b : bool => b) _) with true.
  2:{ symmetry. apply forallb_forall. intros b Hb.
      apply in_map_iff in Hb. destruct Hb as (x & <- & Hx).
      apply in_map_iff in Hx. destruct Hx as (n & <- & _).
      cbn [trunc of_int xreal_checks xtrunc].
      destruct (Rle_dec 0 (INR n)) as [_|H]; [|destruct H; apply pos_INR].
      rewrite Int_part_INR, <- INR_IZR_INZ. apply xequal_refl. }
  cbn [ev_bind]. rewrite Htc. cbn [ev_bind].
  unfold counts_tensor at 1. rewrite reduce_sum_vector. cbn [ev_bind].
  rewrite broadcast_op_same; [|reflexivity|reflexivity|reflexivity].
  cbn [ev_bind values scalar map2 combine map fst snd forallb].
  rewrite <- (map_map INR Fin c), xsum_fin, Rsum_INR, Hsum, xequal_refl.
  reflexivity.
Qed.

Lemma concat_repeat_concat :
  forall (A : Type) (l : list A) (m b : nat),
    concat (repeat (concat (repeat l m)) b) = concat (repeat l (b * m)).
Proof.
  intros A l m b. induction b as [|b IH]; simpl; [reflexivity|].
  now rewrite IH, repeat_app, concat_app.
Qed.

(** A vector broadcasts against a batch of vectors by being repeated once
    for each member of the batch. *)
Lemma broadcast_values_vector :
  forall (A : Type) (cs : list A) (bs : list nat),
    broadcast_values (repeat 1 (length bs) ++ [length cs]) (bs ++ [length cs]) cs
    = concat (repeat cs (numel bs)).
Proof.
  intros A cs bs. induction bs as [|b bs IH].
  - cbn [length repeat app numel fold_right concat].
    rewrite broadcast_values_same by (simpl; lia). now rewrite app_nil_r.
  - cbn [length repeat app broadcast_values].
    rewrite numel_repeat_one. cbn [numel fold_right].
    rewrite Nat.mul_1_r. cbn [chunks map concat].
    rewrite firstn_all, app_nil_r, IH.
    change (fold_right Nat.mul 1 bs) with (numel bs).
    destruct (Nat.eqb_spec 1 b) as [<-|Hb].
    + simpl. now rewrite Nat.add_0_r.
    + apply concat_repeat_concat.
Qed.

Lemma broadcast_shapes_vector :
  forall (bs : list nat) (k : nat),
    broadcast_shapes [k] (bs ++ [k]) = Some (bs ++ [k]).
Proof.
  intros bs k. unfold broadcast_shapes. rewrite rev_app_distr.
  cbn [rev app broadcast_rev]. rewrite Nat.eqb_refl. cbn [option_map rev].
  now rewrite rev_involutive.
Qed.

Lemma map2_app :
  forall (A B C : Type) (f : A -> B -> C) (a a' : list A) (b b' : list B),
    length a = length b ->
    map2 f (a ++ a') (b ++ b') = map2 f a b ++ map2 f a' b'.
Proof.
  intros A B C f a a' b b'. unfold map2. revert b.
  induction a as [|x a IH]; intros [|y b] Hl; try discriminate.
  - reflexivity.
  - simpl. f_equal. apply IH. simpl in Hl. lia.
Qed.

Lemma map2_concat_repeat :
  forall (A B C : Type) (f : A -> B -> C) (cs : list A) (rows : list (list B)),
    Forall (fun r => length r = length cs) rows ->
    map2 f (concat (repeat cs (length rows))) (concat rows)
    = concat (map (fun row => map2 f cs row) rows).
Proof.
  intros A B C f cs rows Hrows. induction Hrows as [|r rows Hr _ IH].
  - reflexivity.
  - cbn [length repeat concat map]. rewrite map2_app by (now rewrite Hr).
    now rewrite IH.
Qed.

(** [log_prob] of one count vector under a batch of probabilities: one
    number for each member of the batch. *)
Lemma log_prob_batched :
  forall (F : Type) (AR : Arith F) (CH : Checks F) (SP : Special F)
         (d : Multinomial.t F) (n : F) (p : ndarray F) (cs : list F)
         (bs : list nat),
    Multinomial.probs d = Val p ->
    shape p = bs ++ [length cs] -> well_formed p ->
    eval (Multinomial.total_count d) = Val (scalar n) ->
    Multinomial._maybe_assert_valid_sample d (vector cs) = Val (vector cs) ->
    Multinomial._log_prob d (vector cs)
    = Val (mk_ndarray bs
             (map (fun row => log_prob_value n row cs)
                  (chunks (length cs) (numel bs) (values p)))).
Proof.
  intros F AR CH SP d n p cs bs Hp Hs Hw Hn Hv.
  set (k := length cs) in *.
  assert (Hl : length (values p) = numel bs * k).
  { unfold well_formed in Hw. rewrite Hw, Hs, numel_app. simpl. lia. }
  set (rows := chunks k (numel bs) (values p)).
  assert (Hrows : Forall (fun r => length r = k) rows)
    by (apply chunks_Forall_length; exact Hl).
  assert (Hlen : length rows = numel bs) by apply chunks_length.
  assert (Hcat : concat rows = values p) by (apply concat_chunks; exact Hl).
  unfold Multinomial._log_prob, Multinomial._log_unnormalized_prob,
    Multinomial._log_normalization, distribution_util.log_combinations.
  rewrite Hv, Hp, Hn. cbn [ev_bind].
  unfold math_ops.multiply, broadcast_op at 1.
  cbn [shape vector values math_ops.log_ tmap]. fold k. rewrite Hs.
  rewrite broadcast_shapes_vector. unfold broadcast_to.
  cbn [shape vector values math_ops.log_ tmap]. fold k. rewrite Hs.
  rewrite pad_shape_same. unfold pad_shape. rewrite length_app.
  cbn [length]. replace (length bs + 1 - 1) with (length bs) by lia.
  unfold k at 1 2. rewrite broadcast_values_vector. fold k.
  rewrite broadcast_values_same
    by (rewrite length_map, numel_app; simpl; lia).
  rewrite <- Hcat, <- Hlen, concat_map.
  rewrite <- (length_map (map log) rows).
  rewrite map2_concat_repeat.
  2:{ apply Forall_forall. intros r Hr. apply in_map_iff in Hr.
      destruct Hr as (r' & <- & Hr'). rewrite length_map.
      rewrite Forall_forall in Hrows. now apply Hrows. }
  rewrite map_map.
  set (g := fun row : list F => map2 mul cs (map log row)).
  assert (Hg : Forall (fun r => length r = k) (map g rows)).
  { apply Forall_forall. intros r Hr. apply in_map_iff in Hr.
    destruct Hr as (r' & <- & Hr'). unfold g.
    rewrite length_map2; [reflexivity|]. rewrite length_map.
    rewrite Forall_forall in Hrows. symmetry. now apply Hrows. }
  cbn [ev_bind].
  rewrite (reduce_sum_last (mk_ndarray (bs ++ [k]) (concat (map g rows))) bs k).
  2:{ reflexivity. }
  2:{ unfold well_formed. cbn [values shape].
      rewrite (length_concat_const k) by exact Hg.
      rewrite length_map, Hlen, numel_app. simpl. lia. }
  cbn [ev_bind values].
  replace (chunks k (numel bs) (concat (map g rows))) with (map g rows)
    by (rewrite <- Hlen, <- (length_map g rows); symmetry;
        apply chunks_concat; exact Hg).
  replace (math_ops.lgamma_ (math_ops.add_one (vector cs)))
    with (vector (map lgamma (map (fun x => add x one) cs))).
  2:{ unfold vector, math_ops.lgamma_, math_ops.add_one, tmap. simpl.
      now rewrite !length_map. }
  rewrite reduce_sum_vector. cbn [ev_bind].
  unfold math_ops.subtract.
  rewrite (broadcast_op_same _ _ _ sub
             (math_ops.lgamma_ (math_ops.add_one (scalar n))));
    [|reflexivity|reflexivity|reflexivity].
  cbn [ev_bind shape values scalar math_ops.lgamma_ math_ops.add_one
         math_ops.negative tmap map map2 combine fst snd].
  unfold math_ops.negative, tmap. cbn [map shape values].
  match goal with
  | |- broadcast_op _ _ (mk_ndarray [] [?z]) = _ =>
      change (mk_ndarray [] [z]) with (scalar z)
  end.
  rewrite broadcast_op_scalar_r.
  2:{ unfold well_formed. cbn [shape values]. now rewrite !length_map. }
  cbn [shape values]. unfold log_prob_value. rewrite !map_map. reflexivity.
Qed.

Lemma fin_list :
  forall (P : R -> Prop) (r : list xreal),
    Forall (fun x => exists a : R, x = Fin a /\ P a) r ->
    exists ps : list R, r = map Fin ps /\ Forall P ps.
Proof.
  intros P r Hr. induction Hr as [|x r (a & -> & Ha) _ (ps & -> & Hps)].
  - now exists [].
  - exists (a :: ps). split; [reflexivity|now constructor].
Qed.

(** C7, for strictly positive probabilities.  In exact arithmetic, for a
    scalar [total_count = N] and probabilities of shape [*batch_shape, k]
    whose rows are strictly positive and sum to 1, [prob] of a count vector
    of length [k] that sums to [N] holds one number for each member of the
    batch, and for each member these numbers, over all such count vectors,
    add up to 1. *)
Theorem probabilities_sum_to_one :
  forall (lgammaR : R -> R),
    (forall n : nat, lgammaR (INR n + 1)%R = ln (INR (fact n))) ->
    forall (d : Multinomial.t xreal) (p : ndarray xreal) (bs : list nat)
           (k N : nat),
      Multinomial.probs d = Val p ->
      shape p = bs ++ [k] -> well_formed p ->
      Forall positive_probs_row (chunks k (numel bs) (values p)) ->
      eval (Multinomial.total_count d) = Val (scalar (Fin (INR N))) ->
      (forall c, In c (compositions k N) ->
         exists r, @Multinomial._prob xreal xreal_arith xreal_checks
                     (xreal_special lgammaR) d (counts_tensor c) = Val r
                   /\ shape r = bs /\ well_formed r)
      /\ (forall b, b < numel bs ->
            total_probability (xreal_special lgammaR) d k N b = Fin 1).
Proof.
  intros lgammaR Hlg d p bs k N Hp Hs Hw Hrows Htc.
  assert (Hl : length (values p) = numel bs * k).
  { unfold well_formed in Hw. rewrite Hw, Hs, numel_app. simpl. lia. }
  assert (Hprob : forall c, In c (compositions k N) ->
            @Multinomial._prob xreal xreal_arith xreal_checks
              (xreal_special lgammaR) d (counts_tensor c)
            = Val (mk_ndarray bs
                     (map (fun row =>
                             xexp (@log_prob_value xreal xreal_arith
                                     (xreal_special lgammaR) (Fin (INR N)) row
                                     (map (fun n => Fin (INR n)) c)))
                          (chunks k (numel bs) (values p))))).
  { intros c Hc. apply compositions_spec in Hc. destruct Hc as [Hlen Hc].
    unfold Multinomial._prob, counts_tensor.
    assert (Hk : length (map (fun n => Fin (INR n)) c) = k)
      by (now rewrite length_map).
    rewrite (log_prob_batched xreal xreal_arith xreal_checks
               (xreal_special lgammaR) d (Fin (INR N)) p
               (map (fun n => Fin (INR n)) c) bs Hp).
    - rewrite Hk. unfold ev_map, math_ops.exp_, tmap.
      cbn [ev_bind shape values]. now rewrite map_map.
    - now rewrite Hk.
    - exact Hw.
    - exact Htc.
    - now apply valid_counts_pass with (N := N). }
  split.
  - intros c Hc. rewrite (Hprob c Hc). eexists. split; [reflexivity|].
    split; [reflexivity|]. unfold well_formed. cbn [shape values].
    now rewrite length_map, chunks_length.
  - intros b Hb. unfold total_probability.
    set (rows := chunks k (numel bs) (values p)) in *.
    assert (Hrow : In (nth b rows []) rows)
      by (apply nth_In; unfold rows; now rewrite chunks_length).
    assert (Hrk : length (nth b rows []) = k)
      by (exact (chunks_In_length k (numel bs) (values p) _ Hl Hrow)).
    rewrite Forall_forall in Hrows.
    destruct (Hrows _ Hrow) as [Hpos Hsum].
    destruct (fin_list _ _ Hpos) as (ps & Eps & Hps).
    assert (Hpk : length ps = k) by (now rewrite <- Hrk, Eps, length_map).
    rewrite (map_ext_in _ (fun c => Fin (INR (fact N) * weight ps c))).
    2:{ intros c Hc. rewrite (Hprob c Hc). cbn [batch_value values].
        set (f := fun row : list xreal =>
                    xexp (@log_prob_value xreal xreal_arith
                            (xreal_special lgammaR) (Fin (INR N)) row
                            (map (fun n => Fin (INR n)) c))).
        rewrite (nth_indep _ NaN (f []))
          by (rewrite length_map; unfold rows; now rewrite chunks_length).
        rewrite (map_nth f). unfold f. rewrite Eps.
        apply (log_prob_value_fin lgammaR Hlg ps c N Hps).
        apply compositions_spec in Hc. lia. }
    rewrite <- (map_map (fun c => (INR (fact N) * weight ps c)%R) Fin).
    rewrite xsum_fin, Rsum_scal. rewrite <- Hpk, multinomial_theorem. f_equal.
    rewrite Eps, xsum_fin in Hsum. injection Hsum as ->.
    rewrite pow1. field. apply INR_fact_neq_0.
Qed.

(** ** Distributions over the extended reals *)

Lemma xreal_dist_init :
  forall (total_count : xreal) (ps : list xreal) (validate : bool),
    Multinomial.__init__ (mk_Tensor (Some 0) (Val (scalar total_count)))
      None (Some (vector ps)) validate true "Multinomial"
    = Return (xreal_dist total_count ps validate).
Proof. reflexivity. Qed.

Example compositions_4_3 : length (compositions 3 4) = 15.
Proof. reflexivity. Qed.

Lemma log_prob_decomposition_witness :
  Multinomial._log_prob
    (xreal_dist (Fin 4) [Fin (1 / 5); Fin (3 / 10); Fin (1 / 2)] false)
    (vector [Fin 1; Fin 0; Fin 3])
  = Val (scalar (log_prob_value (Fin 4)
                   [Fin (1 / 5); Fin (3 / 10); Fin (1 / 2)]
                   [Fin 1; Fin 0; Fin 3])).
Proof.
  exact (proj1
           (proj2 (proj2 (proj2 (proj2
              (log_prob_decomposition
                 (xreal_dist (Fin 4) [Fin (1 / 5); Fin (3 / 10); Fin (1 / 2)]
                             false)
                 (vector [Fin 1; Fin 0; Fin 3])
                 (vector [Fin (1 / 5); Fin (3 / 10); Fin (1 / 2)])
                 (scalar (Fin 4)) eq_refl eq_refl eq_refl))))
              (Fin 4) [Fin (1 / 5); Fin (3 / 10); Fin (1 / 2)]
              [Fin 1; Fin 0; Fin 3] eq_refl eq_refl eq_refl eq_refl)).
Defined.

Lemma total_count_check_pass :
  forall N : nat,
    eval (Multinomial._maybe_assert_valid_total_count
            (mk_Tensor (Some 0) (Val (scalar (Fin (INR N))))) true)
    = Val (scalar (Fin (INR N))).
Proof.
  intro N. unfold Multinomial._maybe_assert_valid_total_count.
  cbn [negb eval ev_bind control_flow_ops.with_dependencies].
  unfold check_ops.assert_non_negative. cbn [values scalar forallb nonneg
                                               xreal_checks].
  destruct (Rle_dec 0 (INR N)) as [_|H]; [|destruct H; apply pos_INR].
  cbn [andb ev_bind].
  unfold distribution_util.assert_integer_form, check_ops.assert_equal.
  rewrite broadcast_op_same; [|reflexivity|reflexivity|reflexivity].
  cbn [ev_bind values scalar math_ops.to_float math_ops.to_int64 tmap map
         map2 combine fst snd forallb trunc of_int xreal_checks xtrunc].
  destruct (Rle_dec 0 (INR N)) as [_|H]; [|destruct H; apply pos_INR].
  rewrite Int_part_INR, <- INR_IZR_INZ, xequal_refl. reflexivity.
Qed.

(** Property 8 of the specification: with [validate_args], counts
    [1, 1, 1] under [total_count = 4] are rejected. *)
Lemma sample_validation_witness :
  exists m,
    Multinomial._log_prob
      (xreal_dist (Fin (INR 4)) [Fin (1 / 5); Fin (3 / 10); Fin (1 / 2)] true)
      (vector [Fin 1; Fin 1; Fin 1])
    = Fail (InvalidArgumentError m).
Proof.
  refine (proj1 (proj1 (sample_validation
                          (xreal_dist (Fin (INR 4))
                             [Fin (1 / 5); Fin (3 / 10); Fin (1 / 2)] true)
                          (vector [Fin 1; Fin 1; Fin 1])
                          (scalar (Fin (INR 4)))
                          (vector [Fin (1 / 5); Fin (3 / 10); Fin (1 / 2)])
                          (total_count_check_pass 4) _ _) eq_refl _)).
  - apply (valid_probs_pass lgamma_step
             (vector [Fin (1 / 5); Fin (3 / 10); Fin (1 / 2)]) [] 3 eq_refl).
    + apply vector_well_formed.
    + constructor; [|constructor]. split.
      * repeat constructor; eexists; (split; [reflexivity | lra]).
      * simpl. f_equal. lra.
  - apply vector_well_formed.
  - right. right.
    exists (scalar (Fin (1 + 1 + 1))).
    exists (scalar false).
    split; [reflexivity|]. split; [|now left].
    unfold broadcast_op. cbn.
    destruct (Req_dec_T (1 + 1 + 1 + 1) (1 + 1 + 1)) as [H|_];
      [lra | reflexivity].
Defined.

Lemma xmul_zero_ninf : xmul (Fin 0) NInf = NaN.
Proof.
  unfold xmul, inf_times.
  destruct (Req_dec_T 0 0) as [_|H]; [reflexivity | now destruct H].
Qed.

Lemma fold_left_xadd_nan :
  forall l : list xreal, fold_left xadd l NaN = NaN.
Proof.
  induction l as [|x l IH]; simpl; [reflexivity | exact IH].
Qed.

(** With a zero probability, [0 * log 0] is NaN: the count vector [0, 1]
    under [probs = [0, 1]] has a NaN probability, and so has the total. *)
Lemma probabilities_with_zero_not_one :
  valid_probs_row [Fin 0; Fin 1]
  /\ total_probability xreal_special_step
       (xreal_dist (Fin (INR 1)) [Fin 0; Fin 1] false) 2 1 0
     = NaN
  /\ total_probability xreal_special_step
       (xreal_dist (Fin (INR 1)) [Fin 0; Fin 1] false) 2 1 0
     <> Fin 1.
Proof.
  assert (Hnan : total_probability xreal_special_step
                   (xreal_dist (Fin (INR 1)) [Fin 0; Fin 1] false) 2 1 0
                 = NaN).
  { unfold total_probability.
    change (compositions 2 1) with [[0; 1]; [1; 0]]. cbn [map].
    unfold Multinomial._prob at 1, counts_tensor at 1.
    rewrite (log_prob_vector
               (xreal_dist (Fin (INR 1)) [Fin 0; Fin 1] false)
               (Fin (INR 1)) [Fin 0; Fin 1] [Fin (INR 0); Fin (INR 1)]
               eq_refl eq_refl eq_refl eq_refl).
    cbn [ev_map ev_bind batch_value nth scalar shape values math_ops.exp_ tmap
           map].
    unfold log_prob_value.
    cbn [log mul map map2 combine fst snd xreal_special_step xreal_special
           xreal_arith INR].
    rewrite xlog_zero, xmul_zero_ninf.
    cbn [math_ops.sum fold_left xadd add sub xsub xreal_arith exp xexp].
    reflexivity. }
  split; [|split].
  - split.
    + repeat constructor; eexists; (split; [reflexivity | lra]).
    + simpl. f_equal. lra.
  - exact Hnan.
  - rewrite Hnan. discriminate.
Qed.

Lemma xreal_batch_dist_init :
  forall (total_count : xreal) (p : ndarray xreal),
    Multinomial.__init__ (mk_Tensor (Some 0) (Val (scalar total_count)))
      None (Some p) false true "Multinomial"
    = Return (xreal_batch_dist total_count p).
Proof. reflexivity. Qed.

Lemma probabilities_sum_to_one_witness :
  total_probability xreal_special_step
    (xreal_batch_dist (Fin (INR 4))
       (mk_ndarray [2; 3]
          [Fin (1 / 5); Fin (3 / 10); Fin (1 / 2);
           Fin (1 / 4); Fin (1 / 4); Fin (1 / 2)]))
    3 4 1
  = Fin 1.
Proof.
  refine (proj2 (probabilities_sum_to_one lgamma_step lgamma_step_fact
                   (xreal_batch_dist (Fin (INR 4))
                      (mk_ndarray [2; 3]
                         [Fin (1 / 5); Fin (3 / 10); Fin (1 / 2);
                          Fin (1 / 4); Fin (1 / 4); Fin (1 / 2)]))
                   (mk_ndarray [2; 3]
                      [Fin (1 / 5); Fin (3 / 10); Fin (1 / 2);
                       Fin (1 / 4); Fin (1 / 4); Fin (1 / 2)])
                   [2] 3 4 eq_refl eq_refl eq_refl _ eq_refl) 1 _).
  - constructor; [|constructor; [|constructor]]; split.
    + repeat constructor; eexists; (split; [reflexivity | lra]).
    + simpl. f_equal. lra.
    + repeat constructor; eexists; (split; [reflexivity | lra]).
    + simpl. f_equal. lra.
  - simpl. lia.
Defined.


(** * Further properties of multinomial.py *)

(** ** Parameters, shapes and the mean *)

Lemma forallb_false_exists :
  forall (A : Type) (f : A -> bool) (l : list A),
    forallb f l = false -> exists x, In x l /\ f x = false.
Proof.
  intros A f; induction l as [|a l IH]; cbn; [discriminate|].
  destruct (f a) eqn:Ha; cbn.
  - intros H. destruct (IH H) as (x & Hx & Hf). exists x. split; [now right|exact Hf].
  - intros _. exists a. split; [now left|exact Ha].
Qed.

Lemma forallb_map_id :
  forall (A : Type) (f : A -> bool) (l : list A),
    forallb (fun b : bool => b) (map f l) = forallb f l.
Proof.
  intros A f; induction l as [|a l IH]; cbn; [reflexivity|now rewrite IH].
Qed.

Lemma broadcast_shapes_snoc :
  forall (a b : list nat) (k : nat),
    broadcast_shapes (a ++ [1]) (b ++ [k])
    = option_map (fun c => c ++ [k]) (broadcast_shapes a b).
Proof.
  intros a b k. unfold broadcast_shapes. rewrite !rev_app_distr. cbn [rev app].
  cbn [broadcast_rev]. destruct (broadcast_rev (rev a) (rev b)) as [r|]; [|reflexivity].
  destruct (1 =? k) eqn:Hk; cbn.
  - apply Nat.eqb_eq in Hk. now subst.
  - reflexivity.
Qed.

Section Parameters.
Context {F : Type} {AR : Arith F} {CH : Checks F} {SP : Special F} {RO : RandomOps F}.

Lemma total_count_checks :
  forall (tc : Tensor F) (x : ndarray F),
    eval tc = Val x -> well_formed x ->
    eval (Multinomial._maybe_assert_valid_total_count tc true)
    = if forallb nonneg (values x)
      then if forallb (fun v => equal v (of_int (trunc v))) (values x)
           then Val x
           else Fail (InvalidArgumentError
                        "total_count cannot contain fractional values.")
      else Fail (InvalidArgumentError "total_count must be non-negative.").
Proof.
  intros tc x Hx Hwf. unfold Multinomial._maybe_assert_valid_total_count.
  cbn [negb eval]. rewrite Hx. cbn [ev_bind control_flow_ops.with_dependencies].
  unfold check_ops.assert_non_negative.
  destruct (forallb nonneg (values x)); cbn [ev_bind]; [|reflexivity].
  unfold distribution_util.assert_integer_form, check_ops.assert_equal.
  rewrite broadcast_op_same;
    [|reflexivity|exact Hwf|repeat apply tmap_well_formed; exact Hwf].
  cbn [ev_bind values math_ops.to_float math_ops.to_int64 tmap].
  rewrite map_map, map2_map_r.
  rewrite forallb_map_id.
  destruct (forallb _ (values x)); reflexivity.
Qed.

(** X1. Without [validate_args], [_maybe_assert_valid_total_count] returns
    [total_count] as it is.  With [validate_args] it keeps the static rank,
    and the guarded [total_count] evaluates, to the value it had, exactly
    when no entry is negative and none is fractional; otherwise its
    evaluation fails with InvalidArgumentError, with the message of the
    check that fails when only one of the two does. *)
Theorem total_count_validation :
  forall (tc : Tensor F) (x : ndarray F),
    eval tc = Val x -> well_formed x ->
    Multinomial._maybe_assert_valid_total_count tc false = tc
    /\ static_ndims (Multinomial._maybe_assert_valid_total_count tc true)
       = static_ndims tc
    /\ (eval (Multinomial._maybe_assert_valid_total_count tc true) = Val x
        <-> ~ has_negative x /\ ~ has_fractional x)
    /\ (has_negative x \/ has_fractional x ->
        exists msg,
          eval (Multinomial._maybe_assert_valid_total_count tc true)
          = Fail (InvalidArgumentError msg))
    /\ (has_negative x -> ~ has_fractional x ->
        eval (Multinomial._maybe_assert_valid_total_count tc true)
        = Fail (InvalidArgumentError "total_count must be non-negative."))
    /\ (~ has_negative x -> has_fractional x ->
        eval (Multinomial._maybe_assert_valid_total_count tc true)
        = Fail (InvalidArgumentError
                  "total_count cannot contain fractional values.")).
Proof.
  intros tc x Hx Hwf.
  assert (Hneg : has_negative x <-> forallb nonneg (values x) = false).
  { split.
    - intros (v & Hv & Hf). exact (forallb_false_In _ nonneg _ v Hv Hf).
    - apply forallb_false_exists. }
  assert (Hfr : has_fractional x
                <-> forallb (fun v => equal v (of_int (trunc v))) (values x) = false).
  { split.
    - intros (v & Hv & Hf).
      exact (forallb_false_In _ (fun v => equal v (of_int (trunc v))) _ v Hv Hf).
    - apply forallb_false_exists. }
  rewrite (total_count_checks tc x Hx Hwf).
  split; [reflexivity|]. split; [reflexivity|].
  rewrite Hneg, Hfr. clear Hneg Hfr.
  destruct (forallb nonneg (values x));
    destruct (forallb (fun v => equal v (of_int (trunc v))) (values x)).
  all: repeat split; try discriminate; try tauto;
    try (intros; eexists; reflexivity).
  all: intros; exfalso; intuition (try discriminate; try congruence).
Qed.

(** X3. For [probs] of shape [pb ++ [k]], [_event_shape_tensor] is [[k]]
    and [_batch_shape_tensor] is the shape of [total_count] broadcast with
    [pb]; together they are the shape of [mean].  When the two shapes do
    not broadcast, evaluating either of them fails. *)
Theorem batch_and_event_shape :
  forall (d : Multinomial.t F) (n p : ndarray F) (pb : list nat) (k : nat),
    eval (Multinomial.total_count d) = Val n ->
    Multinomial.probs d = Val p ->
    mean_cached d ->
    shape p = pb ++ [k] ->
    (forall bs, broadcast_shapes (shape n) pb = Some bs ->
       Multinomial._batch_shape_tensor d = Val bs
       /\ Multinomial._event_shape_tensor d = Val [k]
       /\ exists M, Multinomial._mean d = Val M /\ shape M = bs ++ [k])
    /\ (broadcast_shapes (shape n) pb = None ->
        (exists msg, Multinomial._batch_shape_tensor d
                     = Fail (InvalidArgumentError msg))
        /\ (exists msg, Multinomial._event_shape_tensor d
                        = Fail (InvalidArgumentError msg))).
Proof.
  intros d n p pb k Hn Hp Hm Hs.
  unfold Multinomial._batch_shape_tensor, Multinomial._event_shape_tensor,
    Multinomial._mean.
  rewrite Hm, Hn, Hp. cbn [ev_bind]. unfold math_ops.multiply, broadcast_op.
  cbn [array_ops.newaxis shape]. rewrite Hs, broadcast_shapes_snoc.
  split.
  - intros bs ->. cbn [option_map ev_bind ev_map array_ops.shape_ shape].
    rewrite removelast_last, last_dim_app.
    split; [reflexivity|]. split; [reflexivity|]. eexists. split; reflexivity.
  - intros ->. cbn [option_map ev_bind]. split; eexists; reflexivity.
Qed.

Lemma map2_ones_r :
  forall (A : Type) (l : list F) (l' : list A),
    (forall x : F, mul x one = x) ->
    length l = length l' ->
    map2 mul l (map (fun _ => one) l') = l.
Proof.
  intros A l l' H1. unfold map2. revert l'.
  induction l as [|x l IH]; intros [|y l'] Hlen; cbn in *; try discriminate;
    [reflexivity|].
  rewrite H1. f_equal. apply IH. lia.
Qed.

Lemma map2_repeat_l :
  forall (x : F) (l : list F),
    map2 mul (repeat x (length l)) l = map (mul x) l.
Proof.
  intros x l. unfold map2. induction l as [|y l IH]; cbn; [reflexivity|].
  now rewrite IH.
Qed.

(** X4. [_mean] returns the cached [total_count[..., newaxis] * probs]:
    entry [i] of batch member [b] is the trial count of [b] times the
    probability [i] of [b], both broadcast to the batch shape. *)
Theorem mean_entries :
  forall (d : Multinomial.t F) (n p : ndarray F) (bs : list nat) (k : nat),
    eval (Multinomial.total_count d) = Val n ->
    Multinomial.probs d = Val p ->
    well_formed n -> well_formed p -> mean_cached d ->
    broadcast_shapes (shape n ++ [1]) (shape p) = Some (bs ++ [k]) ->
    exists M : ndarray F,
      Multinomial._mean d = Val M
      /\ shape M = bs ++ [k]
      /\ length (values M) = numel bs * k
      /\ (forall b i, b < numel bs -> i < k ->
            nth (b * k + i) (values M) zero
            = mul (nth b (batch_counts n bs) zero)
                  (nth (b * k + i) (broadcast_to (bs ++ [k]) p) zero)).
Proof.
  intros d n p bs k Hn Hp Hwn Hwp Hm Hs.
  destruct (moments_structure d n p bs k Hn Hp Hwn Hwp Hm Hs)
    as (Hlc & Hlp & HM & _).
  unfold Multinomial._mean. rewrite HM. cbn [ev_map ev_bind].
  eexists. split; [reflexivity|]. cbn [array_ops.identity shape values].
  split; [reflexivity|].
  assert (Hle : length (expand k (batch_counts n bs)) = numel bs * k).
  { unfold expand. rewrite length_flat_map_repeat. now rewrite Hlc. }
  split.
  - rewrite length_map2; [exact Hle|]. now rewrite Hle, Hlp.
  - intros b i Hb Hi.
    assert (Hbi : b * k + i < numel bs * k) by nia.
    rewrite (nth_map2 _ _ _ mul _ _ _ zero zero zero) by lia.
    unfold expand. rewrite nth_flat_map_repeat; [reflexivity|lia|exact Hi].
Qed.

(** X5. For a scalar [total_count = x] and a vector of probabilities,
    [_mean] is the vector of the products [x * p_i]. *)
Theorem mean_of_vector :
  forall (d : Multinomial.t F) (x : F) (ps : list F),
    eval (Multinomial.total_count d) = Val (scalar x) ->
    Multinomial.probs d = Val (vector ps) ->
    mean_cached d ->
    Multinomial._mean d = Val (vector (map (mul x) ps)).
Proof.
  intros d x ps Hn Hp Hm. unfold Multinomial._mean. rewrite Hm, Hn, Hp.
  cbn [ev_bind]. unfold math_ops.multiply, broadcast_op.
  change (shape (array_ops.newaxis (scalar x))) with ([] ++ [1]).
  change (shape (vector ps)) with ([] ++ [length ps]).
  rewrite broadcast_shapes_snoc.
  cbn [broadcast_shapes rev broadcast_rev option_map app ev_map].
  unfold broadcast_to, pad_shape, array_ops.identity.
  change (shape (array_ops.newaxis (scalar x))) with [1].
  change (values (array_ops.newaxis (scalar x))) with [x].
  change (shape (vector ps)) with [length ps].
  change (values (vector ps)) with ps.
  cbn [length Nat.sub repeat app].
  rewrite (broadcast_values_scalar F x [length ps]
           : broadcast_values [1] [length ps] [x] = _).
  rewrite (broadcast_values_same F [length ps] ps) by (cbn; lia).
  cbn [numel fold_right]. rewrite Nat.mul_1_r, map2_repeat_l.
  unfold vector. now rewrite length_map.
Qed.

End Parameters.

(** ** An invalid [total_count]; the probability mass function *)

Section InvalidTotalCount.
Context {F : Type} {AR : Arith F} {CH : Checks F} {SP : Special F} {RO : RandomOps F}.

(** X6. Multiplying [probs] by [ones_like(total_count)[..., newaxis]]
    changes no value as soon as [x * 1 = x]: the result is [probs]
    broadcast to the shape of [mean], and [probs] itself when it has that
    shape already. *)
Theorem probs_broadcast_values :
  (forall x : F, mul x one = x) ->
  forall (d : Multinomial.t F) (n p : ndarray F) (bs : list nat) (k : nat),
    eval (Multinomial.total_count d) = Val n ->
    Multinomial.probs d = Val p ->
    well_formed n -> well_formed p -> mean_cached d ->
    broadcast_shapes (shape n ++ [1]) (shape p) = Some (bs ++ [k]) ->
    Multinomial.probs_broadcast d
    = Val (mk_ndarray (bs ++ [k]) (broadcast_to (bs ++ [k]) p))
    /\ (shape p = bs ++ [k] -> Multinomial.probs_broadcast d = Val p).
Proof.
  intros H1 d n p bs k Hn Hp Hwn Hwp Hm Hs.
  destruct (moments_structure d n p bs k Hn Hp Hwn Hwp Hm Hs)
    as (Hlc & Hlp & _ & HP).
  assert (HP' : Multinomial.probs_broadcast d
                = Val (mk_ndarray (bs ++ [k]) (broadcast_to (bs ++ [k]) p))).
  { rewrite HP. do 2 f_equal. apply map2_ones_r; [exact H1|].
    unfold expand. now rewrite length_flat_map_repeat, Hlc, Hlp. }
  split; [exact HP'|].
  intros Hsp. rewrite HP'. unfold broadcast_to. rewrite <- Hsp.
  rewrite pad_shape_same, broadcast_values_same by exact Hwp.
  now destruct p.
Qed.

Lemma fail_with_message :
  forall (A : Type) (m : ev A) (e : op_error),
    m = Fail e -> exists msg, m = Fail (InvalidArgumentError msg).
Proof. intros A m [msg] ->. now exists msg. Qed.

Lemma invalid_total_count_fails :
  forall (tc : Tensor F) (x : ndarray F),
    eval tc = Val x -> well_formed x ->
    has_negative x \/ has_fractional x ->
    exists e, eval (Multinomial._maybe_assert_valid_total_count tc true) = Fail e.
Proof.
  intros tc x Hx Hwf Hbad. rewrite (total_count_checks tc x Hx Hwf).
  destruct (forallb nonneg (values x)) eqn:Hnn; [|now eexists].
  destruct (forallb (fun v => equal v (of_int (trunc v))) (values x)) eqn:Hint;
    [|now eexists].
  exfalso. destruct Hbad as [(v & Hv & Hf)|(v & Hv & Hf)].
  - rewrite (forallb_false_In _ nonneg _ v Hv Hf) in Hnn. discriminate.
  - rewrite (forallb_false_In _ (fun v => equal v (of_int (trunc v))) _ v Hv Hf)
      in Hint. discriminate.
Qed.

(** X2. An invalid [total_count] does not make [__init__] raise.  Under
    [validate_args] the distribution is built all the same, and the error
    surfaces when [total_count], [mean], [variance], [covariance],
    [log_prob], [prob] or, for a static rank that is 0 or unknown, a sample
    is evaluated. *)
Theorem invalid_total_count_surfaces :
  forall (tc : Tensor F) (lg pr : option (ndarray F)) (ans : bool)
         (name : string) (d : Multinomial.t F) (x : ndarray F),
    Multinomial.__init__ tc lg pr true ans name = Return d ->
    eval tc = Val x -> well_formed x ->
    has_negative x \/ has_fractional x ->
    (exists msg, eval (Multinomial.total_count d)
                 = Fail (InvalidArgumentError msg))
    /\ (exists msg, Multinomial._mean d = Fail (InvalidArgumentError msg))
    /\ (exists msg, Multinomial._variance d = Fail (InvalidArgumentError msg))
    /\ (exists msg, Multinomial._covariance d = Fail (InvalidArgumentError msg))
    /\ (forall counts,
          (exists msg, Multinomial._log_prob d counts
                       = Fail (InvalidArgumentError msg))
          /\ (exists msg, Multinomial._prob d counts
                          = Fail (InvalidArgumentError msg)))
    /\ (forall entropy n seed,
          static_ndims tc = Some 0 \/ static_ndims tc = None ->
          exists msg, Multinomial._sample_n entropy d n seed
                      = Return (Fail (InvalidArgumentError msg))).
Proof.
  intros tc lg pr ans name d x Hinit Hx Hwf Hbad.
  destruct (invalid_total_count_fails tc x Hx Hwf Hbad) as [e He].
  assert (Hst : static_ndims (Multinomial._maybe_assert_valid_total_count tc true)
                = static_ndims tc) by reflexivity.
  unfold Multinomial.__init__ in Hinit. cbv zeta in Hinit.
  set (tc' := Multinomial._maybe_assert_valid_total_count tc true) in *.
  clearbody tc'.
  destruct (distribution_util.get_logits_and_probs lg pr true) as [[l p]|ex];
    cbn [py_bind fst snd] in Hinit; [|discriminate].
  injection Hinit as <-.
  unfold Multinomial._mean, Multinomial._variance, Multinomial._covariance,
    Multinomial._prob, Multinomial._log_prob, Multinomial._log_unnormalized_prob,
    Multinomial._maybe_assert_valid_sample, Multinomial.probs_broadcast,
    Multinomial._sample_n, Multinomial.probs, Multinomial.total_count.
  cbn [Multinomial._probs Multinomial._total_count Multinomial._mean_val
       Multinomial.validate_args negb].
  rewrite He, Hst. cbn [ev_bind ev_map].
  repeat split.
  - now apply (fail_with_message _ _ e).
  - now apply (fail_with_message _ _ e).
  - destruct p as [p|e']; cbn [ev_bind].
    + now apply (fail_with_message _ _ e).
    + now apply (fail_with_message _ _ e').
  - destruct p as [p|e']; cbn [ev_bind].
    + now apply (fail_with_message _ _ e).
    + now apply (fail_with_message _ _ e').
  - destruct (distribution_util.embed_check_nonnegative_discrete counts true)
      as [c|e'']; cbn [ev_bind control_flow_ops.with_dependencies].
    + now apply (fail_with_message _ _ e).
    + now apply (fail_with_message _ _ e'').
  - destruct (distribution_util.embed_check_nonnegative_discrete counts true)
      as [c|e'']; cbn [ev_bind ev_map control_flow_ops.with_dependencies].
    + now apply (fail_with_message _ _ e).
    + now apply (fail_with_message _ _ e'').
  - intros entropy n seed Hrank. destruct e as [msg]. exists msg.
    destruct Hrank as [-> | ->]; reflexivity.
Qed.

End InvalidTotalCount.

(** X7. The probability mass function of the class docstring: for
    strictly positive probabilities [ps], a scalar [total_count = N] and a
    vector [c] of counts (summing to [N] when [validate_args] is set),
    [_prob] returns [N! * prod_j (p_j ^ c_j / c_j!)], in exact arithmetic. *)
Theorem prob_closed_form :
  forall (lgammaR : R -> R),
    (forall n : nat, lgammaR (INR n + 1)%R = ln (INR (fact n))) ->
    forall (d : Multinomial.t xreal) (ps : list R) (N : nat) (c : list nat),
      Multinomial.probs d = Val (vector (map Fin ps)) ->
      eval (Multinomial.total_count d) = Val (scalar (Fin (INR N))) ->
      Forall (fun p => (0 < p)%R) ps ->
      length c = length ps ->
      (Multinomial.validate_args d = true -> list_sum c = N) ->
      @Multinomial._prob xreal xreal_arith xreal_checks (xreal_special lgammaR)
        d (counts_tensor c)
      = Val (scalar (Fin (INR (fact N) * weight ps c))).
Proof.
  intros lgammaR Hlg d ps N c Hp Htc Hps Hlen Hsum.
  unfold Multinomial._prob, counts_tensor.
  rewrite (log_prob_vector d (Fin (INR N)) (map Fin ps)
             (map (fun n => Fin (INR n)) c) Hp Htc).
  - cbn [ev_map ev_bind]. unfold math_ops.exp_, tmap, scalar.
    cbn [shape values map exp xreal_special].
    now rewrite (log_prob_value_fin lgammaR Hlg ps c N Hps Hlen).
  - destruct (Multinomial.validate_args d) eqn:Hva.
    + now apply valid_counts_pass with (N := N); [|apply Hsum].
    + unfold Multinomial._maybe_assert_valid_sample. now rewrite Hva.
  - now rewrite !length_map.
Qed.

(** X8. With two classes the Multinomial is the Binomial: for
    [probs = [p, 1 - p]] and [c <= N], the probability of the counts
    [[c, N - c]] is [C(N, c) * p ^ c * (1 - p) ^ (N - c)]. *)
Theorem binomial_special_case :
  forall (lgammaR : R -> R),
    (forall n : nat, lgammaR (INR n + 1)%R = ln (INR (fact n))) ->
    forall (d : Multinomial.t xreal) (p : R) (N c : nat),
      Multinomial.probs d = Val (vector [Fin p; Fin (1 - p)]) ->
      eval (Multinomial.total_count d) = Val (scalar (Fin (INR N))) ->
      (0 < p < 1)%R -> c <= N ->
      @Multinomial._prob xreal xreal_arith xreal_checks (xreal_special lgammaR)
        d (counts_tensor [c; N - c])
      = Val (scalar (Fin (Binomial.C N c * p ^ c * (1 - p) ^ (N - c)))).
Proof.
  intros lgammaR Hlg d p N c Hp Htc Hp01 Hc.
  unfold Multinomial._prob, counts_tensor.
  rewrite (log_prob_vector d (Fin (INR N)) (map Fin [p; (1 - p)%R])
             (map (fun n => Fin (INR n)) [c; N - c]) Hp Htc).
  - assert (Hps : Forall (fun q => (0 < q)%R) [p; (1 - p)%R])
      by (repeat constructor; lra).
    pose proof (log_prob_value_fin lgammaR Hlg [p; (1 - p)%R] [c; N - c] N
                  Hps eq_refl) as Hv.
    cbn [ev_map ev_bind]. unfold math_ops.exp_, tmap, scalar.
    cbn [shape values map exp xreal_special] in Hv |- *.
    assert (Hr : (INR (fact N) * weight [p; (1 - p)%R] [c; (N - c)%nat]
                  = Binomial.C N c * p ^ c * (1 - p) ^ (N - c))%R).
    { cbn [weight]. unfold Binomial.C. field. split; apply INR_fact_neq_0. }
    now rewrite Hv, Hr.
  - apply valid_counts_pass with (N := N); [exact Htc|]. cbn. lia.
  - reflexivity.
Qed.

(** ** Validation of counts *)

Section Validation.
Context {F : Type} {AR : Arith F} {CH : Checks F} {SP : Special F} {RO : RandomOps F}.

Lemma unvalidated_sample :
  forall (d : Multinomial.t F) (counts : ndarray F),
    Multinomial._maybe_assert_valid_sample (without_validation d) counts
    = Val counts.
Proof. reflexivity. Qed.

Lemma log_unnormalized_prob_unvalidated :
  forall (d : Multinomial.t F) (counts r : ndarray F),
    Multinomial._log_unnormalized_prob d counts = Val r ->
    Multinomial._log_unnormalized_prob (without_validation d) counts = Val r.
Proof.
  intros d counts r. unfold Multinomial._log_unnormalized_prob.
  rewrite unvalidated_sample.
  destruct (Multinomial._maybe_assert_valid_sample d counts) as [c|e] eqn:Hc;
    cbn [ev_bind]; [|discriminate].
  apply maybe_assert_valid_sample_val in Hc. subst c. exact (fun H => H).
Qed.

Lemma log_normalization_unvalidated :
  forall (d : Multinomial.t F) (counts r : ndarray F),
    Multinomial._log_normalization d counts = Val r ->
    Multinomial._log_normalization (without_validation d) counts = Val r.
Proof.
  intros d counts r. unfold Multinomial._log_normalization.
  rewrite unvalidated_sample.
  destruct (Multinomial._maybe_assert_valid_sample d counts) as [c|e] eqn:Hc;
    cbn [ev_bind]; [|discriminate].
  apply maybe_assert_valid_sample_val in Hc. subst c. exact (fun H => H).
Qed.

(** X17. Validation only rejects: whenever [log_unnormalized_prob],
    [log_normalization], [log_prob] or [prob] evaluates, under
    [validate_args] or not, it evaluates to what the same distribution
    without [validate_args] computes. *)
Theorem validation_only_rejects :
  forall (d : Multinomial.t F) (counts r : ndarray F),
    (Multinomial._log_unnormalized_prob d counts = Val r ->
     Multinomial._log_unnormalized_prob (without_validation d) counts = Val r)
    /\ (Multinomial._log_normalization d counts = Val r ->
        Multinomial._log_normalization (without_validation d) counts = Val r)
    /\ (Multinomial._log_prob d counts = Val r ->
        Multinomial._log_prob (without_validation d) counts = Val r)
    /\ (Multinomial._prob d counts = Val r ->
        Multinomial._prob (without_validation d) counts = Val r).
Proof.
  intros d counts r.
  assert (Hlp : forall r', Multinomial._log_prob d counts = Val r' ->
                  Multinomial._log_prob (without_validation d) counts = Val r').
  { intros r'. unfold Multinomial._log_prob.
    destruct (Multinomial._log_unnormalized_prob d counts) as [u|e] eqn:Hu;
      cbn [ev_bind]; [|discriminate].
    destruct (Multinomial._log_normalization d counts) as [z|e] eqn:Hz;
      cbn [ev_bind]; [|discriminate].
    rewrite (log_unnormalized_prob_unvalidated d counts u Hu),
      (log_normalization_unvalidated d counts z Hz).
    exact (fun H => H). }
  split; [apply log_unnormalized_prob_unvalidated|].
  split; [apply log_normalization_unvalidated|].
  split; [apply Hlp|].
  unfold Multinomial._prob.
  destruct (Multinomial._log_prob d counts) as [lp|e] eqn:Hl;
    cbn [ev_map ev_bind]; [|discriminate].
  now rewrite (Hlp lp eq_refl).
Qed.

(** X18. Under [validate_args], [_maybe_assert_valid_sample] lets through
    exactly the counts it should, unchanged: those with no negative entry,
    no fractional entry, and every sum over the last axis equal to the
    [total_count] it is compared with. *)
Theorem valid_sample_accepted :
  forall (d : Multinomial.t F) (counts n s : ndarray F) (c : ndarray bool),
    Multinomial.validate_args d = true ->
    eval (Multinomial.total_count d) = Val n ->
    well_formed counts ->
    math_ops.reduce_sum counts (-1) = Val s ->
    broadcast_op equal n s = Val c ->
    (Multinomial._maybe_assert_valid_sample d counts = Val counts
     <-> ~ has_negative counts /\ ~ has_fractional counts
         /\ ~ In false (values c)).
Proof.
  intros d counts n s c Hva Hn Hwf Hs Hc.
  split.
  - intros Hok. repeat split.
    + intros Hneg.
      apply (maybe_assert_valid_sample_rejects d counts n Hva Hn Hwf
               (or_introl Hneg) counts Hok).
    + intros Hfr.
      apply (maybe_assert_valid_sample_rejects d counts n Hva Hn Hwf
               (or_intror (or_introl Hfr)) counts Hok).
    + intros Hf.
      apply (maybe_assert_valid_sample_rejects d counts n Hva Hn Hwf
               (or_intror (or_intror
                  (ex_intro _ s (ex_intro _ c (conj Hs (conj Hc Hf))))))
               counts Hok).
  - intros (Hneg & Hfr & Hsum).
    unfold Multinomial._maybe_assert_valid_sample. rewrite Hva, Hn.
    cbn [negb]. unfold distribution_util.embed_check_nonnegative_discrete.
    cbn [control_flow_ops.with_dependencies].
    unfold check_ops.assert_non_negative at 1.
    destruct (forallb nonneg (values counts)) eqn:Hnn.
    2:{ destruct Hneg. now apply forallb_false_exists. }
    cbn [ev_bind].
    unfold distribution_util.assert_integer_form, check_ops.assert_equal at 1.
    rewrite broadcast_op_same;
      [|reflexivity|exact Hwf|repeat apply tmap_well_formed; exact Hwf].
    cbn [ev_bind values math_ops.to_float math_ops.to_int64 tmap].
    rewrite map_map, map2_map_r, forallb_map_id.
    destruct (forallb (fun x => equal x (of_int (trunc x))) (values counts))
      eqn:Hint.
    2:{ destruct Hfr. now apply forallb_false_exists in Hint. }
    cbn [ev_bind]. rewrite Hs. cbn [ev_bind].
    unfold check_ops.assert_equal. rewrite Hc. cbn [ev_bind].
    destruct (forallb (fun b : bool => b) (values c)) eqn:Hall; [reflexivity|].
    destruct Hsum. apply forallb_false_exists in Hall.
    destruct Hall as ([|] & Hb & Hf); [discriminate|exact Hb].
Qed.

End Validation.

(** ** Samples *)

Lemma broadcast_op_scalar_l :
  forall (A B C : Type) (f : A -> B -> C) (y : A) (b : ndarray B),
    well_formed b ->
    broadcast_op f (scalar y) b
    = Val (mk_ndarray (shape b) (map (f y) (values b))).
Proof.
  intros A B C f y b Hwb. unfold broadcast_op, broadcast_to.
  cbn [shape values scalar].
  assert (Hs : broadcast_shapes [] (shape b) = Some (shape b)).
  { unfold broadcast_shapes. cbn [rev broadcast_rev option_map].
    now rewrite rev_involutive. }
  rewrite Hs, pad_shape_same.
  rewrite broadcast_values_same by exact Hwb.
  unfold pad_shape. cbn [length]. rewrite Nat.sub_0_r, app_nil_r.
  rewrite broadcast_values_scalar. f_equal. f_equal.
  unfold well_formed in Hwb. rewrite <- Hwb. unfold map2.
  generalize (values b). intro l. induction l as [|x l IH]; simpl;
    [reflexivity | now rewrite IH].
Qed.

Section SampleValidity.
Context {F : Type} {AR : Arith F} {CH : Checks F} {RO : RandomOps F}.
Context {EX : @ExactArith F AR CH}.

Lemma sum_ones_zeros :
  forall l : list F,
    Forall (fun v => v = one \/ v = zero) l ->
    exists c : nat, math_ops.sum l = of_int (Z.of_nat c).
Proof.
  induction l as [|v l IH]; intros H.
  - exists 0. cbn. now rewrite of_int_zero.
  - inversion H as [|? ? Hv Hl]; subst. destruct (IH Hl) as [c Hc].
    rewrite sum_cons, Hc. destruct Hv as [-> | ->].
    + exists (S c). rewrite Nat2Z.inj_succ. unfold Z.succ.
      now rewrite of_int_succ, add_comm.
    + exists c. apply add_zero_l.
Qed.

Lemma count_vector_entries :
  forall (k : nat) (run : list Z),
    Forall (fun v : F => exists c : nat, v = of_int (Z.of_nat c))
           (count_vector k run).
Proof.
  intros k run. unfold count_vector, math_ops.sum_columns.
  apply Forall_forall. intros v Hv. apply in_map_iff in Hv.
  destruct Hv as (c & <- & Hc). apply in_seq in Hc.
  apply sum_ones_zeros. apply Forall_forall. intros w Hw.
  apply in_map_iff in Hw. destruct Hw as (row & <- & Hrow).
  apply in_map_iff in Hrow. destruct Hrow as (i & <- & _).
  unfold array_ops.one_hot_row.
  rewrite (nth_map_in_range _ _ _ _ _ 0 zero) by (rewrite length_seq; lia).
  rewrite seq_nth by lia. cbn [Nat.add].
  destruct (Z.of_nat c =? i)%Z; [now left|now right].
Qed.

Lemma sample_values_rows :
  forall (P : list F -> Prop) (stream : Z) (L : list F) (B k n nn : nat),
    (forall run,
        In run (chunks nn (B * n) (draws_of stream (chunks k B L) (n * nn))) ->
        P (count_vector k run)) ->
    Forall P (chunks k (n * B) (sample_values stream L B k n nn)).
Proof.
  intros P stream L B k n nn HP.
  set (draws := draws_of stream (chunks k B L) (n * nn)) in *.
  set (v := map (count_vector k) (chunks nn (B * n) draws)).
  assert (Hlv : length v = B * n)
    by (unfold v; now rewrite length_map, chunks_length).
  assert (Hv : Forall (fun row => length row = k /\ P row) v).
  { apply Forall_forall. intros row Hrow. apply in_map_iff in Hrow.
    destruct Hrow as (run & <- & Hrun). split; [apply sum_columns_length|].
    now apply HP. }
  assert (Hrows : Forall (fun row => length row = k /\ P row)
                         (concat (array_ops.transpose_lists n (chunks n B v)))).
  { apply Forall_forall. intros row Hrow. apply transpose_lists_In in Hrow.
    - rewrite concat_chunks in Hrow by exact Hlv.
      rewrite Forall_forall in Hv. now apply Hv.
    - apply chunks_Forall_length. exact Hlv. }
  unfold sample_values. fold draws. fold v.
  replace (n * B) with
    (length (concat (array_ops.transpose_lists n (chunks n B v)))).
  - rewrite chunks_concat.
    + eapply Forall_impl; [|exact Hrows]. now intros row [_ Hrow].
    + eapply Forall_impl; [|exact Hrows]. now intros row [Hrow _].
  - rewrite (length_concat_const B).
    + now rewrite transpose_lists_length.
    + eapply Forall_impl; [|apply transpose_lists_rows_length].
      intros col Hcol. now rewrite Hcol, chunks_length.
Qed.


End SampleValidity.

(** * Properties of execute.py *)

(** ** args_to_matching_eager *)

Section ExecuteMatching.
Context {V D E : Type} {EG : execute.Eager V D E}.
Import execute.
Local Open Scope outcome_scope.

Lemma convert_inferring_known :
  forall (l : list V) (d : D) (ret : list V),
    convert_inferring l (Some d) ret
    = (r <- convert_each l (Some d) ;; Ok (Some d, ret ++ r)).
Proof.
  induction l as [|t l IH]; intros d ret; cbn.
  - now rewrite app_nil_r.
  - destruct (convert_to_tensor t (Some d)) as [x|e]; cbn; [|reflexivity].
    rewrite IH. destruct (convert_each l (Some d)) as [r|e]; cbn; [|reflexivity].
    now rewrite <- app_assoc.
Qed.

Lemma convert_each_length :
  forall (l : list V) (dt : option D) (r : list V),
    convert_each l dt = Ok r -> length r = length l.
Proof.
  induction l as [|t l IH]; intros dt r; cbn.
  - intros H; inversion H; reflexivity.
  - destruct (convert_to_tensor t dt) as [x|e]; cbn; [|discriminate].
    destruct (convert_each l dt) as [r'|e] eqn:Hr; cbn; [|discriminate].
    intros H; inversion H; subst; cbn. f_equal. now apply (IH dt).
Qed.

Lemma convert_each_dtype :
  (forall (v : V) (d : D) (x : V),
      convert_to_tensor v (Some d) = Ok x -> dtype_attr x = d) ->
  forall (l : list V) (d : D) (r : list V),
    convert_each l (Some d) = Ok r -> Forall (fun x => dtype_attr x = d) r.
Proof.
  intros Hc; induction l as [|t l IH]; intros d r; cbn.
  - intros H; inversion H; constructor.
  - destruct (convert_to_tensor t (Some d)) as [x|e] eqn:Hx; cbn; [|discriminate].
    destruct (convert_each l (Some d)) as [r'|e] eqn:Hr; cbn; [|discriminate].
    intros H; inversion H; subst. constructor; [now apply (Hc t)|now apply IH].
Qed.

Lemma matching_eager_cases :
  forall (l : list V) (default_dtype : option D),
    args_to_matching_eager l default_dtype
    = match first_tensor_dtype l, default_dtype, l with
      | Some d, _, _ | None, Some d, _ =>
          ret <- convert_each l (Some d) ;; Ok (Some d, ret)
      | None, None, [] => Ok (None, [])
      | None, None, t :: l' =>
          x <- convert_to_tensor t None ;;
          ret <- convert_each l' (Some (dtype_attr x)) ;;
          Ok (Some (dtype_attr x), x :: ret)
      end.
Proof.
  intros l default_dtype. unfold args_to_matching_eager.
  destruct (first_tensor_dtype l) as [d|]; [reflexivity|].
  destruct default_dtype as [d|]; [reflexivity|].
  destruct l as [|t l']; [reflexivity|].
  cbn. destruct (convert_to_tensor t None) as [x|e]; cbn; [|reflexivity].
  now rewrite convert_inferring_known.
Qed.

(** X11. The dtype [args_to_matching_eager] converts to: the dtype of the
    first value that is a tensor already, whatever [default_dtype] is;
    without such a value, [default_dtype]; without either, the dtype the
    first value gets when it is converted with no dtype asked for, the
    values after it being converted to that dtype.  An empty list is
    returned with [default_dtype]. *)
Theorem args_to_matching_eager_dtype :
  forall (l : list V) (default_dtype : option D),
    (forall d, first_tensor_dtype l = Some d ->
       args_to_matching_eager l default_dtype
       = (ret <- convert_each l (Some d) ;; Ok (Some d, ret)))
    /\ (forall d, first_tensor_dtype l = None -> default_dtype = Some d ->
          args_to_matching_eager l default_dtype
          = (ret <- convert_each l (Some d) ;; Ok (Some d, ret)))
    /\ (first_tensor_dtype l = None -> default_dtype = None -> l = [] ->
        args_to_matching_eager l default_dtype = Ok (None, []))
    /\ (forall t l',
          first_tensor_dtype l = None -> default_dtype = None -> l = t :: l' ->
          args_to_matching_eager l default_dtype
          = (x <- convert_to_tensor t None ;;
             ret <- convert_each l' (Some (dtype_attr x)) ;;
             Ok (Some (dtype_attr x), x :: ret))).
Proof.
  intros l default_dtype. rewrite matching_eager_cases.
  split; [|split; [|split]].
  - intros d ->. reflexivity.
  - intros d -> ->. reflexivity.
  - intros -> -> ->. reflexivity.
  - intros t l' Hf -> ->. now rewrite Hf.
Qed.

(** X12. When converting to a dtype yields a tensor of that dtype, what
    [args_to_matching_eager] returns for a non-empty list is a dtype and as
    many tensors as there were values, all of that dtype. *)
Theorem args_to_matching_eager_same_dtype :
  (forall (v : V) (d : D) (x : V),
      convert_to_tensor v (Some d) = Ok x -> dtype_attr x = d) ->
  forall (l : list V) (default_dtype dtype : option D) (ret : list V),
    args_to_matching_eager l default_dtype = Ok (dtype, ret) ->
    length ret = length l
    /\ (l = [] -> dtype = default_dtype)
    /\ (l <> [] ->
        exists d, dtype = Some d /\ Forall (fun x => dtype_attr x = d) ret).
Proof.
  intros Hc l default_dtype dtype ret.
  rewrite matching_eager_cases.
  assert (Hknown : forall d,
             (r <- convert_each l (Some d) ;; Ok (Some d, r)) = Ok (dtype, ret) ->
             length ret = length l
             /\ (l = [] -> dtype = default_dtype \/ True)
             /\ exists d', dtype = Some d' /\ Forall (fun x => dtype_attr x = d') ret).
  { intros d. destruct (convert_each l (Some d)) as [r|e] eqn:Hr; cbn; [|discriminate].
    intros H; inversion H; subst. split; [now apply convert_each_length in Hr|].
    split; [now right|]. exists d; split; [reflexivity|now apply (convert_each_dtype Hc l)]. }
  destruct (first_tensor_dtype l) as [d|] eqn:Hf.
  - intros H. destruct (Hknown d H) as (H1 & _ & H3).
    split; [exact H1|]. split; [|intros _; exact H3].
    intros ->. discriminate.
  - destruct default_dtype as [d|].
    + intros H. destruct (Hknown d H) as (H1 & _ & H3).
      split; [exact H1|]. split; [|intros _; exact H3].
      intros ->. cbn in H. now inversion H.
    + destruct l as [|t l'].
      * intros H; inversion H; subst. split; [reflexivity|]. split; [reflexivity|].
        intros Hn; now elim Hn.
      * destruct (convert_to_tensor t None) as [x|e]; cbn; [|discriminate].
        destruct (convert_each l' (Some (dtype_attr x))) as [r|e] eqn:Hr; cbn; [|discriminate].
        intros H; inversion H; subst. split.
        { cbn. f_equal. now apply convert_each_length in Hr. }
        split; [discriminate|]. intros _. exists (dtype_attr x). split; [reflexivity|].
        constructor; [reflexivity|now apply (convert_each_dtype Hc l')].
Qed.

End ExecuteMatching.

(** ** convert_to_mixed_eager_tensors *)

Section ExecuteConvert.
Context {V D E : Type} {EG : execute.Eager V D E}.
Import execute.
Local Open Scope outcome_scope.

Lemma convert_to_mixed_values_spec :
  (forall t x : V, new_tensor t = Ok x -> is_tensor x = true) ->
  forall values v : list V,
    convert_to_mixed_values values = Ok v ->
    length v = length values
    /\ Forall (fun x => is_tensor x = true) v
    /\ (forall i t, nth_error values i = Some t -> is_tensor t = true ->
          nth_error v i = Some t).
Proof.
  intros Hnew vals. induction vals as [|t vals IH]; intros v; cbn.
  - intros H; inversion H; subst. repeat split; [constructor|].
    intros [|i] t; discriminate.
  - destruct (is_tensor t) eqn:Ht.
    + cbn. destruct (convert_to_mixed_values vals) as [r|e]; cbn; [|discriminate].
      intros H; inversion H; subst. destruct (IH r eq_refl) as (H1 & H2 & H3).
      repeat split; [cbn; now f_equal|constructor; assumption|].
      intros [|i] t' Hi Ht'; cbn in *; [exact Hi|now apply H3].
    + destruct (new_tensor t) as [x|e] eqn:Hx; cbn; [|discriminate].
      destruct (convert_to_mixed_values vals) as [r|e]; cbn; [|discriminate].
      intros H; inversion H; subst. destruct (IH r eq_refl) as (H1 & H2 & H3).
      repeat split; [cbn; now f_equal|constructor; [now apply (Hnew t)|assumption]|].
      intros [|i] t' Hi Ht'; cbn in *; [|now apply H3].
      inversion Hi; subst. congruence.
Qed.

Lemma convert_to_mixed_values_tensors :
  forall v : list V,
    Forall (fun x => is_tensor x = true) v ->
    @convert_to_mixed_values V D E EG v = Ok v.
Proof.
  induction v as [|x v IH]; intros H; cbn; [reflexivity|].
  inversion H as [|? ? Hx Hv]; subst. rewrite Hx. cbn. now rewrite (IH Hv).
Qed.

(** X13. [convert_to_mixed_eager_tensors] keeps the number and the order
    of the values, returns a value that is a tensor already as it is, and
    lists the dtype of each result; when [tensor.Tensor(t)] is a tensor,
    converting the result again changes nothing. *)
Theorem convert_to_mixed_eager_tensors_idempotent :
  (forall t x : V, new_tensor t = Ok x -> is_tensor x = true) ->
  forall (values : list V) (types : list D) (v : list V),
    convert_to_mixed_eager_tensors values = Ok (types, v) ->
    length v = length values
    /\ types = map dtype_attr v
    /\ (forall i t, nth_error values i = Some t -> is_tensor t = true ->
          nth_error v i = Some t)
    /\ convert_to_mixed_eager_tensors v = Ok (types, v).
Proof.
  intros Hnew values types v. unfold convert_to_mixed_eager_tensors.
  destruct (convert_to_mixed_values values) as [r|e] eqn:Hr; cbn; [|discriminate].
  intros H; inversion H; subst.
  destruct (convert_to_mixed_values_spec Hnew values v Hr) as (H1 & H2 & H3).
  repeat split; [exact H1|exact H3|].
  now rewrite (convert_to_mixed_values_tensors v H2).
Qed.

End ExecuteConvert.

(** ** args_to_mixed_eager_tensors *)

Section ExecuteMixed.
Context {V D E : Type} {EG : execute.Eager V D E}.
Import execute.
Local Open Scope outcome_scope.

Lemma check_lengths_ok :
  forall (l0 : list V) (rest : list (list V)) (acc r : list (list V)),
    @check_lengths V E l0 rest acc = Ok r
    <-> Forall (fun l => length l = length l0) rest
        /\ r = acc ++ repeat [] (length rest).
Proof.
  intros l0; induction rest as [|l rest IH]; intros acc r; cbn.
  - rewrite app_nil_r. split.
    + intros H; inversion H; split; [constructor|reflexivity].
    + intros [_ ->]; reflexivity.
  - destruct (length l =? length l0) eqn:Hl; cbn.
    + apply Nat.eqb_eq in Hl. rewrite IH, <- app_assoc. cbn. split.
      * intros [H1 H2]; split; [constructor; assumption|assumption].
      * intros [H1 H2]; split; [now inversion H1|assumption].
    + apply Nat.eqb_neq in Hl. split; [discriminate|].
      intros [H1 _]; inversion H1; contradiction.
Qed.

Lemma check_lengths_mismatch :
  forall (l0 : list V) (pre : list (list V)) (l : list V)
         (post acc : list (list V)),
    Forall (fun l' => length l' = length l0) pre ->
    length l <> length l0 ->
    @check_lengths V E l0 (pre ++ l :: post) acc
    = Raised (ValueError (length l0) (length l) l0 l).
Proof.
  intros l0; induction pre as [|p pre IH]; intros l post acc Hpre Hl; cbn.
  - apply Nat.eqb_neq in Hl. now rewrite Hl.
  - inversion Hpre as [|? ? Hp Hpre']; subst.
    apply Nat.eqb_eq in Hp. rewrite Hp. cbn. now apply IH.
Qed.

Lemma set_item_length :
  forall (A : Type) (l : list A) (j : nat) (x : A),
    j < length l -> length (set_item l j x) = length l.
Proof.
  intros A l j x Hj. unfold set_item.
  rewrite length_app, length_firstn. cbn [length]. rewrite length_skipn. lia.
Qed.

Lemma append_converted_ok :
  forall (lists : list (list V)) (i j : nat) (dt : option D)
         (lr lr' : list (list V)),
    append_converted lists i j dt lr = Ok lr' ->
    j < length lr /\ length lr' = length lr.
Proof.
  intros lists i j dt lr lr'. unfold append_converted.
  destruct (nth_error lr j) as [r|] eqn:Hr; [|discriminate].
  assert (Hj : j < length lr) by (apply nth_error_Some; congruence).
  destruct (nth_error lists j) as [l|]; [|discriminate].
  destruct (nth_error l i) as [v|]; [|discriminate].
  destruct (convert_to_tensor v dt) as [x|e]; [|discriminate].
  intros H; inversion H; subst. split; [exact Hj|now apply set_item_length].
Qed.

Lemma append_range_ok :
  forall (lists : list (list V)) (i : nat) (js : list nat) (dt : option D)
         (lr lr' : list (list V)),
    append_range lists i js dt lr = Ok lr' ->
    Forall (fun j => j < length lr) js /\ length lr' = length lr.
Proof.
  intros lists i; induction js as [|j js IH]; intros dt lr lr'; cbn.
  - intros H; inversion H; split; [constructor|reflexivity].
  - destruct (append_converted lists i j dt lr) as [lr1|e] eqn:H1; cbn; [|discriminate].
    apply append_converted_ok in H1 as [Hj Hlen].
    intros H. apply IH in H as [Hjs Hlen']. rewrite Hlen in Hjs, Hlen'.
    split; [constructor; assumption|assumption].
Qed.

Lemma convert_column_raises :
  forall (lists : list (list V)) (i : nat) (types : list D)
         (lr : list (list V)) (st : list D * list (list V)),
    1 < length lists -> length lr = length lists - 1 ->
    convert_column lists i types lr <> Ok st.
Proof.
  intros lists i types lr st Hlen Hlr. unfold convert_column.
  assert (Hrange : forall (a : nat) (dt : option D) (lr1 lr' : list (list V)),
             a <= 1 -> length lr1 = length lr ->
             append_range lists i (seq a (length lists - a)) dt lr1 <> Ok lr').
  { intros a dt lr1 lr' Ha Hlr1 Hr.
    apply append_range_ok in Hr as [Hjs _].
    rewrite Forall_forall in Hjs.
    specialize (Hjs (length lists - 1)).
    assert (Hin : In (length lists - 1) (seq a (length lists - a)))
      by (apply in_seq; lia).
    specialize (Hjs Hin). lia. }
  destruct (find_dtype lists i) as [[d|]|e]; cbn [outcome_bind]; [| |discriminate].
  - intros H.
    destruct (append_range lists i (seq 0 (length lists)) (Some d) lr)
      as [lr'|e] eqn:Hr; [|discriminate].
    assert (Hn := Hrange 0 (Some d) lr lr' (Nat.le_0_l 1) eq_refl).
    rewrite Nat.sub_0_r in Hn. contradiction.
  - intros H.
    destruct (append_converted lists i 0 None lr) as [lr1|e] eqn:H1;
      cbn [outcome_bind] in H; [|discriminate].
    apply append_converted_ok in H1 as [_ Hlen1].
    destruct (nth_error lr1 0) as [r0|]; [|discriminate].
    destruct (nth_error r0 i) as [x|]; [|discriminate].
    destruct (append_range lists i (seq 1 (length lists - 1))
                (Some (dtype_attr x)) lr1) as [lr'|e] eqn:Hr; [|discriminate].
    revert Hr. now apply Hrange.
Qed.

Lemma Forall_length_zero :
  forall (A : Type) (ls : list (list A)),
    Forall (fun l => length l = 0) ls <-> Forall (fun l => l = []) ls.
Proof.
  intros A ls. split; intros H; induction H; constructor; auto.
  - now apply length_zero_iff_nil.
  - now subst.
Qed.

(** X15. [lists_ret] gets one list for each list after the first, so
    [args_to_mixed_eager_tensors] returns only when every list is empty,
    and then with no types and one list fewer than it was given. *)
Theorem args_to_mixed_eager_tensors_returns :
  forall (lists : list (list V)) (r : list D * list (list V)),
    args_to_mixed_eager_tensors lists = Ok r
    <-> 1 < length lists
        /\ Forall (fun l => l = []) lists
        /\ r = ([], repeat [] (length lists - 1)).
Proof.
  intros lists r. unfold args_to_mixed_eager_tensors.
  destruct (1 <? length lists) eqn:Hlen; cbn.
  2: { apply Nat.ltb_ge in Hlen. split; [discriminate|]. intros [H _]. lia. }
  apply Nat.ltb_lt in Hlen.
  destruct lists as [|l0 rest]; [cbn in Hlen; lia|].
  destruct (check_lengths l0 rest []) as [lr|e] eqn:Hc; cbn.
  - apply check_lengths_ok in Hc as [Hall ->]. cbn [app].
    destruct l0 as [|v l0].
    + cbn. replace (length rest - 0) with (length rest) by lia. split.
      * intros H; inversion H; subst. split; [exact Hlen|].
        split; [|reflexivity]. constructor; [reflexivity|].
        now apply Forall_length_zero.
      * intros (_ & _ & ->). reflexivity.
    + cbn [length seq convert_columns]. split.
      * destruct (convert_column ((v :: l0) :: rest) 0 [] (repeat [] (length rest)))
          as [st|e] eqn:Hcol; cbn; [|discriminate].
        exfalso. revert Hcol. apply convert_column_raises; [exact Hlen|].
        rewrite repeat_length. cbn. lia.
      * intros (_ & H & _). inversion H; discriminate.
  - split; [discriminate|]. intros (_ & H & _).
    inversion H as [|? ? H0 Hrest]; subst.
    assert (Hok : @check_lengths V E [] rest [] = Ok ([] ++ repeat [] (length rest))).
    { apply check_lengths_ok. split; [|reflexivity]. now apply Forall_length_zero. }
    congruence.
Qed.

Lemma set_item_nth_error :
  forall (A : Type) (l : list A) (j : nat) (x : A),
    j < length l -> nth_error (set_item l j x) j = Some x.
Proof.
  intros A l j x Hj. unfold set_item.
  rewrite nth_error_app2; rewrite length_firstn; [|lia].
  replace (j - Nat.min j (length l)) with 0 by lia. reflexivity.
Qed.

Lemma find_dtype_ok :
  forall (lists : list (list V)) (i : nat),
    Forall (fun l => i < length l) lists ->
    exists dt, @find_dtype V D E EG lists i = Ok dt.
Proof.
  induction lists as [|l lists IH]; intros i H; cbn.
  - now exists None.
  - inversion H as [|? ? Hl Hrest]; subst.
    destruct (nth_error l i) as [v|] eqn:Hv.
    + destruct (is_tensor v); [now eexists|now apply IH].
    + apply nth_error_None in Hv. lia.
Qed.

Lemma append_range_index_error :
  forall (lists : list (list V)) (i : nat) (dt : option D),
    Forall (fun l => i < length l) lists ->
    (forall v dt', In v (concat lists) -> exists x, convert_to_tensor v dt' = Ok x) ->
    forall (cnt a : nat) (lr : list (list V)),
      0 < cnt -> a + cnt = length lists -> a <= length lr ->
      length lr = length lists - 1 ->
      append_range lists i (seq a cnt) dt lr = Raised IndexError.
Proof.
  intros lists i dt Hi Hconv. induction cnt as [|cnt IH]; intros a lr Hc Ha Hle Hlr; [lia|].
  cbn. unfold append_converted.
  destruct (nth_error lr a) as [r|] eqn:Hr; [|reflexivity].
  assert (Halr : a < length lr) by (apply nth_error_Some; congruence).
  destruct (nth_error lists a) as [l|] eqn:Hl.
  2: { apply nth_error_None in Hl. lia. }
  assert (Hin : In l lists) by (eapply nth_error_In; eassumption).
  destruct (nth_error l i) as [v|] eqn:Hv.
  2: { apply nth_error_None in Hv. rewrite Forall_forall in Hi.
       specialize (Hi l Hin). lia. }
  destruct (Hconv v dt) as [x Hx].
  { apply in_concat. exists l. split; [exact Hin|]. eapply nth_error_In; eassumption. }
  rewrite Hx. cbn. apply IH; try lia.
  - rewrite set_item_length; lia.
  - rewrite set_item_length; lia.
Qed.

(** X16. For two or more non-empty lists of the same length whose values
    all convert, [args_to_mixed_eager_tensors] raises IndexError: the loop
    over [j] reaches [lists_ret[len(lists) - 1]], which does not exist. *)
Theorem args_to_mixed_eager_tensors_index_error :
  forall (lists : list (list V)) (m : nat),
    1 < length lists ->
    Forall (fun l => length l = S m) lists ->
    (forall v dt, In v (concat lists) -> exists x, convert_to_tensor v dt = Ok x) ->
    args_to_mixed_eager_tensors lists = Raised IndexError.
Proof.
  intros lists m Hlen Hall Hconv. unfold args_to_mixed_eager_tensors.
  assert (H1 : (1 <? length lists) = true) by (apply Nat.ltb_lt; exact Hlen).
  rewrite H1. cbn [negb].
  destruct lists as [|l0 rest]; [reflexivity|].
  inversion Hall as [|? ? Hl0 Hrest]; subst.
  assert (Hc : @check_lengths V E l0 rest [] = Ok ([] ++ repeat [] (length rest))).
  { apply check_lengths_ok. split; [|reflexivity].
    eapply Forall_impl; [|exact Hrest]. cbn. intros; congruence. }
  rewrite Hc. cbn [outcome_bind app]. rewrite Hl0. cbn [seq convert_columns].
  assert (Hi : Forall (fun l => 0 < length l) (l0 :: rest)).
  { eapply Forall_impl; [|exact Hall]. cbn. intros; lia. }
  assert (Hcol : forall types,
             convert_column (l0 :: rest) 0 types (repeat [] (length rest))
             = Raised IndexError).
  { intros types. unfold convert_column.
    destruct (find_dtype_ok (l0 :: rest) 0 Hi) as [dt Hdt]. rewrite Hdt. cbn [outcome_bind].
    cbn in Hlen.
    destruct dt as [d|].
    - rewrite (append_range_index_error (l0 :: rest) 0 (Some d) Hi Hconv);
        [reflexivity| | | |]; cbn; rewrite ?repeat_length; lia.
    - unfold append_converted.
      destruct rest as [|l1 rest']; [cbn in Hlen; lia|].
      cbn [length repeat nth_error].
      destruct l0 as [|v l0']; [discriminate|]. cbn [nth_error].
      destruct (Hconv v None) as [x Hx]; [cbn; now left|].
      rewrite Hx. cbn [outcome_bind set_item firstn skipn app nth_error].
      rewrite (append_range_index_error ((v :: l0') :: l1 :: rest') 0
                 (Some (dtype_attr x)) Hi Hconv);
        [reflexivity| | | |]; cbn; rewrite ?repeat_length; lia. }
  rewrite Hcol. reflexivity.
Qed.

(** X14. [args_to_mixed_eager_tensors] fails its assertion for fewer than
    two lists, and raises ValueError, naming the two lengths and lists, for
    the first list whose length differs from the length of the first list,
    before any value is converted. *)
Theorem args_to_mixed_eager_tensors_errors :
  forall (lists : list (list V)),
    (length lists <= 1 ->
     args_to_mixed_eager_tensors lists = Raised AssertionError)
    /\ (forall (l0 : list V) (pre : list (list V)) (l : list V)
               (post : list (list V)),
          lists = l0 :: pre ++ l :: post ->
          Forall (fun l' => length l' = length l0) pre ->
          length l <> length l0 ->
          args_to_mixed_eager_tensors lists
          = Raised (ValueError (length l0) (length l) l0 l)).
Proof.
  intros lists. split.
  - intros H. unfold args_to_mixed_eager_tensors.
    assert (H1 : (1 <? length lists) = false) by (apply Nat.ltb_ge; exact H).
    now rewrite H1.
  - intros l0 pre l post -> Hpre Hl. unfold args_to_mixed_eager_tensors.
    assert (H1 : (1 <? length (l0 :: pre ++ l :: post)) = true).
    { apply Nat.ltb_lt. cbn. rewrite length_app. cbn. lia. }
    rewrite H1. cbn [negb].
    now rewrite (check_lengths_mismatch l0 pre l post [] Hpre Hl).
Qed.

End ExecuteMixed.

(** * The further properties at work *)

Lemma small_convert_dtype :
  forall (v : small_value) (d : small_dtype) (x : small_value),
    execute.convert_to_tensor v (Some d) = execute.Ok x ->
    execute.dtype_attr x = d.
Proof.
  intros [z|q|d' q] d x; cbn; destruct d; try destruct d'; cbn;
    intros H; inversion H; reflexivity.
Qed.

Lemma small_new_tensor :
  forall t x : small_value,
    execute.new_tensor t = execute.Ok x -> execute.is_tensor x = true.
Proof.
  intros [z|q|d q] x; cbn; intros H; inversion H; reflexivity.
Qed.

Lemma Q_trunc_of_int : forall z : Z, trunc (of_int z : Q) = z.
Proof. intros z. cbn. apply Z.quot_1_r. Qed.

Lemma Q_nonneg_of_int : forall z : Z, (0 <= z)%Z -> nonneg (of_int z : Q) = true.
Proof.
  intros z Hz. cbn. apply Qle_bool_iff. unfold Qle. cbn. lia.
Qed.

Lemma Q_equal_refl : forall x : Q, equal x x = true.
Proof. intros x. cbn. apply Qeq_bool_iff. reflexivity. Qed.

Lemma total_count_validation_witness :
  eval (Multinomial._maybe_assert_valid_total_count
          (mk_Tensor (Some 0) (Val (scalar (5 # 2)%Q))) true)
  = Fail (InvalidArgumentError "total_count cannot contain fractional values.").
Proof.
  refine (proj2 (proj2 (proj2 (proj2 (proj2
            (total_count_validation
               (mk_Tensor (Some 0) (Val (scalar (5 # 2)%Q)))
               (scalar (5 # 2)%Q) eq_refl eq_refl))))) _ _).
  - intros (v & [<- | []] & H). discriminate H.
  - exists (5 # 2)%Q. split; [now left|reflexivity].
Defined.

Lemma invalid_total_count_surfaces_witness :
  exists msg,
    Multinomial._mean
      (xreal_dist (Fin (-1)) [Fin (1 / 2); Fin (1 / 2)] true)
    = Fail (InvalidArgumentError msg).
Proof.
  refine (proj1 (proj2 (invalid_total_count_surfaces
            (mk_Tensor (Some 0) (Val (scalar (Fin (-1)))))
            None (Some (vector [Fin (1 / 2); Fin (1 / 2)])) true "Multinomial"
            (xreal_dist (Fin (-1)) [Fin (1 / 2); Fin (1 / 2)] true)
            (scalar (Fin (-1)))
            (xreal_dist_init (Fin (-1)) [Fin (1 / 2); Fin (1 / 2)] true)
            eq_refl eq_refl _))).
  left. exists (Fin (-1)). split; [now left|].
  simpl. destruct (Rle_dec 0 (-1)) as [H|_]; [lra|reflexivity].
Defined.

Lemma batch_and_event_shape_witness :
  Multinomial._batch_shape_tensor Q_two_coins = Val [2]
  /\ Multinomial._event_shape_tensor Q_two_coins = Val [2].
Proof.
  destruct (proj1 (batch_and_event_shape Q_two_coins (vector [4; 5]%Q)
                     (vector [1 # 2; 1 # 2]%Q) [] 2
                     eq_refl eq_refl eq_refl eq_refl) [2] eq_refl)
    as (Hb & He & _).
  split; [exact Hb|exact He].
Defined.

Lemma mean_entries_witness :
  exists M,
    Multinomial._mean Q_two_coins = Val M
    /\ nth 2 (values M) 0%Q = Qmult 5 (1 # 2).
Proof.
  destruct (mean_entries Q_two_coins (vector [4; 5]%Q)
              (vector [1 # 2; 1 # 2]%Q) [2] 2
              eq_refl eq_refl eq_refl eq_refl eq_refl eq_refl)
    as (M & HM & _ & _ & Hent).
  exists M. split; [exact HM|].
  apply (Hent 1 0); simpl; lia.
Defined.

Lemma mean_of_vector_witness :
  Multinomial._mean (Q_coin 4)
  = Val (vector [Qmult 4 (1 # 2); Qmult 4 (1 # 2)]).
Proof.
  exact (mean_of_vector (Q_coin 4) 4%Q [1 # 2; 1 # 2]%Q eq_refl eq_refl eq_refl).
Defined.

Lemma probs_broadcast_values_witness :
  Multinomial.probs_broadcast Q_two_coins
  = Val (mk_ndarray [2; 2] [1 # 2; 1 # 2; 1 # 2; 1 # 2]%Q).
Proof.
  exact (proj1 (probs_broadcast_values (F := Q) (AR := Q_arith)
                  Q_mul_one_r Q_two_coins
                  (vector [4; 5]%Q) (vector [1 # 2; 1 # 2]%Q) [2] 2
                  eq_refl eq_refl eq_refl eq_refl eq_refl eq_refl)).
Defined.

Lemma prob_closed_form_witness :
  Multinomial._prob
    (xreal_dist (Fin (INR 4)) [Fin (1 / 5); Fin (3 / 10); Fin (1 / 2)] false)
    (counts_tensor [1; 0; 3])
  = Val (scalar (Fin (INR (fact 4)
                      * weight [(1 / 5)%R; (3 / 10)%R; (1 / 2)%R] [1; 0; 3]))).
Proof.
  refine (prob_closed_form lgamma_step lgamma_step_fact
            (xreal_dist (Fin (INR 4)) [Fin (1 / 5); Fin (3 / 10); Fin (1 / 2)]
                        false)
            [(1 / 5)%R; (3 / 10)%R; (1 / 2)%R] 4 [1; 0; 3]
            eq_refl eq_refl _ eq_refl _).
  - repeat constructor; lra.
  - intros H; discriminate H.
Defined.

Lemma binomial_special_case_witness :
  Multinomial._prob
    (xreal_dist (Fin (INR 4)) [Fin (1 / 4); Fin (1 - 1 / 4)] false)
    (counts_tensor [1; 4 - 1])
  = Val (scalar (Fin (Binomial.C 4 1 * (1 / 4) ^ 1 * (1 - 1 / 4) ^ (4 - 1)))).
Proof.
  refine (binomial_special_case lgamma_step lgamma_step_fact
            (xreal_dist (Fin (INR 4)) [Fin (1 / 4); Fin (1 - 1 / 4)] false)
            (1 / 4)%R 4 1 eq_refl eq_refl _ _).
  - lra.
  - lia.
Defined.


Lemma args_to_matching_eager_dtype_witness :
  execute.args_to_matching_eager
    [PyInt 1; EagerTensor float32 (5 # 2); PyFloat (1 # 2)] (Some int32)
  = execute.Ok
      (Some float32,
       [EagerTensor float32 (inject_Z 1); EagerTensor float32 (5 # 2);
        EagerTensor float32 (1 # 2)]).
Proof.
  exact (proj1 (args_to_matching_eager_dtype
                  [PyInt 1; EagerTensor float32 (5 # 2); PyFloat (1 # 2)]
                  (Some int32)) float32 eq_refl).
Defined.

Lemma args_to_matching_eager_same_dtype_witness :
  exists d,
    Some float32 = Some d
    /\ Forall (fun x => execute.dtype_attr x = d)
         [EagerTensor float32 (inject_Z 1); EagerTensor float32 (5 # 2);
          EagerTensor float32 (1 # 2)].
Proof.
  refine (proj2 (proj2 (args_to_matching_eager_same_dtype small_convert_dtype
            [PyInt 1; EagerTensor float32 (5 # 2); PyFloat (1 # 2)]
            (Some int32) (Some float32) _ eq_refl)) _).
  discriminate.
Defined.

Lemma convert_to_mixed_eager_tensors_idempotent_witness :
  execute.convert_to_mixed_eager_tensors
    [EagerTensor int32 (inject_Z 1); EagerTensor float32 (1 # 2)]
  = execute.Ok ([int32; float32],
                [EagerTensor int32 (inject_Z 1); EagerTensor float32 (1 # 2)]).
Proof.
  exact (proj2 (proj2 (proj2
           (convert_to_mixed_eager_tensors_idempotent small_new_tensor
              [PyInt 1; EagerTensor float32 (1 # 2)] _ _ eq_refl)))).
Defined.

Lemma args_to_mixed_eager_tensors_errors_witness :
  execute.args_to_mixed_eager_tensors [[PyInt 1]; [PyInt 2; PyInt 3]]
  = execute.Raised (execute.ValueError 1 2 [PyInt 1] [PyInt 2; PyInt 3]).
Proof.
  refine (proj2 (args_to_mixed_eager_tensors_errors
                   [[PyInt 1]; [PyInt 2; PyInt 3]])
                [PyInt 1] [] [PyInt 2; PyInt 3] [] eq_refl _ _).
  - constructor.
  - simpl. lia.
Defined.

Lemma args_to_mixed_eager_tensors_returns_witness :
  execute.args_to_mixed_eager_tensors [[]; []; []]
  = execute.Ok (([] : list small_dtype), [[]; []] : list (list small_value)).
Proof.
  apply (proj2 (args_to_mixed_eager_tensors_returns [[]; []; []] ([], [[]; []]))).
  split; [simpl; lia|]. split; [repeat constructor|reflexivity].
Defined.

Lemma args_to_mixed_eager_tensors_index_error_witness :
  execute.args_to_mixed_eager_tensors [[PyInt 1]; [PyInt 2]]
  = execute.Raised execute.IndexError.
Proof.
  refine (args_to_mixed_eager_tensors_index_error [[PyInt 1]; [PyInt 2]] 0 _ _ _).
  - simpl. lia.
  - repeat constructor.
  - intros v dt [<- | [<- | []]]; destruct dt; eexists; reflexivity.
Defined.

Lemma validation_only_rejects_witness :
  Multinomial._log_prob
    (without_validation
       (xreal_dist (Fin (INR 4)) [Fin (1 / 5); Fin (3 / 10); Fin (1 / 2)] true))
    (counts_tensor [1; 0; 3])
  = Val (scalar (log_prob_value (Fin (INR 4))
                   [Fin (1 / 5); Fin (3 / 10); Fin (1 / 2)]
                   [Fin (INR 1); Fin (INR 0); Fin (INR 3)])).
Proof.
  refine (proj1 (proj2 (proj2 (validation_only_rejects
            (xreal_dist (Fin (INR 4)) [Fin (1 / 5); Fin (3 / 10); Fin (1 / 2)] true)
            (counts_tensor [1; 0; 3]) _))) _).
  assert (Hprobs : Multinomial.probs
            (xreal_dist (Fin (INR 4)) [Fin (1 / 5); Fin (3 / 10); Fin (1 / 2)] true)
          = Val (vector [Fin (1 / 5); Fin (3 / 10); Fin (1 / 2)])).
  { apply (valid_probs_pass lgamma_step
             (vector [Fin (1 / 5); Fin (3 / 10); Fin (1 / 2)]) [] 3 eq_refl).
    - apply vector_well_formed.
    - constructor; [|constructor]. split.
      + repeat constructor; eexists; (split; [reflexivity | lra]).
      + simpl. f_equal. lra. }
  apply (log_prob_vector
           (xreal_dist (Fin (INR 4)) [Fin (1 / 5); Fin (3 / 10); Fin (1 / 2)] true)
           (Fin (INR 4)) [Fin (1 / 5); Fin (3 / 10); Fin (1 / 2)]
           [Fin (INR 1); Fin (INR 0); Fin (INR 3)] Hprobs
           (total_count_check_pass 4)).
  - apply (valid_counts_pass
             (xreal_dist (Fin (INR 4)) [Fin (1 / 5); Fin (3 / 10); Fin (1 / 2)] true)
             4 [1; 0; 3] (total_count_check_pass 4) eq_refl).
  - reflexivity.
Defined.

Lemma valid_sample_accepted_witness :
  Multinomial._maybe_assert_valid_sample
    (Q_coin_unknown_rank (scalar 4%Q) true) (vector [1; 3]%Q)
  = Val (vector [1; 3]%Q).
Proof.
  refine (proj2 (valid_sample_accepted
                   (Q_coin_unknown_rank (scalar 4%Q) true) (vector [1; 3]%Q)
                   (scalar 4%Q) (scalar (1 + 3)%Q) (scalar true)
                   eq_refl eq_refl eq_refl eq_refl eq_refl) _).
  split; [|split].
  - intros (v & [<- | [<- | []]] & H); discriminate H.
  - intros (v & [<- | [<- | []]] & H); discriminate H.
  - intros [H | []]. discriminate H.
Defined.
